(** * The CSV import pipeline of the product dashboard (ProductManager.py)

    A shallow embedding of the import path of [ProductDashboard]:
    encoding detection, header normalisation, de-duplication and synonym
    mapping, cell sanitisation and numeric coercion, and the batched
    upsert loader run by [import_csv]'s [worker] against the [products]
    table, the search and the pager of the view, followed by the
    properties of these functions. *)

From Stdlib Require Import ZArith NArith Ascii String PrimFloat FloatOps SpecFloat Uint63.
From Stdlib.Strings Require Import Byte.
From stdpp Require Import base option list gmap strings pretty.

Local Open Scope list_scope.

(** ** Python strings

    A Python [str] is a sequence of Unicode code points, embedded as a
    list of numbers.  [py] turns an ASCII literal into such a list. *)
Abbreviation str := (list N).

Definition py (s : string) : str :=
  (fun c => N_of_ascii c) <$> list_ascii_of_string s.

Module PyStr.

(** [s.lower()] where the result is only compared with the words
    [n/a], [na], [null], [none] and [-]: the ASCII capitals are lowered
    and every other code point is left as it is.  No code point outside
    ASCII lowers to a letter of these words (the Kelvin sign gives [k],
    the dotted capital I gives [i] and a combining dot), so the
    comparison comes out as with Python's full case mapping.  Where the
    lowered string itself is used (headers, the search) [str.lower] is a
    parameter; the examples on ASCII text, where the two agree, pass
    [lower] for it. *)
Definition lower_char (c : N) : N :=
  if (65 <=? c)%N && (c <=? 90)%N then (c + 32)%N else c.

Definition lower (s : str) : str := lower_char <$> s.

(** The code points [str.isspace] accepts, which the argument-less
    [strip] removes. *)
Definition is_space (c : N) : bool :=
  ((9 <=? c)%N && (c <=? 13)%N) || ((28 <=? c)%N && (c <=? 32)%N)
  || (c =? 133)%N || (c =? 160)%N || (c =? 5760)%N
  || ((8192 <=? c)%N && (c <=? 8202)%N)
  || (c =? 8232)%N || (c =? 8233)%N || (c =? 8239)%N || (c =? 8287)%N
  || (c =? 12288)%N.

(** [s.lstrip()] *)
Fixpoint lstrip (s : str) : str :=
  match s with
  | [] => []
  | c :: s' => if is_space c then lstrip s' else s
  end.

(** [s.rstrip()] *)
Fixpoint rstrip (s : str) : str :=
  match s with
  | [] => []
  | c :: s' =>
      match rstrip s' with
      | [] => if is_space c then [] else [c]
      | r => c :: r
      end
  end.

(** [s.strip()] *)
Definition strip (s : str) : str := rstrip (lstrip s).

(** [s.startswith(old)] *)
Fixpoint startswith (old s : str) : bool :=
  match old, s with
  | [], _ => true
  | a :: old', b :: s' => if (a =? b)%N then startswith old' s' else false
  | _ :: _, [] => false
  end.

(** The scan of [s.replace(old, new)] for a non-empty [old]: left to
    right, non-overlapping; [skip] counts the characters of a matched
    occurrence that are still to be passed over. *)
Fixpoint replace_scan (old new : str) (skip : nat) (s : str) : str :=
  match s with
  | [] => []
  | c :: s' =>
      match skip with
      | S k => replace_scan old new k s'
      | O =>
          if startswith old s
          then new ++ replace_scan old new (length old - 1) s'
          else c :: replace_scan old new 0 s'
      end
  end.

(** With an empty [old], Python puts [new] before every character and
    at the end. *)
Fixpoint interleave (new s : str) : str :=
  match s with
  | [] => new
  | c :: s' => new ++ c :: interleave new s'
  end.

(** [s.replace(old, new)] *)
Definition replace (old new s : str) : str :=
  match old with
  | [] => interleave new s
  | _ => replace_scan old new 0 s
  end.

(** The rendering of a non-negative int in an f-string. *)
Definition of_nat (n : nat) : str := py (pretty n).

End PyStr.

(** Code points the import code names. *)
Definition nul : N := 0.
Definition LF : N := 10.
Definition CR : N := 13.
Definition dollar : N := 36.
Definition comma : N := 44.
Definition nbsp : N := 160.
Definition pound : N := 163.
Definition euro : N := 8364.

(** ** EncodingDetector *)

Inductive encoding :=
| utf_8_sig | utf_8 | cp1252 | latin_1 | utf_16 | utf_16le | utf_16be.

(** [head.startswith(sig)] on bytes. *)
Fixpoint bytes_startswith (sig head : list byte) : bool :=
  match sig, head with
  | [], _ => true
  | a :: sig', b :: head' => if Byte.eqb a b then bytes_startswith sig' head' else false
  | _ :: _, [] => false
  end.

Definition candidates : list encoding :=
  [utf_8; cp1252; latin_1; utf_16; utf_16le; utf_16be].

Section Codecs.
(** [decodes enc sample]: [sample.decode(enc)] returns instead of
    raising.  The codecs are Python's, not the dashboard's. *)
Variable decodes : encoding -> list byte -> bool.

(** The loop [for enc in candidates], ending in the fallback return. *)
Fixpoint try_candidates (cands : list encoding) (sample : list byte)
    : encoding * bool :=
  match cands with
  | [] => (latin_1, false)
  | enc :: rest =>
      if decodes enc sample then (enc, false) else try_candidates rest sample
  end.

(** [_detect_encoding], on the content of the file at [path]. *)
Definition _detect_encoding (file : list byte) : encoding * bool :=
  let head := take 8 file in
  if bytes_startswith [xef; xbb; xbf] head then (utf_8_sig, true)
  else if bytes_startswith [xff; xfe] head then (utf_16le, true)
  else if bytes_startswith [xfe; xff] head then (utf_16be, true)
  else try_candidates candidates (take 65536 file).
End Codecs.

(** ** HeaderResolver *)

Section Headers.
(** [py_lower s] is [s.lower()], Python's, with its full Unicode case
    mapping. *)
Variable py_lower : str -> str.

(** [_normalize_header]: [(h or "").strip().lower()] followed by the four
    replacements. *)
Definition _normalize_header (h : str) : str :=
  PyStr.replace (py "_") []
    (PyStr.replace (py "-") []
      (PyStr.replace (py " ") []
        (PyStr.replace [nbsp] (py " ") (py_lower (PyStr.strip h))))).
End Headers.

(** The loop of [_dedupe_headers]; [seen] is the dict of the source, the
    result is [out] in append order. *)
Fixpoint dedupe_loop (seen : gmap (list N) nat) (headers : list str) : list str :=
  match headers with
  | [] => []
  | h :: rest =>
      match seen !! h with
      | Some n =>
          (h ++ PyStr.of_nat (S n)) :: dedupe_loop (<[h := S n]> seen) rest
      | None => h :: dedupe_loop (<[h := 0%nat]> seen) rest
      end
  end.

Definition _dedupe_headers (headers : list str) : list str :=
  dedupe_loop ∅ headers.

(** The [synonyms] dict of [_build_header_map], in insertion order. *)
Definition synonyms : list (string * gset (list N)) :=
  [ ("sku", list_to_set (py <$> ["sku"; "productcode"; "code"; "itemcode"; "id"; "productid"]));
    ("name", list_to_set (py <$> ["name"; "title"; "productname"; "descriptionshort"; "itemname"]));
    ("price", list_to_set (py <$> ["price"; "unitprice"; "sellprice"; "rrp"; "priceex"; "priceinctax"]));
    ("stock", list_to_set (py <$> ["stock"; "qty"; "quantity"; "onhand"; "inventory"]));
    ("category", list_to_set (py <$> ["category"; "cat"; "segment"]));
    ("status", list_to_set (py <$> ["status"; "state"; "enabled"; "active"]));
    ("image_path", list_to_set (py <$> ["image"; "imagepath"; "imageurl"; "picture"; "img"]));
    ("description", list_to_set (py <$> ["description"; "longdescription"; "fulldescription";
                                         "details"; "notes"])) ]%string.

(** The inner loop [for i, src in enumerate(hdrs_norm)]: the index of the
    first header in [keys], counted from [i]. *)
Fixpoint first_match (keys : gset (list N)) (i : nat) (hdrs : list str) : option nat :=
  match hdrs with
  | [] => None
  | src :: rest =>
      if bool_decide (src ∈ keys) then Some i else first_match keys (S i) rest
  end.

(** The outer loop over [synonyms.items()]. *)
Fixpoint header_map_loop (syn : list (string * gset (list N))) (hdrs : list str)
    (mapping : gmap string nat) : gmap string nat :=
  match syn with
  | [] => mapping
  | (target, keys) :: syn' =>
      header_map_loop syn' hdrs
        match first_match keys 0 hdrs with
        | Some i => <[target := i]> mapping
        | None => mapping
        end
  end.

Definition _build_header_map (hdrs_norm : list str) : gmap string nat :=
  header_map_loop synonyms hdrs_norm ∅.

(** ** RowSanitizer *)

(** The set both coercions test the lowered cell against. *)
Definition null_words : gset (list N) :=
  list_to_set (py <$> ["n/a"; "na"; "null"; "none"; "-"]%string).

(** [int(v)] for a float [v]: truncation towards zero; infinities and
    NaN raise. *)
Definition int_of_float (v : float) : option Z :=
  match Prim2SF v with
  | S754_zero _ => Some 0%Z
  | S754_finite sg m e =>
      let a := if (0 <=? e)%Z then (Z.pos m * 2 ^ e)%Z else (Z.pos m / 2 ^ (- e))%Z in
      Some (if sg then (- a)%Z else a)
  | S754_infinity _ | S754_nan => None
  end.

Section Coercion.
(** [py_float s] is [float(s)], [None] when it raises.  The parser is
    Python's, not the dashboard's. *)
Variable py_float : str -> option float.

(** [_to_float] *)
Definition _to_float (x : str) : float :=
  let s := PyStr.strip x in
  if bool_decide (s = []) || bool_decide (PyStr.lower s ∈ null_words) then 0%float
  else
    let s := PyStr.replace [pound] [] (PyStr.replace [euro] [] (PyStr.replace [dollar] [] s)) in
    let s := PyStr.replace [comma] [] s in
    match py_float s with
    | Some v => v
    | None => 0%float
    end.

(** [_to_int] *)
Definition _to_int (x : str) : Z :=
  let s := PyStr.strip x in
  if bool_decide (s = []) || bool_decide (PyStr.lower s ∈ null_words) then 0%Z
  else
    match py_float (PyStr.replace [comma] [] s) with
    | Some v => match int_of_float v with Some n => n | None => 0%Z end
    | None => 0%Z
    end.
End Coercion.

(** [_sanitize_cell] *)
Definition _sanitize_cell (s : str) : str :=
  PyStr.strip
    (PyStr.replace [CR] [LF] (PyStr.replace [CR; LF] [LF] (PyStr.replace [nul] [] s))).

(** ** The store: the [products] table behind one sqlite3 connection *)

(** The exceptions of the import path, with their texts. *)
Inductive exn :=
| OperationalError (msg : str)
| IntegrityError (msg : str)
| DatabaseError (msg : str)
| ValueError (msg : str)
| OverflowError (msg : str)
| RecursionError (msg : str).

(** [str(e)] *)
Definition exn_str (e : exn) : str :=
  match e with
  | OperationalError m | IntegrityError m | DatabaseError m | ValueError m
  | OverflowError m | RecursionError m => m
  end.

(** The 8-tuple appended to [batch]. *)
Record product := mkProduct {
  p_sku : str; p_name : str; p_price : float; p_stock : Z;
  p_category : str; p_status : str; p_image_path : str; p_description : str }.

(** A row of [products]: the [id] column and the eight data columns.
    The REAL column never holds a NaN, for which SQLite stores NULL; the
    NaN of a row's price stands for that NULL. *)
Record row := mkRow { r_id : Z; r_product : product }.

(** The table: its rows in rowid order, and its entry in
    [sqlite_sequence] (the largest rowid ever given, which
    [AUTOINCREMENT] keeps; 0 when there is none). *)
Record table := mkTable { rows : list row; sequence : Z }.

Definition r_sku (r : row) : str := p_sku (r_product r).

Definition skus (t : table) : list str := r_sku <$> rows t.

Definition ids (t : table) : list Z := r_id <$> rows t.

Definition has_sku (k : str) (r : row) : bool := bool_decide (r_sku r = k).

(** [SELECT id FROM products WHERE sku=?] followed by [fetchone()]. *)
Definition select_id (k : str) (t : table) : option Z :=
  r_id <$> find (has_sku k) (rows t).

(** [SET name=?, price=?, stock=?, category=?, status=?, image_path=?,
    description=?] on one row: [id] and [sku] stay. *)
Definition set_columns (p : product) (r : row) : row :=
  mkRow (r_id r)
    (mkProduct (r_sku r) (p_name p) (p_price p) (p_stock p)
       (p_category p) (p_status p) (p_image_path p) (p_description p)).

(** [UPDATE products SET ... WHERE sku=?] *)
Definition update_where_sku (p : product) (t : table) : table :=
  mkTable ((fun r => if has_sku (p_sku p) r then set_columns p r else r) <$> rows t)
    (sequence t).

(** The rowid [AUTOINCREMENT] gives next: one more than the largest ever
    given and than the largest present. *)
Definition next_rowid (t : table) : Z :=
  (1 + Z.max (sequence t) (foldr Z.max 0 (ids t)))%Z.

Definition unique_failed : exn :=
  IntegrityError (py "UNIQUE constraint failed: products.sku").

(** [INSERT INTO products (sku, ...) VALUES (...)] under [sku TEXT UNIQUE]:
    a statement that fails leaves the sequence as it was. *)
Definition insert (p : product) (t : table) : exn + table :=
  if existsb (has_sku (p_sku p)) (rows t) then inl unique_failed
  else inr (mkTable (rows t ++ [mkRow (next_rowid t) p]) (next_rowid t)).

(** [DO UPDATE SET ...] of the upsert: on the row the insert conflicts with. *)
Fixpoint update_conflicting (p : product) (l : list row) : list row :=
  match l with
  | [] => []
  | r :: l' =>
      if has_sku (p_sku p) r then set_columns p r :: l'
      else r :: update_conflicting p l'
  end.

(** [INSERT ... ON CONFLICT(sku) DO UPDATE SET ...] for one parameter
    tuple.  The rowid is drawn before the conflict is met, so an upsert
    that ends in the update still uses up a rowid of the sequence. *)
Definition upsert (p : product) (t : table) : table :=
  match insert p t with
  | inr t' => t'
  | inl _ => mkTable (update_conflicting p (rows t)) (next_rowid t)
  end.

(** What [sqlite3] binds to an INTEGER parameter: a 64-bit signed int. *)
Definition fits_int64 (n : Z) : bool := (- 2 ^ 63 <=? n)%Z && (n <? 2 ^ 63)%Z.

Definition int_too_large : exn :=
  OverflowError (py "Python int too large to convert to SQLite INTEGER").

(** The calls made on the connection and its cursor. *)
Inductive stmt :=
| SBegin
| SUpsertMany (b : list product)
| SSelect (k : str)
| SUpdate (p : product)
| SInsert (p : product)
| SCommit
| SRollback.

(** What the run cannot control: whether the SQLite library accepts the
    [ON CONFLICT] form, which calls fail in the store (a locked or full
    database, a damaged file, a value beyond a limit of SQLite, the rowids
    used up), by the number of calls the store has executed since the
    connection was set up, and the text the interpreter gives its
    [RecursionError]. *)
Record store_env := mkEnv {
  upsert_supported : bool;
  faults : nat -> option exn;
  recursion_text : str }.

Inductive result (A : Type) :=
| Ok (a : A)
| Raise (e : exn).
Arguments Ok {A} a.
Arguments Raise {A} e.

(** The connection ([db] the committed table, [txn] the table as the open
    transaction sees it, [clock] the calls the store has executed since
    the connection was set up, [log] the calls issued on the cursor and
    the connection from [BEGIN] on, newest first) and the locals of
    [worker]. *)
Record state := mkState {
  db : table; txn : option table; clock : nat; log : list stmt;
  have_upsert : bool; batch : list product;
  skipped : nat; error_lines : list str; line_no : nat }.

Definition M (A : Type) : Type := state -> result A * state.

Definition ret {A} (a : A) : M A := fun st => (Ok a, st).

Definition bind {A B} (m : M A) (k : A -> M B) : M B :=
  fun st => match m st with
            | (Ok a, st') => k a st'
            | (Raise e, st') => (Raise e, st')
            end.

Notation "x <- m ;; k" := (bind m (fun x => k))
  (at level 100, m at next level, right associativity).
Notation "m ;;; k" := (bind m (fun _ => k))
  (at level 100, right associativity).

Definition set_txn (o : option table) (st : state) : state :=
  mkState (db st) o (clock st) (log st) (have_upsert st) (batch st)
    (skipped st) (error_lines st) (line_no st).
Definition set_db (t : table) (st : state) : state :=
  mkState t (txn st) (clock st) (log st) (have_upsert st) (batch st)
    (skipped st) (error_lines st) (line_no st).
Definition tick (st : state) : state :=
  mkState (db st) (txn st) (S (clock st)) (log st) (have_upsert st) (batch st)
    (skipped st) (error_lines st) (line_no st).
Definition issue (s : stmt) (st : state) : state :=
  mkState (db st) (txn st) (clock st) (s :: log st) (have_upsert st) (batch st)
    (skipped st) (error_lines st) (line_no st).
Definition set_have_upsert (b : bool) (st : state) : state :=
  mkState (db st) (txn st) (clock st) (log st) b (batch st)
    (skipped st) (error_lines st) (line_no st).
Definition set_batch (b : list product) (st : state) : state :=
  mkState (db st) (txn st) (clock st) (log st) (have_upsert st) b
    (skipped st) (error_lines st) (line_no st).
Definition set_line_no (n : nat) (st : state) : state :=
  mkState (db st) (txn st) (clock st) (log st) (have_upsert st) (batch st)
    (skipped st) (error_lines st) n.
(** [skipped += 1; error_lines.append(msg)] *)
Definition skip_with (msg : str) (st : state) : state :=
  mkState (db st) (txn st) (clock st) (log st) (have_upsert st) (batch st)
    (S (skipped st)) (error_lines st ++ [msg]) (line_no st).

(** The table a statement sees: inside the transaction when one is open. *)
Definition cur_table (st : state) : table := default (db st) (txn st).

Definition BATCH_SIZE : nat := 500.

Definition upsert_rejected : exn := OperationalError (py "near ON: syntax error").
Definition nested_begin : exn :=
  OperationalError (py "cannot start a transaction within a transaction").
Definition no_header : exn := ValueError (py "File has no header row.").

(** How the inner [try] of a run ends: [Done] when [conn.commit()] has
    returned, with the locals [skipped] and [error_lines] as they stand
    there; [Failed] when its handler has caught an exception, with the
    text of that exception.  The handler rolls back and hands Tk a lambda
    for the error box; the lambda reads [e] after the handler has unbound
    it, so no box is shown.  In both cases the reload of the view and the
    status [Import complete] are scheduled next. *)
Inductive outcome :=
| Done (n_skipped : nat) (diagnostics : list str)
| Failed (msg : str).

(** ** BatchLoader and ImportCoordinator: [worker] of [import_csv] *)

Section Worker.
Variable py_float : str -> option float.
Variable py_lower : str -> str.
Variable E : store_env.

(** A call on the cursor that reads or writes [products]: it is issued,
    the fault plan is consulted, and it either raises or acts on the
    table of the open transaction. *)
Definition execute {A} (s : stmt) (act : table -> exn + (A * table)) : M A :=
  fun st =>
    let st1 := tick (issue s st) in
    match faults E (clock st) with
    | Some e => (Raise e, st1)
    | None =>
        match act (cur_table st) with
        | inl e => (Raise e, st1)
        | inr (a, t') => (Ok a, set_txn (Some t') st1)
        end
    end.

(** [cur.execute("BEGIN")] *)
Definition execute_begin : M unit :=
  fun st =>
    let st1 := tick (issue SBegin st) in
    match faults E (clock st) with
    | Some e => (Raise e, st1)
    | None =>
        match txn st with
        | Some _ => (Raise nested_begin, st1)
        | None => (Ok tt, set_txn (Some (db st)) st1)
        end
    end.

(** [cur.execute("SELECT id FROM products WHERE sku=?", (sku,))] and
    [cur.fetchone()] *)
Definition execute_select (k : str) : M (option Z) :=
  execute (SSelect k) (fun t => inr (select_id k t, t)).

(** The parameters of a tuple are bound before the store runs the
    statement: a stock that does not fit 64 bits raises [OverflowError]
    in [sqlite3], and the statement [s] is issued but not executed. *)
Definition bound {A} (p : product) (s : option stmt) (m : M A) : M A :=
  fun st =>
    if fits_int64 (p_stock p) then m st
    else (Raise int_too_large, match s with Some s => issue s st | None => st end).

Definition execute_update (p : product) : M unit :=
  bound p (Some (SUpdate p))
    (execute (SUpdate p) (fun t => inr (tt, update_where_sku p t))).

Definition execute_insert (p : product) : M unit :=
  bound p (Some (SInsert p))
    (execute (SInsert p)
       (fun t => match insert p t with inl e => inl e | inr t' => inr (tt, t') end)).

(** One parameter tuple of [executemany]. *)
Definition upsert_step (p : product) : M unit :=
  bound p None
    (fun st =>
       let st1 := tick st in
       match faults E (clock st) with
       | Some e => (Raise e, st1)
       | None => (Ok tt, set_txn (Some (upsert p (cur_table st))) st1)
       end).

Fixpoint upsert_each (b : list product) : M unit :=
  match b with
  | [] => ret tt
  | p :: b' => upsert_step p ;;; upsert_each b'
  end.

(** [cur.executemany(upsert_sql, batch)]: a library without the
    [ON CONFLICT] form rejects the statement before any tuple is bound. *)
Definition executemany_upsert (b : list product) : M unit :=
  fun st =>
    let st1 := issue (SUpsertMany b) st in
    if upsert_supported E then upsert_each b st1
    else (Raise upsert_rejected, st1).

(** The body of [for tpl in batch] in [flush_batch]. *)
Definition per_record (p : product) : M unit :=
  found <- execute_select (p_sku p) ;;
  match found with
  | Some _ => execute_update p
  | None => execute_insert p
  end.

Fixpoint per_record_each (b : list product) : M unit :=
  match b with
  | [] => ret tt
  | p :: b' => per_record p ;;; per_record_each b'
  end.

(** [flush_batch]; [depth] is the number of nested calls of it the
    interpreter still allows before [RecursionError]. *)
Fixpoint flush_batch (depth : nat) : M unit :=
  match depth with
  | O => fun st => (Raise (RecursionError (recursion_text E)), st)
  | S d =>
      fun st =>
        match batch st with
        | [] => (Ok tt, st)
        | _ :: _ =>
            match (if have_upsert st then executemany_upsert (batch st)
                   else per_record_each (batch st)) st with
            | (Ok _, st1) => (Ok tt, set_batch [] st1)
            | (Raise (OperationalError _), st1) =>
                match flush_batch d (set_have_upsert false st1) with
                | (Ok _, st2) => (Ok tt, set_batch [] st2)
                | (Raise e, st2) => (Raise e, st2)
                end
            | (Raise e, st1) => (Raise e, st1)
            end
        end
  end.

(** [vals]: one sanitised cell per header, [""] past the end of the row. *)
Definition row_vals (n_headers : nat) (r : list str) : list str :=
  (fun i => match r !! i with Some c => _sanitize_cell c | None => [] end)
    <$> seq 0 n_headers.

(** [get_by_target] *)
Definition get_by_target (target_map : gmap string nat) (vals : list str)
    (t : string) : str :=
  match target_map !! t with
  | Some idx => if (idx <? length vals)%nat then default [] (vals !! idx) else []
  | None => []
  end.

(** The tuple a row gives, [None] when [sku] or [name] is empty. *)
Definition row_product (n_headers : nat) (target_map : gmap string nat)
    (r : list str) : option product :=
  let vals := row_vals n_headers r in
  let get := get_by_target target_map vals in
  let sku := get "sku"%string in
  let name := get "name"%string in
  if bool_decide (sku = []) || bool_decide (name = []) then None
  else Some (mkProduct sku name
               (_to_float py_float (get "price"%string))
               (_to_int py_float (get "stock"%string))
               (get "category"%string) (get "status"%string)
               (get "image_path"%string) (get "description"%string)).

Definition line_tag (n : nat) : str := py "[Line " ++ PyStr.of_nat n ++ py "] ".

Definition missing_msg (n : nat) : str :=
  line_tag n ++ py "Missing SKU or Name; row skipped.".

(** One turn of [for row in reader], with its [try] and [except]. *)
Definition process_row (depth n_headers : nat) (target_map : gmap string nat)
    (st : state) (r : list str) : state :=
  let st := set_line_no (S (line_no st)) st in
  match row_product n_headers target_map r with
  | None => skip_with (missing_msg (line_no st)) st
  | Some p =>
      let st := set_batch (batch st ++ [p]) st in
      if (BATCH_SIZE <=? length (batch st))%nat then
        match flush_batch depth st with
        | (Ok _, st') => st'
        | (Raise e, st') => skip_with (line_tag (line_no st') ++ exn_str e) st'
        end
      else st
  end.

(** The whole [for row in reader] loop. *)
Definition process_rows (depth n_headers : nat) (target_map : gmap string nat)
    (data : list (list str)) (st : state) : state :=
  fold_left (process_row depth n_headers target_map) data st.

(** [conn.commit()] *)
Definition commit : M unit :=
  fun st =>
    let st1 := tick (issue SCommit st) in
    match faults E (clock st) with
    | Some e => (Raise e, st1)
    | None => (Ok tt, set_txn None (set_db (cur_table st) st1))
    end.

(** [conn.rollback()] inside its own [try]: a failure of it is dropped. *)
Definition rollback (st : state) : state :=
  set_txn None (tick (issue SRollback st)).

(** [conn.close()]: what was not committed is gone. *)
Definition close (st : state) : state := set_txn None st.

(** The loop over the data rows, the flush of the remainder and the
    commit. *)
Definition stream_and_commit (depth n_headers : nat) (target_map : gmap string nat)
    (data : list (list str)) : M unit :=
  (fun st => flush_batch depth (process_rows depth n_headers target_map data st)) ;;;
  commit.

(** The body of the outer [try], from the header row to the commit.
    [file_rows] is what [csv.reader] yields for the file. *)
Definition import_body (depth : nat) (file_rows : list (list str)) : M unit :=
  match file_rows with
  | [] | [] :: _ => fun st => (Raise no_header, st)
  | raw_headers :: data =>
      let headers_norm := _dedupe_headers (_normalize_header py_lower <$> raw_headers) in
      let target_map := _build_header_map headers_norm in
      execute_begin ;;;
      stream_and_commit depth (length headers_norm) target_map data
  end.

(** A connection on the database file after its set-up (the PRAGMAs of
    [_get_db_connection], the index and the commit of
    [_ensure_db_indexes], which come before the log), and the locals as
    [worker] initialises them. *)
Definition connect (db0 : table) : state :=
  mkState db0 None 0 [] true [] 0 [] 1.

(** [worker], from the inner [try] on: the file has been opened. *)
Definition worker (depth : nat) (file_rows : list (list str)) (db0 : table)
    : outcome * state :=
  match import_body depth file_rows (connect db0) with
  | (Ok _, st) => (Done (skipped st) (error_lines st), close st)
  | (Raise e, st) => (Failed (exn_str e), close (rollback st))
  end.
End Worker.

(** ** Reference instances of what the run takes from Python and SQLite *)

Definition digit_val (c : N) : option N :=
  if (48 <=? c)%N && (c <=? 57)%N then Some (c - 48)%N else None.

Fixpoint digits_val (acc : N) (s : str) : option N :=
  match s with
  | [] => Some acc
  | c :: s' =>
      match digit_val c with
      | Some d => digits_val (10 * acc + d)%N s'
      | None => None
      end
  end.

Fixpoint split_dot (s : str) : str * option str :=
  match s with
  | [] => ([], None)
  | c :: s' =>
      if (c =? 46)%N then ([], Some s')
      else let '(a, b) := split_dot s' in (c :: a, b)
  end.

(** [float] on unsigned decimal literals of at most 15 digits, where the
    quotient of the two exactly represented integers is the correctly
    rounded value; every other argument counts as unparsable here. *)
Definition short_decimal (s : str) : option float :=
  let '(ip, fo) := split_dot s in
  let fp := default [] fo in
  if bool_decide (ip ++ fp = []) || (15 <? length (ip ++ fp))%nat then None
  else
    match digits_val 0 (ip ++ fp) with
    | Some m =>
        Some (PrimFloat.of_uint63 (Uint63.of_Z (Z.of_N m))
              / PrimFloat.of_uint63 (Uint63.of_Z (10 ^ Z.of_nat (length fp))))%float
    | None => None
    end.

(** Well-formed UTF-8 (no overlong forms, no surrogates, at most U+10FFFF). *)
Fixpoint utf8_ok (fuel : nat) (s : list N) : bool :=
  let cont c := (128 <=? c)%N && (c <=? 191)%N in
  match fuel with
  | O => false
  | S fuel' =>
      match s with
      | [] => true
      | a :: s1 =>
          if (a <? 128)%N then utf8_ok fuel' s1
          else match s1 with
          | [] => false
          | b :: s2 =>
              if (194 <=? a)%N && (a <=? 223)%N then cont b && utf8_ok fuel' s2
              else match s2 with
              | [] => false
              | c :: s3 =>
                  if (224 <=? a)%N && (a <=? 239)%N then
                    cont b && cont c
                    && negb ((a =? 224)%N && (b <? 160)%N)
                    && negb ((a =? 237)%N && (159 <? b)%N)
                    && utf8_ok fuel' s3
                  else match s3 with
                  | [] => false
                  | d :: s4 =>
                      (240 <=? a)%N && (a <=? 244)%N
                      && cont b && cont c && cont d
                      && negb ((a =? 240)%N && (b <? 144)%N)
                      && negb ((a =? 244)%N && (143 <? b)%N)
                      && utf8_ok fuel' s4
                  end
              end
          end
      end
  end.

(** UTF-16 code units, low byte first or high byte first: an even number
    of bytes with every surrogate paired. *)
Fixpoint utf16_ok (le : bool) (fuel : nat) (s : list N) : bool :=
  let unit a b := if le then (a + 256 * b)%N else (256 * a + b)%N in
  match fuel with
  | O => false
  | S fuel' =>
      match s with
      | [] => true
      | [_] => false
      | a :: b :: s1 =>
          let u := unit a b in
          if (55296 <=? u)%N && (u <=? 56319)%N then
            match s1 with
            | c :: d :: s2 =>
                let v := unit c d in
                (56320 <=? v)%N && (v <=? 57343)%N && utf16_ok le fuel' s2
            | _ => false
            end
          else negb ((56320 <=? u)%N && (u <=? 57343)%N) && utf16_ok le fuel' s1
      end
  end.

(** The seven codecs on a byte string. *)
Definition codec_decodes (enc : encoding) (sample : list byte) : bool :=
  let s := (fun b => Byte.to_N b) <$> sample in
  let n := S (length s) in
  match enc with
  | latin_1 => true
  | cp1252 => forallb (fun c => negb (bool_decide (c ∈ [129; 141; 143; 144; 157]%N))) s
  | utf_8 | utf_8_sig => utf8_ok n s
  | utf_16le => utf16_ok true n s
  | utf_16be => utf16_ok false n s
  | utf_16 =>
      match s with
      | 254%N :: 255%N :: s' => utf16_ok false n s'
      | 255%N :: 254%N :: s' => utf16_ok true n s'
      | _ => utf16_ok true n s
      end
  end.

(** The text CPython 3.11 gives the [RecursionError] of a call. *)
Definition recursion_message : str :=
  py "maximum recursion depth exceeded while calling a Python object".

(** A store on which no call fails. *)
Definition sound_store (upsert_ok : bool) : store_env :=
  mkEnv upsert_ok (fun _ => None) recursion_message.

(** A store on which exactly the call number [k] fails, with [e]. *)
Definition failing_once (k : nat) (e : exn) : store_env :=
  mkEnv true (fun n => if (n =? k)%nat then Some e else None) recursion_message.

(** A store on which [BEGIN] succeeds and every later call fails with [e]. *)
Definition failing_after_begin (e : exn) : store_env :=
  mkEnv true (fun n => match n with O => None | S _ => Some e end) recursion_message.

(** The table of a new database file. *)
Definition no_rows : table := mkTable [] 0.

(** A file of [n] data rows [item<i>,Item] under the header [sku,name]. *)
Definition bulk_file (n : nat) : list (list str) :=
  [py "sku"; py "name"]
  :: ((fun i => [py "item" ++ PyStr.of_nat i; py "Item"]) <$> seq 1 n).

(** ** The claims in the words of the specification *)

(** How often [h] occurs in [l]. *)
Definition occurrences (h : str) (l : list str) : nat :=
  length (filter (fun x => x = h) l).

(** A header with the number of its earlier occurrences appended, when
    there are any. *)
Definition suffixed (h : str) (k : nat) : str :=
  match k with
  | O => h
  | S _ => h ++ PyStr.of_nat k
  end.

Definition dedupe_spec (headers : list str) : list str :=
  imap (fun i h => suffixed h (occurrences h (take i headers))) headers.

(** [i] is the leftmost column of [hdrs] whose header is in [keys]. *)
Definition leftmost (keys : gset (list N)) (hdrs : list str) (i : nat) : Prop :=
  (exists h, hdrs !! i = Some h /\ h ∈ keys)
  /\ forall j h, (j < i)%nat -> hdrs !! j = Some h -> h ∉ keys.

(** The price rule of the specification: blank and the five words,
    compared without regard to case, give zero; otherwise the three
    currency signs and the commas are dropped and the rest is parsed. *)
Definition same_ignoring_case (a b : str) : bool :=
  bool_decide (PyStr.lower a = PyStr.lower b).

Definition price_coercion (py_float : str -> option float) (x : str) : float :=
  let s := PyStr.strip x in
  if bool_decide (s = [])
     || existsb (same_ignoring_case s) (py <$> ["n/a"; "na"; "null"; "none"; "-"]%string)
  then 0%float
  else
    default 0%float
      (py_float (filter (fun c => c ∉ [dollar; euro; pound; comma]) s)).

(** The file's bytes open with the signature [sig]. *)
Definition has_signature (sig file : list byte) : Prop :=
  exists rest, file = sig ++ rest.

(** The tuples of the accepted rows of a file, in file order, as the loop
    appends them to [batch]. *)
Definition accepted (py_float : str -> option float) (n_headers : nat)
    (target_map : gmap string nat) (data : list (list str)) : list product :=
  omap (row_product py_float n_headers target_map) data.

(** The header columns [worker] computes from a header row. *)
Definition headers_of (py_lower : str -> str) (raw_headers : list str) : list str :=
  _dedupe_headers (_normalize_header py_lower <$> raw_headers).

(** The cleaned cell of the row [r] in the column mapped to the field [t];
    empty when no column is mapped to [t] or the row ends before it. *)
Definition cell_under (target_map : gmap string nat) (r : list str) (t : string) : str :=
  match target_map !! t with
  | Some i => _sanitize_cell (default [] (r !! i))
  | None => []
  end.

(** The acceptance rule: the resolved sku and name cells are both
    non-empty. *)
Definition acceptable (target_map : gmap string nat) (r : list str) : bool :=
  negb (bool_decide (cell_under target_map r "sku" = []))
  && negb (bool_decide (cell_under target_map r "name" = [])).

(** The record a row stands for: its resolved cells, price and stock
    coerced. *)
Definition tuple_of (py_float : str -> option float) (target_map : gmap string nat)
    (r : list str) : product :=
  mkProduct (cell_under target_map r "sku") (cell_under target_map r "name")
    (_to_float py_float (cell_under target_map r "price"))
    (_to_int py_float (cell_under target_map r "stock"))
    (cell_under target_map r "category") (cell_under target_map r "status")
    (cell_under target_map r "image_path") (cell_under target_map r "description").

Definition tuples_of (py_float : str -> option float) (target_map : gmap string nat)
    (data : list (list str)) : list product :=
  tuple_of py_float target_map <$> filter (fun r => acceptable target_map r = true) data.

(** Every acceptable row of the file has a stock that SQLite can hold. *)
Definition stocks_fit (py_float : str -> option float) (target_map : gmap string nat)
    (data : list (list str)) : Prop :=
  forall r, r ∈ data -> acceptable target_map r = true ->
            fits_int64 (_to_int py_float (cell_under target_map r "stock")) = true.

(** [r] is the last acceptable row of [data] with its sku. *)
Definition last_of_its_sku (target_map : gmap string nat) (data : list (list str))
    (r : list str) : Prop :=
  acceptable target_map r = true
  /\ exists before after,
       data = before ++ r :: after
       /\ forall r', r' ∈ after -> acceptable target_map r' = true ->
                     cell_under target_map r' "sku" <> cell_under target_map r "sku".

(** The diagnostic of a row without sku or name, at line [n] of the file. *)
Definition missing_text (n : nat) : str :=
  py "[Line " ++ py (pretty n) ++ py "] Missing SKU or Name; row skipped.".

(** The diagnostics of the rows of [data] that are not acceptable; [line]
    is the line of the last row before them. *)
Fixpoint missing_report (target_map : gmap string nat) (line : nat)
    (data : list (list str)) : list str :=
  match data with
  | [] => []
  | r :: data' =>
      if acceptable target_map r then missing_report target_map (S line) data'
      else missing_text (S line) :: missing_report target_map (S line) data'
  end.

(** The stored records without their ids. *)
Definition records (t : table) : list product := r_product <$> rows t.

(** One record put into the stored records: it replaces the record with
    its sku, and is added at the end when there is none. *)
Definition put (p : product) (d : list product) : list product :=
  if bool_decide (p_sku p ∈ p_sku <$> d)
  then (fun q => if bool_decide (p_sku q = p_sku p) then p else q) <$> d
  else d ++ [p].

Definition put_all (b : list product) (d : list product) : list product :=
  fold_left (fun d p => put p d) b d.

(** The upserts of a list of tuples, in order. *)
Definition apply_batch (b : list product) (t : table) : table :=
  fold_left (fun t p => upsert p t) b t.

(** The last tuple of [b] with the sku [k]. *)
Definition last_with_sku (k : str) (b : list product) : option product :=
  last (filter (fun p => p_sku p = k) b).

(** The record [q] after the tuples of [b] have been put, when every sku
    of [b] is stored already. *)
Definition overwrite (b : list product) (q : product) : product :=
  default q (last_with_sku (p_sku q) b).

(** The calls of the per-record path for the tuples of [b], oldest first:
    for each tuple the [SELECT] of its sku, then the [UPDATE] when the sku
    is stored and the [INSERT] when it is not; [present] are the skus
    stored before. *)
Fixpoint fallback_calls (b : list product) (present : list str) : list stmt :=
  match b with
  | [] => []
  | p :: b' =>
      if bool_decide (p_sku p ∈ present)
      then SSelect (p_sku p) :: SUpdate p :: fallback_calls b' present
      else SSelect (p_sku p) :: SInsert p :: fallback_calls b' (present ++ [p_sku p])
  end.

Definition is_upsert_many (s : stmt) : bool :=
  match s with SUpsertMany _ => true | _ => false end.

(** [seen] is the dict the loop has built after the headers [pre]. *)
Definition seen_after (seen : gmap (list N) nat) (pre : list str) : Prop :=
  forall h, seen !! h = match occurrences h pre with O => None | S k => Some k end.

(** A state with the three counters of [worker] replaced. *)
Definition with_locals (k : nat) (msgs : list str) (n : nat) (st : state) : state :=
  mkState (db st) (txn st) (clock st) (log st) (have_upsert st) (batch st) k msgs n.

(** A computation whose course does not depend on the counters and which
    leaves them alone. *)
Definition frames {A} (m : M A) : Prop :=
  forall k msgs n st,
    m (with_locals k msgs n st)
    = let '(r, st') := m st in (r, with_locals k msgs n st').

(** A computation that only talks to the connection: the committed table
    and the locals stay, and every call it issues satisfies [P]. *)
Definition issues_only {A} (P : stmt -> Prop) (m : M A) : Prop :=
  forall st r st',
    m st = (r, st') ->
    db st' = db st /\ have_upsert st' = have_upsert st /\ batch st' = batch st
    /\ skipped st' = skipped st /\ error_lines st' = error_lines st
    /\ line_no st' = line_no st
    /\ exists l, log st' = l ++ log st /\ Forall P l.

Definition not_upsert_many (s : stmt) : Prop := is_upsert_many s = false.

(** Every tuple of [b] can be bound. *)
Definition bindable (b : list product) : Prop :=
  Forall (fun p => fits_int64 (p_stock p) = true) b.

(** The invariant of the loop on a store where no call fails: sku is
    unique in the table of the transaction, the pending batch can be
    bound, and the records of the table with the batch put into them are
    the records [d0] the transaction started from with the tuples [acc]
    accepted so far put into them. *)
Definition pending_ok (d0 : list product) (acc : list product) (st : state) : Prop :=
  NoDup (skus (cur_table st))
  /\ bindable (batch st)
  /\ put_all (batch st) (records (cur_table st)) = put_all acc d0.

(** Two states with the same connection, flag and batch; the counters may
    differ. *)
Definition same_store (st1 st2 : state) : Prop :=
  st1 = with_locals (skipped st1) (error_lines st1) (line_no st1) st2.

(** ** More of the import path and of the view, in the source's words *)

(** The candidate delimiters of [_sniff_delimiter]: comma, semicolon, tab
    and pipe. *)
Definition delimiters : list str := [py ","; py ";"; [9%N]; py "|"].

Section Sniffer.
(** [sniff sample] is the [delimiter] of
    [csv.Sniffer().sniff(sample, delimiters=[...])], [None] when the call
    raises.  The sniffer is Python's, not the dashboard's. *)
Variable sniff : str -> option str.

(** [_sniff_delimiter], on the text the stream holds from its position. *)
Definition _sniff_delimiter (text : str) : str :=
  let sample := PyStr.replace [nul] [] (take 16384 text) in
  match sniff sample with
  | Some d => if bool_decide (d ∈ delimiters) then d else py ","
  | None => py ","
  end.
End Sniffer.

(** An ASCII decimal digit. *)
Definition is_digit (c : N) : bool := (48 <=? c)%N && (c <=? 57)%N.

(** The characters [_normalize_header] deletes: blank, no-break space,
    hyphen, underscore. *)
Definition header_noise : list N := [32; 160; 45; 95]%N.

(** The pairs (synonym, field) of the [synonyms] dict. *)
Definition synonym_pairs : list (list N * string) :=
  flat_map (fun '(t, keys) => (fun k => (k, t)) <$> elements keys) synonyms.

(** The counters of the loop as they should stand: as many diagnostics as
    skipped rows, at most one per row read, each opening with the line of
    a row read. *)
Definition counted (st : state) : Prop :=
  skipped st = length (error_lines st)
  /\ (S (skipped st) <= line_no st)%nat
  /\ Forall (fun m => exists n, (2 <= n <= line_no st)%nat
                                /\ (py "[Line " ++ py (pretty n) ++ py "] ") `prefix_of` m)
       (error_lines st).

(** The loop on a store that takes the upsert form and never fails: the
    flag stands, the pending batch is short of [BATCH_SIZE] and can be
    bound, and the calls so far are [BEGIN] and one [executemany] per full
    batch, which with the pending batch make up the tuples [acc] accepted
    so far. *)
Definition chunked (acc : list product) (st : state) : Prop :=
  have_upsert st = true /\ (length (batch st) < BATCH_SIZE)%nat
  /\ bindable (batch st)
  /\ exists bs, rev (log st) = SBegin :: (SUpsertMany <$> bs)
       /\ concat bs ++ batch st = acc
       /\ Forall (fun b => length b = BATCH_SIZE) bs.

(** ** The view: search and pages *)

(** [q in s] on strings. *)
Fixpoint contains (q s : str) : bool :=
  PyStr.startswith q s
  || match s with
     | [] => false
     | _ :: s' => contains q s'
     end.

(** The fields of the dashboard the search and the pager use.  A row of
    [all_data] is the dict of a table row; every writer of the program
    stores strings, so [r.get("sku") or ""] is the column itself. *)
Record view := mkView {
  all_data : list row; filtered_data : list row;
  current_page : Z; page_size : Z; search_text : str }.

Section Search.
(** [py_lower] is [str.lower], Python's, with its full case mapping. *)
Variable py_lower : str -> str.

(** The condition of the list comprehension in [_apply_search]. *)
Definition matches (q : str) (r : row) : bool :=
  contains q (py_lower (r_sku r))
  || contains q (py_lower (p_name (r_product r)))
  || contains q (py_lower (p_category (r_product r))).

(** [_apply_search] *)
Definition _apply_search (v : view) : view :=
  let q := py_lower (PyStr.strip (search_text v)) in
  mkView (all_data v)
    (match q with
     | [] => all_data v
     | _ :: _ => filter (fun r => matches q r = true) (all_data v)
     end)
    0 (page_size v) (search_text v).
End Search.

(** [_page_slice] *)
Definition _page_slice (v : view) : Z * Z :=
  let total := Z.of_nat (length (filtered_data v)) in
  let start := (current_page v * page_size v)%Z in
  (start, Z.min (start + page_size v) total).

(** A bound of a slice, as Python clips it to a list of length [len]. *)
Definition slice_index (len i : Z) : Z :=
  if (i <? 0)%Z then Z.max 0 (i + len) else Z.min i len.

(** [l[start:stop]] *)
Definition py_slice {A} (start stop : Z) (l : list A) : list A :=
  let len := Z.of_nat (length l) in
  let a := slice_index len start in
  let b := slice_index len stop in
  take (Z.to_nat (b - a)) (drop (Z.to_nat a) l).

(** [self.filtered_data[start:end]] with the bounds of [_page_slice]: the
    rows the table, the cards and the export show. *)
Definition page_rows (v : view) : list row :=
  let '(start, stop) := _page_slice v in py_slice start stop (filtered_data v).

(** [_change_page_size], with the value of [page_size_var]. *)
Definition _change_page_size (n : Z) (v : view) : view :=
  mkView (all_data v) (filtered_data v) 0 n (search_text v).

(** [prev_page] *)
Definition prev_page (v : view) : view :=
  if (0 <? current_page v)%Z then
    mkView (all_data v) (filtered_data v) (current_page v - 1) (page_size v)
      (search_text v)
  else v.

(** [next_page] *)
Definition next_page (v : view) : view :=
  if ((current_page v + 1) * page_size v <? Z.of_nat (length (filtered_data v)))%Z then
    mkView (all_data v) (filtered_data v) (current_page v + 1) (page_size v)
      (search_text v)
  else v.

(** [total_pages] of [_refresh_view]; [//] is floor division and raises
    on a zero divisor. *)
Definition total_pages (v : view) : option Z :=
  if (page_size v =? 0)%Z then None
  else Some (Z.max 1 ((Z.of_nat (length (filtered_data v)) - 1) / page_size v + 1)).

(** The pager as the dashboard keeps it: a positive page size, and a page
    that is the first one or starts inside the filtered rows. *)
Definition page_ok (v : view) : Prop :=
  (0 < page_size v)%Z /\ (0 <= current_page v)%Z
  /\ (current_page v = 0
      \/ current_page v * page_size v < Z.of_nat (length (filtered_data v)))%Z.

(** The keys of [products]: no sku twice ([sku TEXT UNIQUE]) and no id
    twice ([id INTEGER PRIMARY KEY]). *)
Definition keys_ok (t : table) : Prop := NoDup (skus t) /\ NoDup (ids t).

(** A table that still holds, in their places, the ids and the skus of
    [t0]. *)
Definition extends (t0 t : table) : Prop :=
  ids t0 `prefix_of` ids t /\ skus t0 `prefix_of` skus t.

(** Both tables of a connection satisfy [P]. *)
Definition store_ok (P : table -> Prop) (st : state) : Prop :=
  P (db st) /\ P (cur_table st).

(** A computation that keeps [P] on the connection's tables. *)
Definition keeps (P : table -> Prop) {A} (m : M A) : Prop :=
  forall st r st', m st = (r, st') -> store_ok P st -> store_ok P st'.

(** What the statements of the import do to a table keeps [P]. *)
Definition closed_under_writes (P : table -> Prop) : Prop :=
  (forall p t, P t -> P (upsert p t))
  /\ (forall p t, P t -> P (update_where_sku p t))
  /\ (forall p t t', insert p t = inr t' -> P t -> P t').

(** * Properties *)

(** ** HeaderResolver: de-duplication *)

Lemma occurrences_snoc (h x : list N) (l : list str) :
  occurrences h (l ++ [x]) = if decide (x = h) then S (occurrences h l) else occurrences h l.
Proof.
  unfold occurrences. rewrite filter_app, length_app.
  rewrite filter_cons, filter_nil. destruct (decide (x = h)); simpl; lia.
Qed.

Lemma seen_after_step (seen : gmap (list N) nat) (pre : list str) (h : list N) :
  seen_after seen pre ->
  seen_after (<[h := occurrences h pre]> seen) (pre ++ [h]).
Proof.
  intros Hs h'. rewrite occurrences_snoc.
  destruct (decide (h = h')) as [->|Hne].
  - now rewrite lookup_insert_eq.
  - rewrite lookup_insert_ne by done. apply Hs.
Qed.

Lemma dedupe_loop_spec (hs pre : list str) (seen : gmap (list N) nat) :
  seen_after seen pre ->
  dedupe_loop seen hs
  = imap (fun i h => suffixed h (occurrences h (pre ++ take i hs))) hs.
Proof.
  revert pre seen. induction hs as [|h rest IH]; intros pre seen Hs; [done|].
  simpl. rewrite app_nil_r.
  pose proof (Hs h) as Hh. pose proof (seen_after_step _ _ h Hs) as Hstep.
  assert (Hrest : forall s', seen_after s' (pre ++ [h]) ->
            dedupe_loop s' rest
            = imap ((fun i h0 => suffixed h0 (occurrences h0 (pre ++ take i (h :: rest)))) ∘ S) rest).
  { intros s' Hs'. rewrite (IH _ _ Hs'). apply imap_ext. intros i x _. simpl.
    now rewrite <- app_assoc. }
  destruct (occurrences h pre) as [|k] eqn:Hocc; rewrite Hh.
  - simpl. f_equal. now apply Hrest.
  - simpl. f_equal. now apply Hrest.
Qed.

Lemma dedupe_headers_spec (headers : list str) :
  _dedupe_headers headers = dedupe_spec headers.
Proof.
  unfold _dedupe_headers, dedupe_spec.
  rewrite (dedupe_loop_spec headers [] ∅); [done|].
  intros h. now rewrite lookup_empty.
Qed.

Lemma dedupe_headers_length (headers : list str) :
  length (_dedupe_headers headers) = length headers.
Proof. rewrite dedupe_headers_spec. unfold dedupe_spec. apply length_imap. Qed.

(** The collision at the header row [Name,Name1,Name], for any
    [str.lower] that lowers these two ASCII words as Python does. *)
Lemma dedupe_headers_collision_any_lower (py_lower : str -> str) :
  py_lower (py "Name") = py "name" -> py_lower (py "Name1") = py "name1" ->
  headers_of py_lower (py <$> ["Name"; "Name1"; "Name"]%string)
  = py <$> ["name"; "name1"; "name1"]%string.
Proof.
  intros Hname Hname1.
  unfold headers_of. cbn [fmap list_fmap]. unfold _normalize_header.
  replace (PyStr.strip (py "Name")) with (py "Name") by (vm_compute; reflexivity).
  replace (PyStr.strip (py "Name1")) with (py "Name1") by (vm_compute; reflexivity).
  rewrite Hname, Hname1. vm_compute. reflexivity.
Qed.

(** C3, at the header row [Name,Name1,Name]: the normalised and
    de-duplicated headers are [name], [name1], [name1]; the suffix given to
    the second [name] collides with the header that was already [name1],
    so the result does contain a duplicate. *)
Theorem dedupe_headers_collision :
  headers_of PyStr.lower (py <$> ["Name"; "Name1"; "Name"]%string)
  = py <$> ["name"; "name1"; "name1"]%string
  /\ ~ NoDup (headers_of PyStr.lower (py <$> ["Name"; "Name1"; "Name"]%string)).
Proof.
  assert (H : headers_of PyStr.lower (py <$> ["Name"; "Name1"; "Name"]%string)
              = py <$> ["name"; "name1"; "name1"]%string).
  { apply dedupe_headers_collision_any_lower; vm_compute; reflexivity. }
  split; [exact H|]. rewrite H. intros Hnd.
  apply NoDup_cons in Hnd as [_ Hnd]. apply NoDup_cons in Hnd as [Hin _].
  apply Hin. left.
Qed.

(** C4 as stated fails at ["name"; "name"]: the second header does not
    become [name2]. *)
Lemma dedupe_name_name_not_name2 :
  _dedupe_headers (py <$> ["name"; "name"]%string) <> py <$> ["name"; "name2"]%string.
Proof. vm_compute. discriminate. Qed.

(** C4, amended: every header that has not occurred before is kept as it
    is, and a header that has occurred [k] times before gets the decimal
    [k] appended, so the second, third, ... occurrences carry the
    suffixes 1, 2, ...; ["name"; "name"] gives ["name"; "name1"]. *)
Theorem dedupe_headers_suffix :
  (forall headers : list str, _dedupe_headers headers = dedupe_spec headers)
  /\ (forall (headers : list str) (i : nat) (h : list N),
        headers !! i = Some h ->
        _dedupe_headers headers !! i
        = Some (match occurrences h (take i headers) with
                | O => h
                | S k => h ++ PyStr.of_nat (S k)
                end))
  /\ _dedupe_headers (py <$> ["name"; "name"]%string) = py <$> ["name"; "name1"]%string.
Proof.
  split; [exact dedupe_headers_spec|]. split.
  - intros headers i h Hi. rewrite dedupe_headers_spec. unfold dedupe_spec.
    rewrite list_lookup_imap, Hi. simpl. unfold suffixed.
    now destruct (occurrences h (take i headers)).
  - vm_compute. reflexivity.
Qed.

Lemma dedupe_headers_suffix_witness :
  [py "name"; py "sku"; py "name"] !! 2%nat = Some (py "name")
  /\ _dedupe_headers [py "name"; py "sku"; py "name"] !! 2%nat = Some (py "name1").
Proof.
  split; [reflexivity|].
  exact (proj1 (proj2 dedupe_headers_suffix)
           [py "name"; py "sku"; py "name"] 2%nat (py "name") eq_refl).
Defined.

(** ** HeaderResolver: synonym mapping *)

Lemma first_match_Some (keys : gset (list N)) (hdrs : list str) (i0 i : nat) :
  first_match keys i0 hdrs = Some i ->
  exists k, i = (i0 + k)%nat /\ leftmost keys hdrs k.
Proof.
  revert i0. induction hdrs as [|src rest IH]; intros i0 H; [discriminate|].
  simpl in H. case_bool_decide as Hin.
  - injection H as <-. exists 0%nat. split; [lia|]. split.
    + exists src. split; [reflexivity | exact Hin].
    + intros j h Hj. lia.
  - destruct (IH _ H) as (k & -> & (h & Hk & Hh) & Hleft).
    exists (S k). split; [lia|]. split.
    + exists h. split; [exact Hk | exact Hh].
    + intros [|j] h' Hj Hl.
      * injection Hl as <-. exact Hin.
      * apply (Hleft j h'); [lia | exact Hl].
Qed.

Lemma first_match_None (keys : gset (list N)) (hdrs : list str) (i0 : nat) :
  first_match keys i0 hdrs = None -> forall h, h ∈ hdrs -> h ∉ keys.
Proof.
  revert i0. induction hdrs as [|src rest IH]; intros i0 H h Hh.
  - inversion Hh.
  - simpl in H. case_bool_decide as Hin; [discriminate|].
    apply elem_of_cons in Hh as [->|Hh]; [exact Hin | exact (IH _ H h Hh)].
Qed.

Lemma header_map_loop_other (syn : list (string * gset (list N))) (hdrs : list str)
    (m : gmap string nat) (t : string) :
  t ∉ syn.*1 -> header_map_loop syn hdrs m !! t = m !! t.
Proof.
  revert m. induction syn as [|[t' keys] syn IH]; intros m Hnot; [done|].
  simpl in *. apply not_elem_of_cons in Hnot as [Hne Hnot].
  rewrite IH by exact Hnot.
  destruct (first_match keys 0 hdrs); [|done].
  now rewrite lookup_insert_ne.
Qed.

Lemma header_map_loop_target (syn : list (string * gset (list N))) (hdrs : list str)
    (m : gmap string nat) (t : string) (keys : gset (list N)) :
  NoDup syn.*1 -> (t, keys) ∈ syn ->
  header_map_loop syn hdrs m !! t
  = match first_match keys 0 hdrs with Some i => Some i | None => m !! t end.
Proof.
  revert m. induction syn as [|[t' keys'] syn IH]; intros m Hnd Hin.
  - inversion Hin.
  - simpl in *. apply NoDup_cons in Hnd as [Hfresh Hnd].
    apply elem_of_cons in Hin as [Heq|Hin].
    + injection Heq as <- <-. rewrite header_map_loop_other by exact Hfresh.
      destruct (first_match keys 0 hdrs); [|done]. now rewrite lookup_insert_eq.
    + rewrite (IH _ Hnd Hin).
      destruct (first_match keys 0 hdrs) as [i|]; [done|].
      destruct (first_match keys' 0 hdrs); [|done].
      rewrite lookup_insert_ne; [done|].
      intros ->. apply Hfresh. apply list_elem_of_fmap. now exists (t, keys).
Qed.

Lemma synonyms_targets_NoDup : NoDup synonyms.*1.
Proof. apply (bool_decide_unpack _). vm_compute. exact I. Qed.

(** Only the eight canonical fields are ever mapped. *)
Lemma build_header_map_canonical (hdrs : list str) (t : string) :
  t ∉ synonyms.*1 -> _build_header_map hdrs !! t = None.
Proof.
  intros H. unfold _build_header_map. now rewrite header_map_loop_other.
Qed.

(** C8: for each canonical field, the column [_build_header_map] gives it
    is the leftmost one whose normalised header is in the field's synonym
    set, and the field is absent when no header is in the set. *)
Theorem build_header_map_leftmost (hdrs : list str) (target : string)
    (keys : gset (list N)) :
  (target, keys) ∈ synonyms ->
  match _build_header_map hdrs !! target with
  | Some i => leftmost keys hdrs i
  | None => forall h, h ∈ hdrs -> h ∉ keys
  end.
Proof.
  intros Hin. unfold _build_header_map.
  rewrite (header_map_loop_target _ _ _ _ _ synonyms_targets_NoDup Hin).
  destruct (first_match keys 0 hdrs) as [i|] eqn:Hfm.
  - destruct (first_match_Some _ _ _ _ Hfm) as (k & -> & Hk). exact Hk.
  - rewrite lookup_empty. exact (first_match_None _ _ _ Hfm).
Qed.

Lemma build_header_map_leftmost_witness :
  let keys : gset (list N) :=
    list_to_set (py <$> ["stock"; "qty"; "quantity"; "onhand"; "inventory"]%string) in
  let hdrs := py <$> ["sku"; "title"; "qty"; "price"; "stock"]%string in
  ("stock"%string, keys) ∈ synonyms
  /\ match _build_header_map hdrs !! "stock"%string with
     | Some i => leftmost keys hdrs i
     | None => forall h, h ∈ hdrs -> h ∉ keys
     end.
Proof.
  intros keys hdrs.
  assert (Hin : ("stock"%string, keys) ∈ synonyms).
  { unfold synonyms. do 3 apply list_elem_of_further. apply list_elem_of_here. }
  split; [exact Hin|].
  exact (build_header_map_leftmost hdrs "stock"%string keys Hin).
Defined.

Example header_map_qty :
  _build_header_map (py <$> ["sku"; "title"; "qty"; "price"; "stock"]%string)
  = {[ "sku"%string := 0%nat; "name"%string := 1%nat; "price"%string := 3%nat;
       "stock"%string := 2%nat ]}.
Proof. vm_compute. reflexivity. Qed.

(** ** EncodingDetector *)

Lemma bytes_startswith_true (sig l : list byte) :
  bytes_startswith sig l = true <-> exists rest, l = sig ++ rest.
Proof.
  revert l. induction sig as [|a sig IH]; intros l; simpl.
  - split; [intros _; now exists l | done].
  - destruct l as [|b l].
    + split; [discriminate | intros [rest Hr]; discriminate].
    + destruct (Byte.eqb a b) eqn:Hab.
      * apply byte_dec_bl in Hab as ->. rewrite IH. split.
        -- intros [rest ->]. now exists rest.
        -- intros [rest Hr]. injection Hr as ->. now exists rest.
      * apply eqb_false in Hab. split; [discriminate|].
        intros [rest Hr]. injection Hr as ? _. congruence.
Qed.

Lemma head_has_signature (sig file : list byte) :
  (length sig <= 8)%nat ->
  bytes_startswith sig (take 8 file) = true <-> has_signature sig file.
Proof.
  intros Hlen. rewrite bytes_startswith_true. unfold has_signature. split.
  - intros [rest Hr]. exists (rest ++ drop 8 file).
    rewrite app_assoc, <- Hr. now rewrite take_drop.
  - intros [rest ->]. exists (take (8 - length sig) rest).
    rewrite take_app. f_equal. apply take_ge. exact Hlen.
Qed.

Lemma head_no_signature (sig file : list byte) :
  (length sig <= 8)%nat -> ~ has_signature sig file ->
  bytes_startswith sig (take 8 file) = false.
Proof.
  intros Hlen Hno. destruct (bytes_startswith sig (take 8 file)) eqn:Hs; [|done].
  exfalso. apply Hno. now apply head_has_signature.
Qed.

Section EncodingDetector.
Variable decodes : encoding -> list byte -> bool.
Hypothesis latin_1_total : forall sample, decodes latin_1 sample = true.

Lemma try_candidates_decodes (sample : list byte) :
  exists enc, try_candidates decodes candidates sample = (enc, false)
              /\ decodes enc sample = true.
Proof using latin_1_total.
  unfold candidates. simpl.
  destruct (decodes utf_8 sample) eqn:H8; [now exists utf_8|].
  destruct (decodes cp1252 sample) eqn:H1252; [now exists cp1252|].
  rewrite latin_1_total. now exists latin_1.
Qed.

(** C9: a file that opens with the UTF-8, UTF-16LE or UTF-16BE byte-order
    mark gets the matching encoding and [True]; any other file gets an
    encoding under which its first 64 KiB decode, and [False]. *)
Theorem detect_encoding_bom_or_decodable :
  (forall rest, _detect_encoding decodes ([xef; xbb; xbf] ++ rest) = (utf_8_sig, true))
  /\ (forall rest, _detect_encoding decodes ([xff; xfe] ++ rest) = (utf_16le, true))
  /\ (forall rest, _detect_encoding decodes ([xfe; xff] ++ rest) = (utf_16be, true))
  /\ (forall file,
        ~ has_signature [xef; xbb; xbf] file ->
        ~ has_signature [xff; xfe] file ->
        ~ has_signature [xfe; xff] file ->
        exists enc, _detect_encoding decodes file = (enc, false)
                    /\ decodes enc (take 65536 file) = true).
Proof using latin_1_total.
  split; [|split; [|split]].
  - intros rest. reflexivity.
  - intros rest. reflexivity.
  - intros rest. reflexivity.
  - intros file H1 H2 H3. unfold _detect_encoding.
    rewrite (head_no_signature [xef; xbb; xbf] file) by (simpl; lia || done).
    rewrite (head_no_signature [xff; xfe] file) by (simpl; lia || done).
    rewrite (head_no_signature [xfe; xff] file) by (simpl; lia || done).
    apply try_candidates_decodes.
Qed.
End EncodingDetector.

Lemma detect_encoding_bom_or_decodable_witness :
  (forall sample, codec_decodes latin_1 sample = true)
  /\ _detect_encoding codec_decodes ([xff; xfe] ++ [x41; x00]) = (utf_16le, true)
  /\ exists enc, _detect_encoding codec_decodes [xe9; x41] = (enc, false)
                 /\ codec_decodes enc (take 65536 [xe9; x41]) = true.
Proof.
  assert (H : forall sample, codec_decodes latin_1 sample = true) by reflexivity.
  split; [exact H|].
  destruct (detect_encoding_bom_or_decodable codec_decodes H) as (_ & Hle & _ & Hno).
  split; [apply Hle|].
  apply Hno; intros [rest Hr]; discriminate.
Defined.

Example detect_encoding_latin_file :
  _detect_encoding codec_decodes [xe9; x41] = (cp1252, false).
Proof. vm_compute. reflexivity. Qed.

(** ** RowSanitizer: price coercion *)

(** Replacing a one-character string by the empty string deletes the
    character wherever it stands. *)
Lemma replace_char_delete (c : N) (s : str) :
  PyStr.replace [c] [] s = filter (fun x => x <> c) s.
Proof.
  unfold PyStr.replace. induction s as [|x s IH]; [done|].
  simpl. rewrite filter_cons. destruct (N.eqb_spec c x) as [->|Hne].
  - rewrite decide_False by (intros H; now apply H). exact IH.
  - rewrite decide_True by congruence. now rewrite IH.
Qed.

Lemma delete_price_signs (s : str) :
  PyStr.replace [comma] []
    (PyStr.replace [pound] [] (PyStr.replace [euro] [] (PyStr.replace [dollar] [] s)))
  = filter (fun c => c ∉ [dollar; euro; pound; comma]) s.
Proof.
  rewrite !replace_char_delete, !list_filter_filter.
  apply list_filter_iff. intros x.
  rewrite !not_elem_of_cons. pose proof (not_elem_of_nil x). tauto.
Qed.

(** The lowered cell is one of the five words exactly when the cell is
    one of them up to case. *)
Lemma null_words_ignoring_case (s : str) :
  bool_decide (PyStr.lower s ∈ null_words)
  = existsb (same_ignoring_case s) (py <$> ["n/a"; "na"; "null"; "none"; "-"]%string).
Proof.
  apply eq_true_iff_eq. rewrite bool_decide_eq_true, existsb_exists.
  unfold null_words. rewrite elem_of_list_to_set.
  assert (Hfix : forall w, w ∈ py <$> ["n/a"; "na"; "null"; "none"; "-"]%string ->
                           PyStr.lower w = w).
  { intros w Hw. cbn [fmap list_fmap] in Hw.
    repeat (rewrite elem_of_cons in Hw; destruct Hw as [->|Hw]; [reflexivity|]).
    inversion Hw. }
  split.
  - intros Hin. exists (PyStr.lower s). split; [now apply list_elem_of_In|].
    unfold same_ignoring_case. apply bool_decide_eq_true.
    symmetry. now apply Hfix.
  - intros (w & Hw & Hsame). apply list_elem_of_In in Hw.
    unfold same_ignoring_case in Hsame. apply bool_decide_eq_true in Hsame.
    rewrite Hsame, (Hfix w Hw). exact Hw.
Qed.

Lemma to_float_refines (py_float : str -> option float) (x : str) :
  _to_float py_float x = price_coercion py_float x.
Proof.
  unfold _to_float, price_coercion.
  rewrite null_words_ignoring_case.
  destruct (_ || _); [done|].
  rewrite delete_price_signs. now destruct (py_float _).
Qed.

(** C7: [_to_float] is the price rule of the specification (zero for a
    blank cell and for the five words whatever their case, otherwise the
    parse of the cell without currency signs and commas, and zero when
    that parse fails); "N/A" gives 0.0, "$1,234.50" gives 1234.5 and "abc"
    gives 0.0, [float] accepting "1234.50" and refusing "abc". *)
Theorem to_float_price_coercion (py_float : str -> option float) :
  py_float (py "1234.50") = Some 1234.5%float ->
  py_float (py "abc") = None ->
  (forall x, _to_float py_float x = price_coercion py_float x)
  /\ _to_float py_float (py "N/A") = 0%float
  /\ _to_float py_float (py "$1,234.50") = 1234.5%float
  /\ _to_float py_float (py "abc") = 0%float.
Proof.
  intros Hnum Habc. split; [apply to_float_refines|].
  split; [reflexivity|]. split.
  - unfold _to_float.
    change (PyStr.strip (py "$1,234.50")) with (py "$1,234.50").
    change (bool_decide (py "$1,234.50" = []) ||
            bool_decide (PyStr.lower (py "$1,234.50") ∈ null_words)) with false.
    cbv iota.
    change (PyStr.replace [comma] [] _) with (py "1234.50").
    now rewrite Hnum.
  - unfold _to_float.
    change (PyStr.strip (py "abc")) with (py "abc").
    change (bool_decide (py "abc" = []) ||
            bool_decide (PyStr.lower (py "abc") ∈ null_words)) with false.
    cbv iota.
    change (PyStr.replace [comma] [] _) with (py "abc").
    now rewrite Habc.
Qed.

Lemma to_float_price_coercion_witness :
  short_decimal (py "1234.50") = Some 1234.5%float
  /\ short_decimal (py "abc") = None
  /\ _to_float short_decimal (py "$1,234.50") = 1234.5%float.
Proof.
  assert (H1 : short_decimal (py "1234.50") = Some 1234.5%float) by (vm_compute; reflexivity).
  assert (H2 : short_decimal (py "abc") = None) by (vm_compute; reflexivity).
  split; [exact H1|]. split; [exact H2|].
  exact (proj1 (proj2 (proj2 (to_float_price_coercion short_decimal H1 H2)))).
Defined.

Example to_float_euro :
  _to_float short_decimal (py " " ++ [euro] ++ py "1,000 ") = 1000%float.
Proof. vm_compute. reflexivity. Qed.

(** ** [strip] and [replace] *)

Lemma is_space_spec (c : N) :
  PyStr.is_space c = true
  <-> ((9 <= c <= 13) \/ (28 <= c <= 32) \/ c = 133 \/ c = 160 \/ c = 5760
       \/ (8192 <= c <= 8202) \/ c = 8232 \/ c = 8233 \/ c = 8239 \/ c = 8287
       \/ c = 12288)%N.
Proof.
  unfold PyStr.is_space.
  rewrite !orb_true_iff, !andb_true_iff, !N.leb_le, !N.eqb_eq. tauto.
Qed.

Lemma lstrip_head (s : str) (c : N) (r : str) :
  PyStr.lstrip s = c :: r -> PyStr.is_space c = false.
Proof.
  induction s as [|a s IH]; cbn [PyStr.lstrip]; [done|].
  destruct (PyStr.is_space a) eqn:Ha; [exact IH|].
  intros [= <- _]. exact Ha.
Qed.

Lemma lstrip_fixed (s : str) :
  (forall c r, s = c :: r -> PyStr.is_space c = false) -> PyStr.lstrip s = s.
Proof.
  destruct s as [|a s]; [done|]. intros H. cbn [PyStr.lstrip].
  now rewrite (H a s eq_refl).
Qed.

Lemma lstrip_elem (s : str) (x : N) : x ∈ PyStr.lstrip s -> x ∈ s.
Proof.
  induction s as [|a s IH]; cbn [PyStr.lstrip]; [done|].
  destruct (PyStr.is_space a); [|done]. intros H. right. now apply IH.
Qed.

Lemma rstrip_cons (c : N) (s : str) :
  PyStr.rstrip (c :: s)
  = match PyStr.rstrip s with
    | [] => if PyStr.is_space c then [] else [c]
    | r => c :: r
    end.
Proof. reflexivity. Qed.

Lemma rstrip_last (s r : str) (c : N) :
  PyStr.rstrip s = r ++ [c] -> PyStr.is_space c = false.
Proof.
  revert r. induction s as [|a s IH]; intros r.
  - cbn. destruct r; discriminate.
  - rewrite rstrip_cons. destruct (PyStr.rstrip s) as [|b t] eqn:Hs.
    + destruct (PyStr.is_space a) eqn:Ha; [destruct r; discriminate|].
      destruct r as [|x [|y r]]; try discriminate. now intros [= <-].
    + destruct r as [|x r]; [discriminate|].
      intros [= _ H]. exact (IH r H).
Qed.

Lemma rstrip_head (s : str) (c : N) (r : str) :
  PyStr.rstrip s = c :: r -> exists r', s = c :: r'.
Proof.
  destruct s as [|a s]; [discriminate|]. rewrite rstrip_cons.
  destruct (PyStr.rstrip s); [destruct (PyStr.is_space a); [discriminate|]|];
    intros [= <- _]; now exists s.
Qed.

Lemma rstrip_idem (s : str) : PyStr.rstrip (PyStr.rstrip s) = PyStr.rstrip s.
Proof.
  induction s as [|a s IH]; [done|]. rewrite rstrip_cons.
  destruct (PyStr.rstrip s) as [|b t] eqn:Hs.
  - destruct (PyStr.is_space a) eqn:Ha; [done|].
    rewrite rstrip_cons. cbn [PyStr.rstrip]. now rewrite Ha.
  - rewrite rstrip_cons, IH. reflexivity.
Qed.

Lemma rstrip_elem (s : str) (x : N) : x ∈ PyStr.rstrip s -> x ∈ s.
Proof.
  induction s as [|a s IH]; [done|]. rewrite rstrip_cons.
  destruct (PyStr.rstrip s) as [|b t] eqn:Hs.
  - destruct (PyStr.is_space a); [intros H; inversion H|].
    intros H. apply list_elem_of_singleton in H as ->. left.
  - intros H. apply elem_of_cons in H as [->|H]; [left | right; now apply IH].
Qed.

Lemma strip_head (s : str) (c : N) (r : str) :
  PyStr.strip s = c :: r -> PyStr.is_space c = false.
Proof.
  unfold PyStr.strip. intros H. destruct (rstrip_head _ _ _ H) as [r' Hr'].
  exact (lstrip_head _ _ _ Hr').
Qed.

Lemma strip_last (s r : str) (c : N) :
  PyStr.strip s = r ++ [c] -> PyStr.is_space c = false.
Proof. unfold PyStr.strip. apply rstrip_last. Qed.

Lemma strip_idem (s : str) : PyStr.strip (PyStr.strip s) = PyStr.strip s.
Proof.
  unfold PyStr.strip at 1.
  rewrite (lstrip_fixed (PyStr.strip s)); [apply rstrip_idem|].
  intros c r H. exact (strip_head s c r H).
Qed.

Lemma strip_elem (s : str) (x : N) : x ∈ PyStr.strip s -> x ∈ s.
Proof. unfold PyStr.strip. intros H. now apply lstrip_elem, rstrip_elem. Qed.

Lemma replace_char_map (a b : N) (s : str) :
  PyStr.replace [a] [b] s = (fun c => if decide (c = a) then b else c) <$> s.
Proof.
  unfold PyStr.replace. induction s as [|x s IH]; [done|].
  simpl. destruct (N.eqb_spec a x) as [->|Hne].
  - rewrite decide_True by done. now rewrite IH.
  - rewrite decide_False by congruence. now rewrite IH.
Qed.

Lemma replace_scan_absent (a : N) (old new s : str) :
  a ∉ s -> PyStr.replace_scan (a :: old) new 0 s = s.
Proof.
  induction s as [|x s IH]; [done|]. intros Hn.
  apply not_elem_of_cons in Hn as [Hne Hn].
  cbn [PyStr.replace_scan PyStr.startswith].
  destruct (N.eqb_spec a x) as [->|_]; [done|]. now rewrite IH.
Qed.

Lemma replace_absent (a : N) (old new s : str) :
  a ∉ s -> PyStr.replace (a :: old) new s = s.
Proof. apply replace_scan_absent. Qed.

Lemma replace_scan_elem (old new s : str) (k : nat) (x : N) :
  x ∈ PyStr.replace_scan old new k s -> x ∈ s \/ x ∈ new.
Proof.
  revert k. induction s as [|c s IH]; intros k; cbn [PyStr.replace_scan].
  - intros H. inversion H.
  - destruct k as [|k].
    + destruct (PyStr.startswith old (c :: s)).
      * rewrite elem_of_app. intros [H|H]; [now right|].
        destruct (IH _ H); [left; now right | now right].
      * rewrite elem_of_cons. intros [->|H]; [left; left|].
        destruct (IH _ H); [left; now right | now right].
    + intros H. destruct (IH _ H); [left; now right | now right].
Qed.

Lemma replace_elem (a : N) (old new s : str) (x : N) :
  x ∈ PyStr.replace (a :: old) new s -> x ∈ s \/ x ∈ new.
Proof. apply replace_scan_elem. Qed.

(** ** [_sanitize_cell] *)

Lemma sanitize_cell_no_nul (s : str) : nul ∉ _sanitize_cell s.
Proof.
  unfold _sanitize_cell. intros H. apply strip_elem in H.
  apply replace_elem in H as [H|H].
  - apply replace_elem in H as [H|H].
    + rewrite replace_char_delete in H. apply list_elem_of_filter in H as [H _]. now apply H.
    + apply list_elem_of_singleton in H. discriminate.
  - apply list_elem_of_singleton in H. discriminate.
Qed.

Lemma sanitize_cell_no_CR (s : str) : CR ∉ _sanitize_cell s.
Proof.
  unfold _sanitize_cell. intros H. apply strip_elem in H.
  rewrite replace_char_map in H. apply list_elem_of_fmap in H as (c & Hc & _).
  destruct (decide (c = CR)); [discriminate | congruence].
Qed.

(** X1: a sanitised cell holds no NUL and no carriage return, neither
    begins nor ends with white space, and sanitising it again changes
    nothing. *)
Theorem sanitize_cell_clean (s : str) :
  (nul ∉ _sanitize_cell s)
  /\ (CR ∉ _sanitize_cell s)
  /\ (forall c r, _sanitize_cell s = c :: r -> PyStr.is_space c = false)
  /\ (forall r c, _sanitize_cell s = r ++ [c] -> PyStr.is_space c = false)
  /\ _sanitize_cell (_sanitize_cell s) = _sanitize_cell s.
Proof.
  split; [apply sanitize_cell_no_nul|]. split; [apply sanitize_cell_no_CR|].
  split; [intros c r; apply strip_head|]. split; [intros r c; apply strip_last|].
  pose proof (sanitize_cell_no_nul s) as Hnul.
  pose proof (sanitize_cell_no_CR s) as Hcr.
  set (c := _sanitize_cell s) in *.
  unfold _sanitize_cell at 1.
  rewrite (replace_absent nul [] [] c Hnul).
  rewrite (replace_absent CR [LF] [LF] c Hcr).
  rewrite (replace_absent CR [] [LF] c Hcr).
  unfold c, _sanitize_cell. apply strip_idem.
Qed.

(** ** [_normalize_header] *)

Lemma delete_blank_after_nbsp (l : str) :
  filter (fun c => c <> 32%N) ((fun c => if decide (c = nbsp) then 32%N else c) <$> l)
  = filter (fun c => c <> 32%N /\ c <> nbsp) l.
Proof.
  induction l as [|x l IH]; [done|]. cbn [fmap list_fmap].
  rewrite !filter_cons. destruct (decide (x = nbsp)) as [->|Hx].
  - rewrite decide_False by (intros H; now apply H).
    rewrite decide_False by (intros [_ H]; now apply H). exact IH.
  - destruct (decide (x <> 32%N)) as [H32|H32].
    + rewrite decide_True by done. now rewrite <- IH.
    + rewrite decide_False by tauto. exact IH.
Qed.

Lemma normalize_header_filter (py_lower : str -> str) (h : str) :
  _normalize_header py_lower h
  = filter (fun c => c ∉ header_noise) (py_lower (PyStr.strip h)).
Proof.
  unfold _normalize_header.
  change (py "_") with [95%N]. change (py "-") with [45%N]. change (py " ") with [32%N].
  rewrite replace_char_map, !replace_char_delete, delete_blank_after_nbsp.
  rewrite !list_filter_filter. apply list_filter_iff. intros x.
  unfold header_noise, nbsp. rewrite !not_elem_of_cons.
  pose proof (not_elem_of_nil x). tauto.
Qed.

Lemma lower_char_not_upper (c : N) :
  ~ (65 <= PyStr.lower_char c <= 90)%N.
Proof.
  unfold PyStr.lower_char.
  destruct ((65 <=? c)%N && (c <=? 90)%N) eqn:H.
  - apply andb_true_iff in H as [H1 H2]. apply N.leb_le in H1, H2. lia.
  - apply andb_false_iff in H as [H|H]; apply N.leb_gt in H; lia.
Qed.

Lemma is_space_lower_char (c : N) :
  PyStr.is_space (PyStr.lower_char c) = PyStr.is_space c.
Proof.
  unfold PyStr.lower_char.
  destruct ((65 <=? c)%N && (c <=? 90)%N) eqn:H; [|done].
  apply andb_true_iff in H as [H1 H2]. apply N.leb_le in H1, H2.
  destruct (PyStr.is_space (c + 32)) eqn:E1.
  { apply is_space_spec in E1. lia. }
  destruct (PyStr.is_space c) eqn:E2; [|done].
  apply is_space_spec in E2. lia.
Qed.

Lemma lower_char_idem (c : N) :
  PyStr.lower_char (PyStr.lower_char c) = PyStr.lower_char c.
Proof.
  unfold PyStr.lower_char at 1.
  destruct ((65 <=? PyStr.lower_char c)%N && (PyStr.lower_char c <=? 90)%N) eqn:H; [|done].
  apply andb_true_iff in H as [H1 H2]. apply N.leb_le in H1, H2.
  pose proof (lower_char_not_upper c). lia.
Qed.

Lemma lstrip_lower (s : str) :
  PyStr.lstrip (PyStr.lower s) = PyStr.lower (PyStr.lstrip s).
Proof.
  unfold PyStr.lower. induction s as [|a s IH]; [done|].
  cbn [fmap list_fmap PyStr.lstrip]. rewrite is_space_lower_char.
  destruct (PyStr.is_space a); [exact IH | reflexivity].
Qed.

Lemma rstrip_lower (s : str) :
  PyStr.rstrip (PyStr.lower s) = PyStr.lower (PyStr.rstrip s).
Proof.
  unfold PyStr.lower. induction s as [|a s IH]; [done|].
  cbn [fmap list_fmap]. rewrite !rstrip_cons, IH, is_space_lower_char.
  destruct (PyStr.rstrip s); [now destruct (PyStr.is_space a) | reflexivity].
Qed.

Lemma strip_lower (s : str) :
  PyStr.strip (PyStr.lower s) = PyStr.lower (PyStr.strip s).
Proof. unfold PyStr.strip. now rewrite lstrip_lower, rstrip_lower. Qed.

Lemma lower_idem (s : str) : PyStr.lower (PyStr.lower s) = PyStr.lower s.
Proof.
  unfold PyStr.lower. rewrite <- list_fmap_compose.
  apply list_fmap_ext. intros i x _. apply lower_char_idem.
Qed.

(** X2: a normalised header is the stripped, lowered header without its
    blanks, no-break spaces, hyphens and underscores, so it holds none of
    these characters; and when [str.lower] is idempotent and commutes with
    [strip], a header and its lowered form normalise to the same token. *)
Theorem normalize_header_canonical (py_lower : str -> str) (h : str) :
  _normalize_header py_lower h
  = filter (fun c => c ∉ header_noise) (py_lower (PyStr.strip h))
  /\ (forall c, c ∈ _normalize_header py_lower h -> c ∉ header_noise)
  /\ ((forall s, py_lower (py_lower s) = py_lower s) ->
      (forall s, PyStr.strip (py_lower s) = py_lower (PyStr.strip s)) ->
      _normalize_header py_lower (py_lower h) = _normalize_header py_lower h).
Proof.
  split; [apply normalize_header_filter|]. split.
  - intros c. rewrite normalize_header_filter, list_elem_of_filter. tauto.
  - intros Hidem Hstrip. rewrite !normalize_header_filter. now rewrite Hstrip, Hidem.
Qed.

(** The ASCII lowering is such a function. *)
Lemma normalize_header_canonical_witness :
  _normalize_header PyStr.lower (py " Unit_Price ") = py "unitprice"
  /\ _normalize_header PyStr.lower (PyStr.lower (py " Unit_Price "))
     = _normalize_header PyStr.lower (py " Unit_Price ").
Proof.
  split; [vm_compute; reflexivity|].
  exact (proj2 (proj2 (normalize_header_canonical PyStr.lower (py " Unit_Price ")))
           lower_idem strip_lower).
Defined.

(** ** [_to_int] against [_to_float] *)

(** X3: for a cell without a dollar, euro or pound sign, the stock
    coercion gives the integer part of what the price coercion gives
    (zero when that is infinite or not a number). *)
Theorem to_int_truncates_to_float (py_float : str -> option float) (x : str) :
  dollar ∉ x -> euro ∉ x -> pound ∉ x ->
  _to_int py_float x = default 0%Z (int_of_float (_to_float py_float x)).
Proof.
  intros Hd He Hp. unfold _to_int, _to_float.
  destruct (_ || _); [reflexivity|].
  rewrite (replace_absent dollar [] [] (PyStr.strip x))
    by (intros Hin; apply strip_elem in Hin; done).
  rewrite (replace_absent euro [] [] (PyStr.strip x))
    by (intros Hin; apply strip_elem in Hin; done).
  rewrite (replace_absent pound [] [] (PyStr.strip x))
    by (intros Hin; apply strip_elem in Hin; done).
  destruct (py_float _) as [v|]; [|reflexivity].
  now destruct (int_of_float v).
Qed.

Lemma to_int_truncates_to_float_witness :
  (dollar ∉ py " 1,234.90 ") /\ (euro ∉ py " 1,234.90 ") /\ (pound ∉ py " 1,234.90 ")
  /\ _to_int short_decimal (py " 1,234.90 ") = 1234%Z
  /\ _to_int short_decimal (py " 1,234.90 ")
     = default 0%Z (int_of_float (_to_float short_decimal (py " 1,234.90 "))).
Proof.
  assert (Hd : dollar ∉ py " 1,234.90 ")
    by (apply (bool_decide_unpack _); vm_compute; exact I).
  assert (He : euro ∉ py " 1,234.90 ")
    by (apply (bool_decide_unpack _); vm_compute; exact I).
  assert (Hp : pound ∉ py " 1,234.90 ")
    by (apply (bool_decide_unpack _); vm_compute; exact I).
  split; [exact Hd|]. split; [exact He|]. split; [exact Hp|].
  split; [vm_compute; reflexivity|].
  exact (to_int_truncates_to_float short_decimal (py " 1,234.90 ") Hd He Hp).
Defined.

(** ** [_sniff_delimiter] *)

(** X4: whatever the sniffer answers or raises, the delimiter returned is
    a comma, a semicolon, a tab or a pipe, and the sniffer is only ever
    asked about a sample without NUL characters. *)
Theorem sniff_delimiter_candidates (sniff : str -> option str) (text : str) :
  (_sniff_delimiter sniff text ∈ delimiters)
  /\ _sniff_delimiter sniff text
     = _sniff_delimiter
         (fun sample => if bool_decide (nul ∈ sample) then None else sniff sample) text.
Proof.
  unfold _sniff_delimiter. split.
  - destruct (sniff _) as [d|]; [|left].
    case_bool_decide as Hd; [exact Hd | left].
  - rewrite bool_decide_eq_false_2; [reflexivity|].
    rewrite replace_char_delete. intros H.
    apply list_elem_of_filter in H as [H _]. now apply H.
Qed.

(** ** [_dedupe_headers] on headers that do not end in a digit *)

Lemma py_String (c : ascii) (s : string) : py (String c s) = N_of_ascii c :: py s.
Proof. reflexivity. Qed.

Lemma py_inj (s1 s2 : string) : py s1 = py s2 -> s1 = s2.
Proof.
  revert s2. induction s1 as [|a s1 IH]; intros [|b s2]; try discriminate; [done|].
  rewrite !py_String. intros [= Hab Hs]. f_equal; [|now apply IH].
  rewrite <- (ascii_N_embedding a), <- (ascii_N_embedding b). now rewrite Hab.
Qed.

Lemma pretty_N_char_digit (x : N) : is_digit (N_of_ascii (pretty_N_char x)) = true.
Proof. unfold pretty_N_char. repeat case_match; reflexivity. Qed.

Lemma pretty_N_go_digits (x : N) (s : string) :
  Forall (fun c => is_digit c = true) (py s) ->
  Forall (fun c => is_digit c = true) (py (pretty_N_go x s)).
Proof.
  revert s. induction (N.lt_wf_0 x) as [x _ IH]; intros s Hs.
  destruct (decide (x = 0%N)) as [->|Hx]; [now rewrite pretty_N_go_0|].
  rewrite pretty_N_go_step by lia. apply IH.
  - apply N.div_lt; lia.
  - rewrite py_String. constructor; [apply pretty_N_char_digit | exact Hs].
Qed.

Lemma pretty_N_go_length (x : N) (s : string) :
  (length (py s) <= length (py (pretty_N_go x s)))%nat.
Proof.
  revert s. induction (N.lt_wf_0 x) as [x _ IH]; intros s.
  destruct (decide (x = 0%N)) as [->|Hx]; [now rewrite pretty_N_go_0|].
  rewrite pretty_N_go_step by lia.
  etrans; [|apply IH; apply N.div_lt; lia].
  rewrite py_String. simpl. lia.
Qed.

Lemma of_nat_digits (n : nat) :
  Forall (fun c => is_digit c = true) (PyStr.of_nat n) /\ PyStr.of_nat n <> [].
Proof.
  unfold PyStr.of_nat, pretty, pretty_nat, pretty, pretty_N.
  destruct (decide (N.of_nat n = 0%N)) as [_|Hn].
  - split; [repeat constructor | discriminate].
  - split; [apply pretty_N_go_digits; constructor|].
    intros H. rewrite pretty_N_go_step in H by lia.
    pose proof (pretty_N_go_length (N.of_nat n `div` 10)
                  (String (pretty_N_char (N.of_nat n `mod` 10)) "")) as Hlen.
    rewrite H in Hlen. rewrite py_String in Hlen. simpl in Hlen. lia.
Qed.

Lemma of_nat_inj (n m : nat) : PyStr.of_nat n = PyStr.of_nat m -> n = m.
Proof. unfold PyStr.of_nat. intros H. apply py_inj in H. now apply (inj pretty). Qed.

(** Two strings that do not end in a digit, each followed by digits: equal
    wholes have equal parts. *)
Lemma digits_suffix_split (x y d1 d2 : str) :
  Forall (fun c => is_digit c = true) d1 ->
  Forall (fun c => is_digit c = true) d2 ->
  (forall c, last x = Some c -> is_digit c = false) ->
  (forall c, last y = Some c -> is_digit c = false) ->
  x ++ d1 = y ++ d2 -> x = y /\ d1 = d2.
Proof.
  intros H1 H2. revert y.
  assert (Hends : forall (z d : str) c, Forall (fun c => is_digit c = true) d ->
            last z = Some c -> is_digit c = false -> forall w, d = z ++ w -> False).
  { intros z d c Hd Hl Hc w ->. apply last_Some_elem_of in Hl.
    rewrite Forall_forall in Hd. rewrite Hd in Hc; [discriminate|].
    apply elem_of_app. now left. }
  induction x as [|a x IH]; intros y Hx Hy Heq.
  - destruct y as [|b y]; [done|]. exfalso. simpl in Heq.
    assert (Hsome : is_Some (last (b :: y))) by now apply last_is_Some.
    destruct Hsome as [c Hl].
    exact (Hends (b :: y) d1 c H1 Hl (Hy c Hl) d2 Heq).
  - destruct y as [|b y].
    + exfalso. simpl in Heq.
      assert (Hsome : is_Some (last (a :: x))) by now apply last_is_Some.
      destruct Hsome as [c Hl].
      exact (Hends (a :: x) d2 c H2 Hl (Hx c Hl) d1 (eq_sym Heq)).
    + simpl in Heq. injection Heq as -> Heq.
      destruct (IH y) as [-> ->]; [| |exact Heq|done].
      * intros c Hc. apply Hx. rewrite last_cons, Hc. reflexivity.
      * intros c Hc. apply Hy. rewrite last_cons, Hc. reflexivity.
Qed.

Lemma suffixed_digits (h : str) (k : nat) :
  exists d, suffixed h k = h ++ d
            /\ Forall (fun c => is_digit c = true) d
            /\ (d = [] <-> k = 0%nat)
            /\ (k <> 0%nat -> d = PyStr.of_nat k).
Proof.
  destruct k as [|k].
  - exists []. simpl. rewrite app_nil_r. repeat split; done.
  - exists (PyStr.of_nat (S k)). destruct (of_nat_digits (S k)) as [Hd Hne].
    repeat split; try done.
Qed.

Lemma occurrences_take_mono (h : list N) (l : list str) (i j : nat) :
  (i <= j)%nat -> (occurrences h (take i l) <= occurrences h (take j l))%nat.
Proof.
  intros Hij. replace j with (i + (j - i))%nat by lia.
  rewrite <- take_take_drop. unfold occurrences.
  rewrite filter_app, length_app. lia.
Qed.

Lemma occurrences_take_lt (h : list N) (l : list str) (i j : nat) :
  l !! i = Some h -> (i < j)%nat ->
  (occurrences h (take i l) < occurrences h (take j l))%nat.
Proof.
  intros Hi Hij.
  pose proof (occurrences_take_mono h l (S i) j ltac:(lia)) as Hm.
  rewrite (take_S_r l i h Hi), occurrences_snoc, decide_True in Hm by done. lia.
Qed.

(** X5: when no header ends in a digit, the de-duplicated headers are
    pairwise different (and as many as before). *)
Theorem dedupe_headers_unique (headers : list str) :
  (forall h c, h ∈ headers -> last h = Some c -> is_digit c = false) ->
  NoDup (_dedupe_headers headers)
  /\ length (_dedupe_headers headers) = length headers.
Proof.
  intros Hends. split; [|apply dedupe_headers_length].
  rewrite dedupe_headers_spec. apply NoDup_alt. intros i j x Hi Hj.
  unfold dedupe_spec in Hi, Hj. rewrite list_lookup_imap in Hi, Hj.
  destruct (headers !! i) as [hi|] eqn:Ei; [|discriminate].
  destruct (headers !! j) as [hj|] eqn:Ej; [|discriminate].
  simpl in Hi, Hj. injection Hi as Hi. injection Hj as Hj.
  destruct (suffixed_digits hi (occurrences hi (take i headers)))
    as (di & Hsi & Hdi & Hzi & Hni).
  destruct (suffixed_digits hj (occurrences hj (take j headers)))
    as (dj & Hsj & Hdj & Hzj & Hnj).
  rewrite Hsi in Hi. rewrite Hsj in Hj. rewrite <- Hj in Hi.
  destruct (digits_suffix_split hi hj di dj Hdi Hdj) as [Hh Hd]; [| |exact Hi|].
  { intros c. apply Hends. eapply list_elem_of_lookup_2, Ei. }
  { intros c. apply Hends. eapply list_elem_of_lookup_2, Ej. }
  subst hj.
  assert (Hocc : occurrences hi (take i headers) = occurrences hi (take j headers)).
  { destruct (occurrences hi (take i headers)) as [|a] eqn:Ha;
      destruct (occurrences hi (take j headers)) as [|b] eqn:Hb; try done.
    - exfalso. assert (dj = []) by (rewrite <- Hd; now apply Hzi).
      assert (S b = 0%nat) by now apply Hzj. done.
    - exfalso. assert (di = []) by (rewrite Hd; now apply Hzj).
      assert (S a = 0%nat) by now apply Hzi. done.
    - apply of_nat_inj. rewrite <- Hni, <- Hnj by done. exact Hd. }
  destruct (lt_eq_lt_dec i j) as [[Hlt|Heq]|Hgt]; [|exact Heq|].
  - pose proof (occurrences_take_lt hi headers i j Ei Hlt). lia.
  - pose proof (occurrences_take_lt hi headers j i Ej Hgt). lia.
Qed.

Lemma dedupe_headers_unique_witness :
  NoDup (_dedupe_headers (py <$> ["sku"; "name"; "name"; "qty"; "name"]%string)).
Proof.
  refine (proj1 (dedupe_headers_unique _ _)).
  intros h c Hh Hl. cbn [fmap list_fmap] in Hh.
  repeat (apply elem_of_cons in Hh as [->|Hh];
          [vm_compute in Hl; injection Hl as <-; reflexivity|]).
  inversion Hh.
Defined.

(** ** [_build_header_map]: one field per column *)

Lemma synonym_pairs_NoDup : NoDup synonym_pairs.*1.
Proof. apply (bool_decide_unpack _). vm_compute. exact I. Qed.

Lemma pairs_of_dict_in (syn : list (string * gset (list N))) (t : string)
    (keys : gset (list N)) (k : list N) :
  (t, keys) ∈ syn -> k ∈ keys ->
  (k, t) ∈ flat_map (fun '(t, keys) => (fun k => (k, t)) <$> elements keys) syn.
Proof.
  intros Ht Hk. induction syn as [|[t' keys'] syn IH]; [inversion Ht|].
  cbn [flat_map]. apply elem_of_app.
  apply elem_of_cons in Ht as [Heq|Ht].
  - injection Heq as <- <-. left. apply list_elem_of_fmap.
    exists k. split; [done|]. now apply elem_of_elements.
  - right. now apply IH.
Qed.

Lemma synonym_pair_in (t : string) (keys : gset (list N)) (k : list N) :
  (t, keys) ∈ synonyms -> k ∈ keys -> (k, t) ∈ synonym_pairs.
Proof. apply pairs_of_dict_in. Qed.

Lemma NoDup_fst_functional {A B} (l : list (A * B)) (x : A) (y1 y2 : B) :
  NoDup l.*1 -> (x, y1) ∈ l -> (x, y2) ∈ l -> y1 = y2.
Proof.
  induction l as [|[a b] l IH]; intros Hnd H1 H2; [inversion H1|].
  cbn [fmap list_fmap fst] in Hnd. apply NoDup_cons in Hnd as [Ha Hnd].
  apply elem_of_cons in H1 as [E1|H1]; apply elem_of_cons in H2 as [E2|H2].
  - congruence.
  - injection E1 as -> ->. exfalso. apply Ha.
    apply list_elem_of_fmap. now exists (a, y2).
  - injection E2 as -> ->. exfalso. apply Ha.
    apply list_elem_of_fmap. now exists (a, y1).
  - now apply IH.
Qed.

Lemma build_header_map_Some (hdrs : list str) (t : string) (i : nat) :
  _build_header_map hdrs !! t = Some i ->
  exists keys h, (t, keys) ∈ synonyms /\ hdrs !! i = Some h /\ h ∈ keys.
Proof.
  intros Hi. destruct (decide (t ∈ synonyms.*1)) as [Hin|Hnot].
  - apply list_elem_of_fmap in Hin as ([t' keys] & -> & Hin). simpl in *.
    unfold _build_header_map in Hi.
    rewrite (header_map_loop_target _ _ _ _ _ synonyms_targets_NoDup Hin) in Hi.
    destruct (first_match keys 0 hdrs) as [k|] eqn:Hfm.
    + injection Hi as ->.
      destruct (first_match_Some _ _ _ _ Hfm) as (k & -> & (h & Hh & Hk) & _).
      now exists keys, h.
    + now rewrite lookup_empty in Hi.
  - now rewrite build_header_map_canonical in Hi.
Qed.

(** X6: a column is given to at most one field, and every column index of
    the mapping lies inside the header row. *)
Theorem build_header_map_injective (hdrs : list str) (t1 t2 : string) (i : nat) :
  _build_header_map hdrs !! t1 = Some i ->
  _build_header_map hdrs !! t2 = Some i ->
  t1 = t2 /\ (i < length hdrs)%nat.
Proof.
  intros H1 H2.
  destruct (build_header_map_Some _ _ _ H1) as (k1 & h1 & Hs1 & Hh1 & Hk1).
  destruct (build_header_map_Some _ _ _ H2) as (k2 & h2 & Hs2 & Hh2 & Hk2).
  split; [|now apply lookup_lt_Some in Hh1].
  assert (h2 = h1) by congruence. subst h2.
  exact (NoDup_fst_functional _ _ _ _ synonym_pairs_NoDup
           (synonym_pair_in _ _ _ Hs1 Hk1) (synonym_pair_in _ _ _ Hs2 Hk2)).
Qed.

Lemma build_header_map_injective_witness :
  _build_header_map (py <$> ["code"; "title"]%string) !! "sku"%string = Some 0%nat
  /\ "sku"%string = "sku"%string /\ (0 < 2)%nat.
Proof.
  assert (H : _build_header_map (py <$> ["code"; "title"]%string) !! "sku"%string
              = Some 0%nat) by (vm_compute; reflexivity).
  split; [exact H|].
  exact (build_header_map_injective (py <$> ["code"; "title"]%string) _ _ _ H H).
Defined.

(** ** [_detect_encoding]: the candidates behind Latin-1 *)

(** X7: with a byte-order mark the answer is utf-8-sig, utf-16le or
    utf-16be; without one it is utf-8, cp1252 or latin-1: the three UTF-16
    candidates stand behind Latin-1, which decodes everything, and are
    never returned for a file without a mark. *)
Theorem detect_encoding_range (decodes : encoding -> list byte -> bool)
    (file : list byte) :
  (forall sample, decodes latin_1 sample = true) ->
  match _detect_encoding decodes file with
  | (enc, true) => enc ∈ [utf_8_sig; utf_16le; utf_16be]
  | (enc, false) => enc ∈ [utf_8; cp1252; latin_1]
  end.
Proof.
  intros Hlatin. unfold _detect_encoding.
  set (sample := take 65536 file). clearbody sample.
  destruct (bytes_startswith [xef; xbb; xbf] (take 8 file)); [set_solver|].
  destruct (bytes_startswith [xff; xfe] (take 8 file)); [set_solver|].
  destruct (bytes_startswith [xfe; xff] (take 8 file)); [set_solver|].
  unfold candidates. cbn [try_candidates].
  destruct (decodes utf_8 sample); [set_solver|].
  destruct (decodes cp1252 sample); [set_solver|].
  rewrite Hlatin. set_solver.
Qed.

Lemma detect_encoding_range_witness :
  (forall sample, codec_decodes latin_1 sample = true)
  /\ match _detect_encoding codec_decodes [x41; x00; x42; x00] with
     | (enc, true) => enc ∈ [utf_8_sig; utf_16le; utf_16be]
     | (enc, false) => enc ∈ [utf_8; cp1252; latin_1]
     end.
Proof.
  assert (H : forall sample, codec_decodes latin_1 sample = true) by reflexivity.
  split; [exact H|].
  exact (detect_encoding_range codec_decodes [x41; x00; x42; x00] H).
Defined.

(** ** The cells of a row, by header *)

Lemma row_vals_length (n : nat) (r : list str) : length (row_vals n r) = n.
Proof. unfold row_vals. now rewrite length_fmap, length_seq. Qed.

Lemma row_vals_lookup (n : nat) (r : list str) (i : nat) :
  (i < n)%nat ->
  row_vals n r !! i = Some (_sanitize_cell (default [] (r !! i))).
Proof.
  intros Hi. unfold row_vals. rewrite list_lookup_fmap.
  rewrite (lookup_seq_lt 0 n i Hi). cbn [fmap option_fmap option_map Nat.add].
  f_equal. destruct (r !! i); [reflexivity|]. symmetry.
  vm_compute. reflexivity.
Qed.

(** What [get_by_target] reads is the cleaned cell under the mapped
    column. *)
Lemma get_by_target_cell (hdrs : list str) (r : list str) (t : string) :
  get_by_target (_build_header_map hdrs) (row_vals (length hdrs) r) t
  = cell_under (_build_header_map hdrs) r t.
Proof.
  unfold get_by_target, cell_under.
  destruct (_build_header_map hdrs !! t) as [i|] eqn:Hi; [|reflexivity].
  destruct (build_header_map_Some _ _ _ Hi) as (keys & h & _ & Hh & _).
  apply lookup_lt_Some in Hh.
  rewrite row_vals_length.
  destruct (Nat.ltb_spec i (length hdrs)); [|lia].
  now rewrite (row_vals_lookup _ _ _ Hh).
Qed.

(** X8: the value of a field is the sanitised cell under the column the
    header row maps the field to, the empty string when the row is too
    short for that column or when no column is mapped; cells past the last
    header are never read. *)
Theorem field_is_sanitized_mapped_cell (hdrs : list str) (r : list str)
    (t : string) :
  length (row_vals (length hdrs) r) = length hdrs
  /\ get_by_target (_build_header_map hdrs) (row_vals (length hdrs) r) t
     = match _build_header_map hdrs !! t with
       | Some i => _sanitize_cell (default [] (r !! i))
       | None => []
       end
  /\ forall extra,
       (length hdrs <= length r)%nat ->
       row_vals (length hdrs) (r ++ extra) = row_vals (length hdrs) r.
Proof.
  split; [apply row_vals_length|]. split; [apply get_by_target_cell|].
  intros extra Hlen. apply list_eq. intros i.
  destruct (decide (i < length hdrs)%nat) as [Hi|Hi].
  - rewrite !(row_vals_lookup _ _ _ Hi).
    rewrite lookup_app_l by lia. reflexivity.
  - rewrite !lookup_ge_None_2; [done| |]; rewrite row_vals_length; lia.
Qed.

(** ** The tuple of a row, from its cells *)

Lemma filter_none {A} (P : A -> Prop) `{forall x, Decision (P x)} (l : list A) :
  (forall x, x ∈ l -> ~ P x) -> filter P l = [].
Proof.
  induction l as [|x l IH]; intros Hall; [done|].
  rewrite filter_cons, decide_False by (apply Hall; left).
  apply IH. intros y Hy. apply Hall. now right.
Qed.

Section Tuples.
Variable py_float : str -> option float.
Variable hdrs : list str.

Local Abbreviation tm := (_build_header_map hdrs).

(** The loop accepts exactly the acceptable rows, and the tuple it
    appends holds the resolved cells, price and stock coerced. *)
Lemma row_product_tuple (r : list str) :
  row_product py_float (length hdrs) tm r
  = if acceptable tm r then Some (tuple_of py_float tm r) else None.
Proof.
  unfold row_product, acceptable, tuple_of. rewrite !get_by_target_cell.
  destruct (bool_decide (cell_under tm r "sku" = []));
    destruct (bool_decide (cell_under tm r "name" = [])); reflexivity.
Qed.

Lemma accepted_tuples (data : list (list str)) :
  accepted py_float (length hdrs) tm data = tuples_of py_float tm data.
Proof.
  unfold accepted, tuples_of. induction data as [|r data IH]; [done|].
  cbn [omap list_omap]. rewrite row_product_tuple, filter_cons.
  destruct (decide (acceptable tm r = true)) as [Ha|Ha].
  - rewrite Ha. cbn [fmap list_fmap]. now rewrite <- IH.
  - apply not_true_is_false in Ha. rewrite Ha. exact IH.
Qed.

Lemma tuples_of_app (d1 d2 : list (list str)) :
  tuples_of py_float tm (d1 ++ d2)
  = tuples_of py_float tm d1 ++ tuples_of py_float tm d2.
Proof. unfold tuples_of. now rewrite filter_app, fmap_app. Qed.

Lemma tuples_of_cons (r : list str) (d : list (list str)) :
  tuples_of py_float tm (r :: d)
  = if acceptable tm r then tuple_of py_float tm r :: tuples_of py_float tm d
    else tuples_of py_float tm d.
Proof.
  unfold tuples_of. rewrite filter_cons.
  destruct (decide (acceptable tm r = true)) as [Ha|Ha].
  - now rewrite Ha.
  - apply not_true_is_false in Ha. now rewrite Ha.
Qed.

Lemma elem_of_tuples (p : product) (data : list (list str)) :
  p ∈ tuples_of py_float tm data
  <-> exists r, r ∈ data /\ acceptable tm r = true /\ p = tuple_of py_float tm r.
Proof.
  unfold tuples_of. rewrite list_elem_of_fmap. split.
  - intros (r & -> & Hr). apply list_elem_of_filter in Hr as [Ha Hin]. now exists r.
  - intros (r & Hin & Ha & ->). exists r. split; [done|]. now apply list_elem_of_filter.
Qed.

Lemma tuples_bindable (data : list (list str)) :
  stocks_fit py_float tm data -> bindable (tuples_of py_float tm data).
Proof.
  intros Hfit. apply Forall_forall. intros p Hp.
  apply elem_of_tuples in Hp as (r & Hin & Ha & ->). now apply Hfit.
Qed.

(** The last tuple with the sku of a row that is the last acceptable one
    with its sku is the tuple of that row. *)
Lemma last_with_sku_tuples (data : list (list str)) (r : list str) :
  last_of_its_sku tm data r ->
  last_with_sku (cell_under tm r "sku") (tuples_of py_float tm data)
  = Some (tuple_of py_float tm r).
Proof.
  intros (Ha & before & after & -> & Hlast).
  rewrite tuples_of_app, tuples_of_cons, Ha.
  unfold last_with_sku. rewrite filter_app, filter_cons.
  rewrite decide_True by reflexivity.
  assert (Hnil : filter (fun p => p_sku p = cell_under tm r "sku")
                   (tuples_of py_float tm after) = []).
  { apply filter_none. intros p Hp Hsku.
    apply elem_of_tuples in Hp as (r' & Hin & Ha' & ->).
    exact (Hlast r' Hin Ha' Hsku). }
  rewrite Hnil. now rewrite last_snoc.
Qed.
End Tuples.

(** ** The [products] table under upserts *)

Lemma has_sku_true (k : list N) (r : row) : has_sku k r = true <-> r_sku r = k.
Proof. unfold has_sku. apply bool_decide_eq_true. Qed.

Lemma has_sku_false (k : list N) (r : row) : has_sku k r = false <-> r_sku r <> k.
Proof. unfold has_sku. apply bool_decide_eq_false. Qed.

Lemma existsb_has_sku (k : list N) (t : table) :
  existsb (has_sku k) (rows t) = true <-> k ∈ skus t.
Proof.
  rewrite existsb_exists. unfold skus. rewrite list_elem_of_fmap. split.
  - intros (r & Hin & Hr). apply has_sku_true in Hr. exists r.
    split; [done | now apply list_elem_of_In].
  - intros (r & -> & Hin). exists r. split; [now apply list_elem_of_In|].
    now apply has_sku_true.
Qed.

Lemma find_has_sku_None (k : list N) (l : list row) :
  find (has_sku k) l = None <-> k ∉ r_sku <$> l.
Proof.
  induction l as [|r l IH]; cbn [find fmap list_fmap].
  - split; [intros _; apply not_elem_of_nil | done].
  - rewrite not_elem_of_cons. destruct (has_sku k r) eqn:Hr.
    + apply has_sku_true in Hr. split; [discriminate | intros [Hne _]; congruence].
    + apply has_sku_false in Hr. rewrite IH. split; [intros H; split; congruence | tauto].
Qed.

Lemma find_has_sku_Some (k : list N) (l : list row) (r : row) :
  find (has_sku k) l = Some r -> r ∈ l /\ r_sku r = k.
Proof.
  induction l as [|r' l IH]; cbn [find]; [discriminate|].
  destruct (has_sku k r') eqn:Hr.
  - intros [= <-]. split; [left | now apply has_sku_true].
  - intros H. destruct (IH H). split; [now right | done].
Qed.

Lemma find_has_sku_NoDup (l : list row) (r : row) :
  NoDup (r_sku <$> l) -> r ∈ l -> find (has_sku (r_sku r)) l = Some r.
Proof.
  induction l as [|r' l IH]; intros Hnd Hin; [inversion Hin|].
  cbn [find fmap list_fmap] in *. apply NoDup_cons in Hnd as [Hfresh Hnd].
  apply elem_of_cons in Hin as [->|Hin].
  - now rewrite (proj2 (has_sku_true _ _) eq_refl).
  - destruct (has_sku (r_sku r) r') eqn:Hr; [|now apply IH].
    apply has_sku_true in Hr. exfalso. apply Hfresh. rewrite Hr.
    apply list_elem_of_fmap. now exists r.
Qed.

Lemma select_id_is_Some (k : list N) (t : table) :
  is_Some (select_id k t) <-> k ∈ skus t.
Proof.
  unfold select_id, skus. rewrite fmap_is_Some.
  destruct (find (has_sku k) (rows t)) as [r|] eqn:Hf.
  - split; [intros _ | intros _; now exists r].
    destruct (decide (k ∈ r_sku <$> rows t)) as [|n]; [done|].
    apply find_has_sku_None in n. congruence.
  - apply find_has_sku_None in Hf. split; [intros [? ?]; discriminate | done].
Qed.

Lemma r_sku_set_columns (p : product) (r : row) : r_sku (set_columns p r) = r_sku r.
Proof. reflexivity. Qed.

Lemma set_columns_own (p : product) (r : row) :
  r_sku r = p_sku p -> r_product (set_columns p r) = p.
Proof. unfold set_columns, r_sku. simpl. intros ->. now destruct p. Qed.

Lemma skus_update_where_sku (p : product) (t : table) :
  skus (update_where_sku p t) = skus t.
Proof.
  unfold skus, update_where_sku. cbn [rows]. rewrite <- list_fmap_compose.
  apply list_fmap_ext. intros i r _. simpl. now destruct (has_sku (p_sku p) r).
Qed.

Lemma ids_update_where_sku (p : product) (t : table) :
  ids (update_where_sku p t) = ids t.
Proof.
  unfold ids, update_where_sku. cbn [rows]. rewrite <- list_fmap_compose.
  apply list_fmap_ext. intros i r _. simpl. now destruct (has_sku (p_sku p) r).
Qed.

Lemma update_conflicting_NoDup (p : product) (l : list row) :
  NoDup (r_sku <$> l) ->
  update_conflicting p l
  = (fun r => if has_sku (p_sku p) r then set_columns p r else r) <$> l.
Proof.
  induction l as [|r l IH]; intros Hnd; [done|].
  simpl in *. apply NoDup_cons in Hnd as [Hfresh Hnd].
  destruct (has_sku (p_sku p) r) eqn:Hr.
  - f_equal. apply has_sku_true in Hr. rewrite Hr in Hfresh.
    clear IH Hnd. induction l as [|r' l IH]; [done|].
    simpl in *. apply not_elem_of_cons in Hfresh as [Hne Hfresh].
    rewrite (proj2 (has_sku_false _ _)) by congruence. f_equal. now apply IH.
  - f_equal. now apply IH.
Qed.

Lemma skus_update_conflicting (p : product) (l : list row) :
  r_sku <$> update_conflicting p l = r_sku <$> l.
Proof.
  induction l as [|r l IH]; [done|]. cbn [update_conflicting].
  destruct (has_sku (p_sku p) r); cbn [fmap list_fmap] in *; [done | now rewrite IH].
Qed.

Lemma ids_update_conflicting (p : product) (l : list row) :
  r_id <$> update_conflicting p l = r_id <$> l.
Proof.
  induction l as [|r l IH]; [done|]. cbn [update_conflicting].
  destruct (has_sku (p_sku p) r); cbn [fmap list_fmap] in *; [done | now rewrite IH].
Qed.

Lemma skus_upsert (p : product) (t : table) :
  skus (upsert p t)
  = if existsb (has_sku (p_sku p)) (rows t) then skus t else skus t ++ [p_sku p].
Proof.
  unfold upsert, insert, skus. destruct (existsb (has_sku (p_sku p)) (rows t)).
  - apply skus_update_conflicting.
  - cbn [rows]. now rewrite fmap_app.
Qed.

Lemma ids_upsert (p : product) (t : table) :
  ids (upsert p t)
  = if existsb (has_sku (p_sku p)) (rows t) then ids t else ids t ++ [next_rowid t].
Proof.
  unfold upsert, insert, ids. destruct (existsb (has_sku (p_sku p)) (rows t)).
  - apply ids_update_conflicting.
  - cbn [rows]. now rewrite fmap_app.
Qed.

Lemma upsert_NoDup (p : product) (t : table) :
  NoDup (skus t) -> NoDup (skus (upsert p t)).
Proof.
  intros Hnd. rewrite skus_upsert.
  destruct (existsb (has_sku (p_sku p)) (rows t)) eqn:Hex; [done|].
  apply NoDup_app. split; [done|]. split.
  - intros k Hk Hk1. apply list_elem_of_singleton in Hk1 as ->.
    apply existsb_has_sku in Hk. congruence.
  - apply NoDup_singleton.
Qed.

Lemma apply_batch_snoc (b : list product) (p : product) (t : table) :
  apply_batch (b ++ [p]) t = upsert p (apply_batch b t).
Proof. unfold apply_batch. now rewrite fold_left_app. Qed.

Lemma apply_batch_NoDup (b : list product) (t : table) :
  NoDup (skus t) -> NoDup (skus (apply_batch b t)).
Proof.
  revert t. induction b as [|p b IH]; intros t Hnd; [done|].
  simpl. apply IH. now apply upsert_NoDup.
Qed.

Lemma id_below_next_rowid (t : table) (i : Z) :
  i ∈ ids t -> (i < next_rowid t)%Z.
Proof.
  unfold next_rowid, ids. induction (rows t) as [|r l IH]; intros Hi; [inversion Hi|].
  cbn [fmap list_fmap foldr] in *. apply elem_of_cons in Hi as [->|Hi].
  - lia.
  - specialize (IH Hi). lia.
Qed.

Lemma ids_upsert_NoDup (p : product) (t : table) :
  NoDup (ids t) -> NoDup (ids (upsert p t)).
Proof.
  intros Hnd. rewrite ids_upsert. destruct (existsb _ (rows t)); [exact Hnd|].
  apply NoDup_app. split; [exact Hnd|]. split; [|apply NoDup_singleton].
  intros i Hi Hi'. apply list_elem_of_singleton in Hi'. subst i.
  apply id_below_next_rowid in Hi. lia.
Qed.

(** *** The stored records, without their ids *)

Lemma skus_records (t : table) : skus t = p_sku <$> records t.
Proof. unfold skus, records. now rewrite <- list_fmap_compose. Qed.

Lemma skus_put (p : product) (d : list product) :
  p_sku <$> put p d
  = if bool_decide (p_sku p ∈ p_sku <$> d) then p_sku <$> d else (p_sku <$> d) ++ [p_sku p].
Proof.
  unfold put. destruct (bool_decide (p_sku p ∈ p_sku <$> d)).
  - rewrite <- list_fmap_compose. apply list_fmap_ext. intros i q _. simpl.
    destruct (bool_decide_reflect (p_sku q = p_sku p)); congruence.
  - now rewrite fmap_app.
Qed.

Lemma put_NoDup (p : product) (d : list product) :
  NoDup (p_sku <$> d) -> NoDup (p_sku <$> put p d).
Proof.
  intros Hnd. rewrite skus_put.
  destruct (bool_decide_reflect (p_sku p ∈ p_sku <$> d)) as [|Hnot]; [done|].
  apply NoDup_app. split; [done|]. split; [|apply NoDup_singleton].
  intros k Hk Hk1. apply list_elem_of_singleton in Hk1 as ->. done.
Qed.

Lemma sku_in_put (p : product) (d : list product) (k : list N) :
  k ∈ p_sku <$> put p d <-> k = p_sku p \/ k ∈ p_sku <$> d.
Proof.
  rewrite skus_put. destruct (bool_decide_reflect (p_sku p ∈ p_sku <$> d)) as [Hin|Hnot].
  - split; [tauto | intros [->|]; done].
  - rewrite elem_of_app, list_elem_of_singleton. tauto.
Qed.

Lemma put_all_snoc (b : list product) (p : product) (d : list product) :
  put_all (b ++ [p]) d = put p (put_all b d).
Proof. unfold put_all. now rewrite fold_left_app. Qed.

Lemma put_all_app (b1 b2 : list product) (d : list product) :
  put_all (b1 ++ b2) d = put_all b2 (put_all b1 d).
Proof. unfold put_all. now rewrite fold_left_app. Qed.

Lemma put_all_NoDup (b : list product) (d : list product) :
  NoDup (p_sku <$> d) -> NoDup (p_sku <$> put_all b d).
Proof.
  revert d. induction b as [|p b IH]; intros d Hnd; [done|].
  simpl. apply IH. now apply put_NoDup.
Qed.

Lemma sku_in_put_all (b : list product) (d : list product) (k : list N) :
  k ∈ p_sku <$> put_all b d <-> k ∈ p_sku <$> b \/ k ∈ p_sku <$> d.
Proof.
  revert d. induction b as [|p b IH]; intros d; simpl.
  - split; [tauto | intros [H|H]; [inversion H | done]].
  - rewrite IH, sku_in_put, elem_of_cons. tauto.
Qed.

Lemma find_app_first {A} (f : A -> bool) (l1 l2 : list A) :
  find f (l1 ++ l2) = match find f l1 with Some x => Some x | None => find f l2 end.
Proof. induction l1 as [|x l1 IH]; [done|]. simpl. now destruct (f x). Qed.

Lemma find_sku_None (k : list N) (d : list product) :
  find (fun q => bool_decide (p_sku q = k)) d = None <-> k ∉ p_sku <$> d.
Proof.
  induction d as [|q d IH]; cbn [find fmap list_fmap].
  - split; [intros _; apply not_elem_of_nil | done].
  - rewrite not_elem_of_cons. destruct (bool_decide_reflect (p_sku q = k)) as [Hq|Hq].
    + split; [discriminate | intros [Hne _]; congruence].
    + rewrite IH. split; [intros H; split; [congruence | exact H] | tauto].
Qed.

Lemma find_sku_NoDup (d : list product) (q : product) :
  NoDup (p_sku <$> d) -> q ∈ d -> find (fun x => bool_decide (p_sku x = p_sku q)) d = Some q.
Proof.
  induction d as [|q' d IH]; intros Hnd Hin; [inversion Hin|].
  cbn [find fmap list_fmap] in *. apply NoDup_cons in Hnd as [Hfresh Hnd].
  apply elem_of_cons in Hin as [->|Hin].
  - now rewrite bool_decide_eq_true_2.
  - destruct (bool_decide_reflect (p_sku q' = p_sku q)) as [Hq|Hq]; [|now apply IH].
    exfalso. apply Hfresh. rewrite Hq. apply list_elem_of_fmap. now exists q.
Qed.

Lemma find_put_same (p : product) (d : list product) :
  find (fun q => bool_decide (p_sku q = p_sku p)) (put p d) = Some p.
Proof.
  unfold put. destruct (bool_decide_reflect (p_sku p ∈ p_sku <$> d)) as [Hin|Hnot].
  - induction d as [|q d IH]; [inversion Hin|]. cbn [find fmap list_fmap] in *.
    destruct (bool_decide_reflect (p_sku q = p_sku p)) as [Hq|Hq].
    + now rewrite bool_decide_eq_true_2.
    + rewrite bool_decide_eq_false_2 by exact Hq. apply IH.
      apply elem_of_cons in Hin as [Hin|Hin]; [congruence | exact Hin].
  - rewrite find_app_first, (proj2 (find_sku_None _ _) Hnot). cbn [find].
    now rewrite bool_decide_eq_true_2.
Qed.

Lemma find_put_other (p : product) (d : list product) (k : list N) :
  p_sku p <> k ->
  find (fun q => bool_decide (p_sku q = k)) (put p d)
  = find (fun q => bool_decide (p_sku q = k)) d.
Proof.
  intros Hne. unfold put. destruct (bool_decide (p_sku p ∈ p_sku <$> d)).
  - induction d as [|q d IH]; [done|]. cbn [find fmap list_fmap].
    destruct (bool_decide_reflect (p_sku q = p_sku p)) as [Hq|Hq].
    + rewrite !bool_decide_eq_false_2 by congruence. exact IH.
    + destruct (bool_decide (p_sku q = k)); [done | exact IH].
  - rewrite find_app_first.
    destruct (find (fun q => bool_decide (p_sku q = k)) d); [done|]. cbn [find].
    now rewrite bool_decide_eq_false_2.
Qed.

Lemma last_with_sku_cons (k : list N) (p : product) (b : list product) :
  last_with_sku k (p :: b)
  = match last_with_sku k b with
    | Some q => Some q
    | None => if decide (p_sku p = k) then Some p else None
    end.
Proof.
  unfold last_with_sku. rewrite filter_cons.
  destruct (decide (p_sku p = k)); [|now destruct (last _)].
  destruct (filter _ b) as [|q l] eqn:Hf; [done|].
  rewrite last_cons. now destruct (last (q :: l)).
Qed.

Lemma last_with_sku_sku (k : list N) (b : list product) (p : product) :
  last_with_sku k b = Some p -> p_sku p = k /\ p ∈ b.
Proof.
  unfold last_with_sku. intros H.
  assert (Hin : p ∈ filter (fun q => p_sku q = k) b).
  { apply last_Some in H as [l ->]. apply elem_of_app. right. left. }
  apply list_elem_of_filter in Hin. tauto.
Qed.

Lemma last_with_sku_is_Some (k : list N) (b : list product) :
  k ∈ p_sku <$> b -> is_Some (last_with_sku k b).
Proof.
  intros Hin. apply list_elem_of_fmap in Hin as (p & -> & Hin).
  unfold last_with_sku. apply last_is_Some.
  intros Hnil. assert (Hp : p ∈ filter (fun q => p_sku q = p_sku p) b)
    by now apply list_elem_of_filter.
  rewrite Hnil in Hp. inversion Hp.
Qed.

(** Last write wins: after the tuples of [b] have been put, the record of
    a sku that [b] mentions is the last tuple of [b] with that sku, and the
    record of any other sku is as before. *)
Lemma find_put_all (b : list product) (d : list product) (k : list N) :
  find (fun q => bool_decide (p_sku q = k)) (put_all b d)
  = match last_with_sku k b with
    | Some p => Some p
    | None => find (fun q => bool_decide (p_sku q = k)) d
    end.
Proof.
  revert d. induction b as [|p b IH]; intros d; [done|].
  simpl. rewrite IH, last_with_sku_cons.
  destruct (last_with_sku k b); [done|].
  destruct (decide (p_sku p = k)) as [<-|Hne].
  - apply find_put_same.
  - now rewrite find_put_other.
Qed.

Lemma put_all_present (b : list product) (d : list product) :
  (forall p, p ∈ b -> p_sku p ∈ p_sku <$> d) ->
  put_all b d = overwrite b <$> d.
Proof.
  revert d. induction b as [|p b IH]; intros d Hall.
  - simpl. unfold overwrite. simpl.
    rewrite <- (list_fmap_id d) at 1. now apply list_fmap_ext.
  - simpl. assert (Hp : p_sku p ∈ p_sku <$> d) by (apply Hall; left).
    assert (Hput : put p d = (fun q => if bool_decide (p_sku q = p_sku p) then p else q) <$> d).
    { unfold put. now rewrite bool_decide_eq_true_2. }
    rewrite IH.
    + rewrite Hput, <- list_fmap_compose.
      apply list_fmap_ext. intros j q _. simpl. unfold overwrite.
      destruct (bool_decide_reflect (p_sku q = p_sku p)) as [Hq|Hq].
      * rewrite <- Hq, last_with_sku_cons.
        destruct (last_with_sku (p_sku q) b); [done|].
        now rewrite decide_True by congruence.
      * rewrite last_with_sku_cons.
        destruct (last_with_sku (p_sku q) b); [done|].
        now rewrite decide_False by congruence.
    + intros q Hq. apply sku_in_put. right. apply Hall. now right.
Qed.

(** Putting the same tuples a second time changes nothing. *)
Lemma put_all_idempotent (b : list product) (d : list product) :
  NoDup (p_sku <$> d) -> put_all b (put_all b d) = put_all b d.
Proof.
  intros Hnd. pose proof (put_all_NoDup b d Hnd) as Hnd1.
  rewrite put_all_present.
  - rewrite <- (list_fmap_id (put_all b d)) at 2.
    apply list_fmap_ext. intros j q Hj. simpl. unfold overwrite.
    destruct (last_with_sku (p_sku q) b) as [p|] eqn:Hlast; [|done].
    apply list_elem_of_lookup_2 in Hj.
    pose proof (find_put_all b d (p_sku q)) as Hfind.
    rewrite (find_sku_NoDup _ _ Hnd1 Hj), Hlast in Hfind. simpl. congruence.
  - intros p Hp. apply sku_in_put_all. left. apply list_elem_of_fmap. now exists p.
Qed.

(** A record whose sku no tuple of [b] carries keeps its place. *)
Lemma put_all_lookup_other (b : list product) (d : list product) (i : nat) (q : product) :
  d !! i = Some q -> p_sku q ∉ p_sku <$> b -> put_all b d !! i = Some q.
Proof.
  revert d. induction b as [|p b IH]; intros d Hi Hnot; [exact Hi|].
  rewrite fmap_cons, not_elem_of_cons in Hnot. destruct Hnot as [Hne Hnot].
  simpl. apply IH; [|exact Hnot]. unfold put.
  destruct (bool_decide (p_sku p ∈ p_sku <$> d)).
  - rewrite list_lookup_fmap, Hi. simpl.
    now rewrite bool_decide_eq_false_2 by exact Hne.
  - now apply lookup_app_l_Some.
Qed.

(** *** The statements on the records *)

Lemma records_upsert (p : product) (t : table) :
  NoDup (skus t) -> records (upsert p t) = put p (records t).
Proof.
  intros Hnd. unfold upsert, insert, put. rewrite <- skus_records.
  destruct (existsb (has_sku (p_sku p)) (rows t)) eqn:Hex.
  - apply existsb_has_sku in Hex. rewrite bool_decide_eq_true_2 by exact Hex.
    unfold records. cbn [rows]. rewrite (update_conflicting_NoDup _ _ Hnd).
    rewrite <- !list_fmap_compose. apply list_fmap_ext. intros i r _. simpl.
    unfold has_sku, r_sku.
    destruct (bool_decide_reflect (p_sku (r_product r) = p_sku p)) as [Hr|Hr]; [|done].
    now apply set_columns_own.
  - rewrite bool_decide_eq_false_2.
    + unfold records. cbn [rows]. now rewrite fmap_app.
    + intros Hin. apply existsb_has_sku in Hin. congruence.
Qed.

Lemma records_update_where_sku (p : product) (t : table) :
  p_sku p ∈ skus t -> records (update_where_sku p t) = put p (records t).
Proof.
  intros Hin. unfold put. rewrite <- skus_records, bool_decide_eq_true_2 by exact Hin.
  unfold records, update_where_sku. cbn [rows].
  rewrite <- !list_fmap_compose. apply list_fmap_ext. intros i r _. simpl.
  unfold has_sku, r_sku.
  destruct (bool_decide_reflect (p_sku (r_product r) = p_sku p)) as [Hr|Hr]; [|done].
  now apply set_columns_own.
Qed.

Lemma records_insert (p : product) (t t' : table) :
  insert p t = inr t' -> records t' = put p (records t) /\ p_sku p ∉ skus t.
Proof.
  unfold insert. destruct (existsb (has_sku (p_sku p)) (rows t)) eqn:Hex; [discriminate|].
  intros [= <-].
  assert (Hnot : p_sku p ∉ skus t).
  { intros Hin. apply existsb_has_sku in Hin. congruence. }
  split; [|exact Hnot]. unfold put. rewrite <- skus_records.
  rewrite bool_decide_eq_false_2 by exact Hnot.
  unfold records. cbn [rows]. now rewrite fmap_app.
Qed.

Lemma records_apply_batch (b : list product) (t : table) :
  NoDup (skus t) -> records (apply_batch b t) = put_all b (records t).
Proof.
  revert t. induction b as [|p b IH]; intros t Hnd; [done|].
  simpl. rewrite IH by now apply upsert_NoDup. now rewrite records_upsert.
Qed.

(** The row of a sku, from the records. *)
Lemma find_rows_records (k : list N) (t : table) :
  r_product <$> find (has_sku k) (rows t)
  = find (fun q => bool_decide (p_sku q = k)) (records t).
Proof.
  unfold records. induction (rows t) as [|r l IH]; [done|]. simpl.
  unfold has_sku at 1, r_sku. now destruct (bool_decide (p_sku (r_product r) = k)).
Qed.

Lemma filter_sku_absent (l : list row) (k : list N) :
  k ∉ r_sku <$> l -> filter (fun r => r_sku r = k) l = [].
Proof.
  induction l as [|r l IH]; intros Hnot; [done|].
  simpl in Hnot. apply not_elem_of_cons in Hnot as [Hne Hnot].
  rewrite filter_cons, decide_False by congruence. now apply IH.
Qed.

(** Under the uniqueness of [sku], a sku that occurs has exactly one row. *)
Lemma one_row_per_sku (l : list row) (k : list N) :
  NoDup (r_sku <$> l) -> k ∈ r_sku <$> l ->
  exists r, filter (fun r => r_sku r = k) l = [r] /\ find (has_sku k) l = Some r.
Proof.
  induction l as [|r l IH]; intros Hnd Hin; [inversion Hin|].
  simpl in *. apply NoDup_cons in Hnd as [Hfresh Hnd].
  rewrite filter_cons. destruct (decide (r_sku r = k)) as [Hk|Hk].
  - exists r. rewrite (proj2 (has_sku_true k r) Hk). split; [|done]. f_equal.
    apply filter_sku_absent. now rewrite <- Hk.
  - apply elem_of_cons in Hin as [->|Hin]; [done|].
    destruct (IH Hnd Hin) as (r' & Hf & Hfind). exists r'.
    now rewrite (proj2 (has_sku_false k r) Hk).
Qed.

(** The one row of a sku whose record is known. *)
Lemma row_of_record (t : table) (k : list N) (p : product) :
  NoDup (skus t) -> find (fun q => bool_decide (p_sku q = k)) (records t) = Some p ->
  exists r, filter (fun r => r_sku r = k) (rows t) = [r] /\ r_product r = p.
Proof.
  intros Hnd Hfind. rewrite <- find_rows_records in Hfind.
  destruct (find (has_sku k) (rows t)) as [r|] eqn:Hr; [|discriminate].
  injection Hfind as Hp.
  destruct (find_has_sku_Some _ _ _ Hr) as [Hin Hk].
  destruct (one_row_per_sku (rows t) k Hnd) as (r' & Hf & Hf').
  { rewrite <- Hk. apply list_elem_of_fmap. now exists r. }
  exists r. split; [|exact Hp]. congruence.
Qed.

(** The rows are their ids and their records. *)
Lemma rows_by_ids_and_records (t1 t2 : table) :
  ids t1 = ids t2 -> records t1 = records t2 -> rows t1 = rows t2.
Proof.
  unfold ids, records. revert t2. generalize (rows t1) as l1.
  intros l1 t2. generalize (rows t2) as l2. clear t1 t2.
  induction l1 as [|[i p] l1 IH]; intros [|[j q] l2] Hi Hr; try discriminate; [done|].
  simpl in *. injection Hi as -> Hi. injection Hr as -> Hr. f_equal. now apply IH.
Qed.

(** ** The calls of a run: what they leave alone *)

Lemma frames_ret {A} (a : A) : frames (ret a).
Proof. now intros k msgs n st. Qed.

Lemma frames_bind {A B} (m : M A) (f : A -> M B) :
  frames m -> (forall a, frames (f a)) -> frames (bind m f).
Proof.
  intros Hm Hf k msgs n st. unfold bind. rewrite Hm.
  destruct (m st) as [[a|e] st1]; [apply Hf | reflexivity].
Qed.

Lemma issues_only_ret {A} (P : stmt -> Prop) (a : A) : issues_only P (ret a).
Proof.
  intros st r st' [= <- <-]. repeat split. now exists [].
Qed.

Lemma issues_only_bind {A B} (P : stmt -> Prop) (m : M A) (f : A -> M B) :
  issues_only P m -> (forall a, issues_only P (f a)) -> issues_only P (bind m f).
Proof.
  intros Hm Hf st r st' Hrun. unfold bind in Hrun.
  destruct (m st) as [[a|e] st1] eqn:Hmst.
  - destruct (Hm _ _ _ Hmst) as (H1 & H2 & H3 & H4 & H5 & H6 & l1 & Hl1 & HP1).
    destruct (Hf a _ _ _ Hrun) as (G1 & G2 & G3 & G4 & G5 & G6 & l2 & Hl2 & HP2).
    repeat split; try congruence.
    exists (l2 ++ l1). split; [now rewrite Hl2, Hl1, app_assoc | now apply Forall_app].
  - injection Hrun as <- <-. exact (Hm _ _ _ Hmst).
Qed.

Lemma issues_only_weaken {A} (P Q : stmt -> Prop) (m : M A) :
  (forall s, P s -> Q s) -> issues_only P m -> issues_only Q m.
Proof.
  intros HPQ Hm st r st' Hrun.
  destruct (Hm _ _ _ Hrun) as (H1 & H2 & H3 & H4 & H5 & H6 & l & Hl & HP).
  repeat split; try done. exists l. split; [done|].
  eapply Forall_impl; [exact HP | exact HPQ].
Qed.

Section Calls.
Variable py_float : str -> option float.
Variable E : store_env.

Lemma frames_execute {A} (s : stmt) (act : table -> exn + (A * table)) :
  frames (execute E s act).
Proof.
  intros k msgs n st. unfold execute. simpl.
  destruct (faults E (clock st)); [reflexivity|].
  change (cur_table (with_locals k msgs n st)) with (cur_table st).
  destruct (act (cur_table st)) as [e|[a t']]; reflexivity.
Qed.

Lemma issues_only_execute {A} (P : stmt -> Prop) (s : stmt)
    (act : table -> exn + (A * table)) :
  P s -> issues_only P (execute E s act).
Proof.
  intros HP st r st' Hrun. unfold execute in Hrun.
  assert (Hl : exists l, s :: log st = l ++ log st /\ Forall P l)
    by (exists [s]; split; [done | now constructor]).
  destruct (faults E (clock st)); [injection Hrun as <- <-; now repeat split|].
  destruct (act (cur_table st)) as [e|[a t']];
    injection Hrun as <- <-; now repeat split.
Qed.

Lemma frames_bound {A} (p : product) (s : option stmt) (m : M A) :
  frames m -> frames (bound p s m).
Proof.
  intros Hm k msgs n st. unfold bound.
  destruct (fits_int64 (p_stock p)); [apply Hm|]. now destruct s.
Qed.

Lemma issues_only_bound {A} (P : stmt -> Prop) (p : product) (s : option stmt) (m : M A) :
  (forall x, s = Some x -> P x) -> issues_only P m -> issues_only P (bound p s m).
Proof.
  intros Hs Hm st r st' Hrun. unfold bound in Hrun.
  destruct (fits_int64 (p_stock p)); [exact (Hm _ _ _ Hrun)|].
  injection Hrun as <- <-. destruct s as [x|]; repeat split.
  - exists [x]. split; [done|]. constructor; [now apply Hs | constructor].
  - now exists [].
Qed.

Lemma frames_upsert_each (b : list product) : frames (upsert_each E b).
Proof.
  induction b as [|p b IH]; [apply frames_ret|].
  simpl. apply frames_bind; [|intros _; exact IH].
  unfold upsert_step. apply frames_bound.
  intros k msgs n st. simpl.
  destruct (faults E (clock st)); reflexivity.
Qed.

Lemma issues_only_upsert_each (P : stmt -> Prop) (b : list product) :
  issues_only P (upsert_each E b).
Proof.
  induction b as [|p b IH]; [apply issues_only_ret|].
  simpl. apply issues_only_bind; [|intros _; exact IH].
  unfold upsert_step. apply issues_only_bound; [discriminate|].
  intros st r st' Hrun.
  assert (Hl : exists l, log st = l ++ log st /\ Forall P l) by now exists [].
  destruct (faults E (clock st)); injection Hrun as <- <-; now repeat split.
Qed.

Lemma frames_executemany_upsert (b : list product) : frames (executemany_upsert E b).
Proof.
  intros k msgs n st. unfold executemany_upsert.
  destruct (upsert_supported E); [|reflexivity].
  exact (frames_upsert_each b k msgs n (issue (SUpsertMany b) st)).
Qed.

Lemma issues_only_executemany_upsert (b : list product) :
  issues_only (fun _ => True) (executemany_upsert E b).
Proof.
  intros st r st' Hrun. unfold executemany_upsert in Hrun.
  destruct (upsert_supported E).
  - destruct (issues_only_upsert_each (fun _ => True) b _ _ _ Hrun)
      as (H1 & H2 & H3 & H4 & H5 & H6 & l & Hl & HP).
    repeat split; try done. exists (l ++ [SUpsertMany b]).
    split; [now rewrite <- app_assoc | now apply Forall_forall].
  - injection Hrun as <- <-. repeat split.
    exists [SUpsertMany b]. split; [done | now apply Forall_forall].
Qed.

Lemma frames_per_record_each (b : list product) : frames (per_record_each E b).
Proof.
  induction b as [|p b IH]; [apply frames_ret|].
  simpl. apply frames_bind; [|intros _; exact IH].
  unfold per_record. apply frames_bind; [apply frames_execute|].
  intros [i|]; apply frames_bound, frames_execute.
Qed.

Lemma issues_only_per_record_each (b : list product) :
  issues_only not_upsert_many (per_record_each E b).
Proof.
  induction b as [|p b IH]; [apply issues_only_ret|].
  simpl. apply issues_only_bind; [|intros _; exact IH].
  unfold per_record. apply issues_only_bind; [now apply issues_only_execute|].
  intros [i|]; (apply issues_only_bound; [now intros x [= <-] | now apply issues_only_execute]).
Qed.

Lemma frames_flush_batch (depth : nat) : frames (flush_batch E depth).
Proof.
  induction depth as [|d IH]; intros k msgs n st; [reflexivity|].
  simpl. change (batch (with_locals k msgs n st)) with (batch st).
  change (have_upsert (with_locals k msgs n st)) with (have_upsert st).
  destruct (batch st) as [|p b]; [reflexivity|].
  assert (Hstep : frames (if have_upsert st then executemany_upsert E (p :: b)
                          else per_record_each E (p :: b))).
  { destruct (have_upsert st);
      [apply frames_executemany_upsert | apply frames_per_record_each]. }
  set (step := if have_upsert st then executemany_upsert E (p :: b)
               else per_record_each E (p :: b)) in *.
  rewrite (Hstep k msgs n st).
  destruct (step st) as [[[]|e] st1]; [reflexivity|].
  destruct e; try reflexivity.
  change (set_have_upsert false (with_locals k msgs n st1))
    with (with_locals k msgs n (set_have_upsert false st1)).
  rewrite IH.
  destruct (flush_batch E d (set_have_upsert false st1)) as [[[]|e'] st2]; reflexivity.
Qed.

Lemma frames_commit : frames (commit E).
Proof.
  intros k msgs n st. unfold commit. simpl.
  destruct (faults E (clock st)); reflexivity.
Qed.

(** A flush leaves the committed table and the counters alone, and
    appends to the log. *)
Lemma flush_batch_keeps (depth : nat) (st st' : state) (r : result unit) :
  flush_batch E depth st = (r, st') ->
  db st' = db st /\ skipped st' = skipped st /\ error_lines st' = error_lines st
  /\ line_no st' = line_no st /\ exists l, log st' = l ++ log st.
Proof.
  revert st st' r. induction depth as [|d IH]; intros st st' r Hrun.
  - injection Hrun as <- <-. repeat split. now exists [].
  - simpl in Hrun. destruct (batch st) as [|p b] eqn:Hb.
    { injection Hrun as <- <-. repeat split. now exists []. }
    assert (Hstep : issues_only (fun _ => True)
              (if have_upsert st then executemany_upsert E (p :: b)
               else per_record_each E (p :: b))).
    { destruct (have_upsert st); [apply issues_only_executemany_upsert|].
      eapply issues_only_weaken; [|apply issues_only_per_record_each]. done. }
    set (step := if have_upsert st then executemany_upsert E (p :: b)
                 else per_record_each E (p :: b)) in *.
    destruct (step st) as [[[]|e] st1] eqn:Hst1;
      destruct (Hstep _ _ _ Hst1) as (H1 & _ & _ & H4 & H5 & H6 & l & Hl & _).
    + injection Hrun as <- <-. simpl. repeat split; try done. now exists l.
    + assert (Hplain : (r, st') = (Raise e, st1) ->
                db st' = db st /\ skipped st' = skipped st
                /\ error_lines st' = error_lines st /\ line_no st' = line_no st
                /\ exists l, log st' = l ++ log st).
      { intros [= -> ->]. repeat split; try done. now exists l. }
      destruct e; try (apply Hplain; now symmetry).
      destruct (flush_batch E d (set_have_upsert false st1)) as [[[]|e'] st2] eqn:Hst2;
        destruct (IH _ _ _ Hst2) as (G1 & G4 & G5 & G6 & l2 & Hl2);
        injection Hrun as <- <-; simpl in *;
        (repeat split; try congruence);
        exists (l2 ++ l); now rewrite Hl2, Hl, app_assoc.
Qed.

(** Once [have_upsert] is false, a flush leaves it false and issues no
    [executemany] of the upsert statement. *)
Lemma flush_batch_sticky (depth : nat) (st st' : state) (r : result unit) :
  have_upsert st = false ->
  flush_batch E depth st = (r, st') ->
  have_upsert st' = false
  /\ exists l, log st' = l ++ log st /\ Forall not_upsert_many l.
Proof.
  revert st st' r. induction depth as [|d IH]; intros st st' r Hflag Hrun.
  - injection Hrun as <- <-. split; [done | now exists []].
  - simpl in Hrun. rewrite Hflag in Hrun.
    destruct (batch st) as [|p b] eqn:Hb.
    { injection Hrun as <- <-. split; [done | now exists []]. }
    destruct (per_record_each E (p :: b) st) as [[[]|e] st1] eqn:Hst1;
      destruct (issues_only_per_record_each _ _ _ _ Hst1)
        as (_ & H2 & _ & _ & _ & _ & l & Hl & HP).
    + injection Hrun as <- <-. simpl. split; [congruence | now exists l].
    + assert (Hplain : (r, st') = (Raise e, st1) ->
                have_upsert st' = false
                /\ exists l, log st' = l ++ log st /\ Forall not_upsert_many l).
      { intros [= -> ->]. split; [congruence | now exists l]. }
      destruct e; try (apply Hplain; now symmetry).
      destruct (flush_batch E d (set_have_upsert false st1)) as [[[]|e'] st2] eqn:Hst2;
        destruct (IH (set_have_upsert false st1) _ _ eq_refl Hst2) as (G1 & l2 & Hl2 & HP2);
        injection Hrun as <- <-; simpl in *;
        (split; [done|]);
        exists (l2 ++ l); (split; [now rewrite Hl2, Hl, app_assoc | now apply Forall_app]).
Qed.
End Calls.

(** ** The loop over the rows, for any store *)

Section Rows.
Variable py_float : str -> option float.
Variable E : store_env.
Variables (depth n_headers : nat) (target_map : gmap string nat).

Local Abbreviation process_row' := (process_row py_float E depth n_headers target_map).
Local Abbreviation process_rows' := (process_rows py_float E depth n_headers target_map).

Lemma process_rows_app (pre post : list (list str)) (st : state) :
  process_rows' (pre ++ post) st = process_rows' post (process_rows' pre st).
Proof. unfold process_rows. apply fold_left_app. Qed.

Lemma process_rows_cons (r : list str) (post : list (list str)) (st : state) :
  process_rows' (r :: post) st = process_rows' post (process_row' st r).
Proof. reflexivity. Qed.

(** A row without sku or name: nothing reaches the batch or the
    connection; the row is counted and reported under its line. *)
Lemma process_row_rejected (st : state) (r : list str) :
  row_product py_float n_headers target_map r = None ->
  process_row' st r
  = skip_with (missing_msg (S (line_no st))) (set_line_no (S (line_no st)) st).
Proof. intros H. unfold process_row. now rewrite H. Qed.

Lemma process_row_keeps (st : state) (r : list str) :
  db (process_row' st r) = db st
  /\ line_no (process_row' st r) = S (line_no st)
  /\ (skipped st <= skipped (process_row' st r))%nat
  /\ (exists l, error_lines (process_row' st r) = error_lines st ++ l)
  /\ exists l, log (process_row' st r) = l ++ log st.
Proof.
  unfold process_row.
  destruct (row_product py_float n_headers target_map r) as [p|].
  - set (st1 := set_batch _ _).
    destruct (BATCH_SIZE <=? length (batch st1))%nat.
    + destruct (flush_batch E depth st1) as [[[]|e] st2] eqn:Hf;
        destruct (flush_batch_keeps _ _ _ _ _ Hf) as (H1 & H2 & H3 & H4 & l & Hl);
        simpl; rewrite ?H1, ?H2, ?H3, ?H4; simpl.
      * repeat split; try lia. -- now exists []; rewrite app_nil_r. -- now exists l.
      * repeat split; try lia. -- eexists; reflexivity. -- now exists l.
    + simpl. repeat split; try lia.
      -- now exists []; rewrite app_nil_r. -- now exists [].
  - simpl. repeat split; try lia. -- eexists; reflexivity. -- now exists [].
Qed.

Lemma process_rows_keeps (data : list (list str)) (st : state) :
  db (process_rows' data st) = db st
  /\ line_no (process_rows' data st) = (line_no st + length data)%nat.
Proof.
  revert st. induction data as [|r data IH]; intros st.
  - simpl. split; [done | lia].
  - rewrite process_rows_cons. destruct (IH (process_row' st r)) as [H1 H2].
    destruct (process_row_keeps st r) as (G1 & G2 & _).
    rewrite H1, H2, G1, G2. simpl. split; [done | lia].
Qed.

(** Once the flag is false it stays false, and no later call is an
    [executemany] of the upsert statement. *)
Lemma process_row_sticky (st : state) (r : list str) :
  have_upsert st = false ->
  have_upsert (process_row' st r) = false
  /\ exists l, log (process_row' st r) = l ++ log st /\ Forall not_upsert_many l.
Proof.
  intros Hflag. unfold process_row.
  destruct (row_product py_float n_headers target_map r) as [p|].
  - set (st1 := set_batch _ _).
    destruct (BATCH_SIZE <=? length (batch st1))%nat.
    + destruct (flush_batch E depth st1) as [[[]|e] st2] eqn:Hf;
        destruct (flush_batch_sticky E depth st1 _ _ Hflag Hf) as (H1 & l & Hl & HP);
        simpl; (split; [done | now exists l]).
    + simpl. split; [done | now exists []].
  - simpl. split; [done | now exists []].
Qed.

Lemma process_rows_sticky (data : list (list str)) (st : state) :
  have_upsert st = false ->
  have_upsert (process_rows' data st) = false
  /\ exists l, log (process_rows' data st) = l ++ log st /\ Forall not_upsert_many l.
Proof.
  revert st. induction data as [|r data IH]; intros st Hflag.
  - simpl. split; [done | now exists []].
  - rewrite process_rows_cons.
    destruct (process_row_sticky st r Hflag) as (H1 & l1 & Hl1 & HP1).
    destruct (IH _ H1) as (H2 & l2 & Hl2 & HP2).
    split; [done|]. exists (l2 ++ l1).
    split; [now rewrite Hl2, Hl1, app_assoc | now apply Forall_app].
Qed.

Lemma stream_and_commit_sticky (data : list (list str)) (st st' : state)
    (r : result unit) :
  have_upsert st = false ->
  stream_and_commit py_float E depth n_headers target_map data st = (r, st') ->
  have_upsert st' = false
  /\ exists l, log st' = l ++ log st /\ Forall not_upsert_many l.
Proof.
  intros Hflag Hrun. unfold stream_and_commit, bind in Hrun.
  destruct (process_rows_sticky data st Hflag) as (H1 & l1 & Hl1 & HP1).
  destruct (flush_batch E depth (process_rows' data st)) as [[[]|e] st1] eqn:Hf;
    destruct (flush_batch_sticky E depth _ _ _ H1 Hf) as (H2 & l2 & Hl2 & HP2).
  - unfold commit in Hrun.
    destruct (faults E (clock st1)); injection Hrun as <- <-; simpl;
      (split; [done|]); exists (SCommit :: l2 ++ l1);
      (split; [simpl; now rewrite Hl2, Hl1, app_assoc|]);
      (constructor; [done | now apply Forall_app]).
  - injection Hrun as <- <-. split; [done|]. exists (l2 ++ l1).
    split; [now rewrite Hl2, Hl1, app_assoc | now apply Forall_app].
Qed.

(** Two runs that differ in the counters only go the same way. *)
Lemma same_store_with_locals (k : nat) (msgs : list str) (n : nat) (st : state) :
  same_store (with_locals k msgs n st) st.
Proof. reflexivity. Qed.

Lemma process_row_same_store (st1 st2 : state) (r : list str) :
  same_store st1 st2 ->
  same_store (process_row' st1 r) (process_row' st2 r)
  /\ (skipped (process_row' st1 r) + skipped st2
      = skipped (process_row' st2 r) + skipped st1)%nat.
Proof.
  intros Hsim. unfold process_row.
  destruct (row_product py_float n_headers target_map r) as [p|].
  - set (x1 := set_batch _ (set_line_no _ st1)).
    set (x2 := set_batch _ (set_line_no _ st2)).
    assert (Hx : x1 = with_locals (skipped st1) (error_lines st1) (S (line_no st1)) x2).
    { unfold x1, x2. rewrite Hsim. reflexivity. }
    assert (Hb : batch x1 = batch x2) by now rewrite Hx.
    rewrite Hb. destruct (BATCH_SIZE <=? length (batch x2))%nat.
    + rewrite Hx, frames_flush_batch.
      destruct (flush_batch E depth x2) as [[[]|e] x3] eqn:Hf;
        destruct (flush_batch_keeps _ _ _ _ _ Hf) as (_ & H2 & _).
      * split; [reflexivity|]. simpl. rewrite H2. unfold x2. simpl. lia.
      * split; [reflexivity|]. simpl. rewrite H2. unfold x2. simpl. lia.
    + split; [rewrite Hx; reflexivity|]. rewrite Hx. unfold x2. simpl. lia.
  - split; [rewrite Hsim; reflexivity|]. simpl. lia.
Qed.

Lemma process_rows_same_store (data : list (list str)) (st1 st2 : state) :
  same_store st1 st2 ->
  same_store (process_rows' data st1) (process_rows' data st2)
  /\ (skipped (process_rows' data st1) + skipped st2
      = skipped (process_rows' data st2) + skipped st1)%nat.
Proof.
  revert st1 st2. induction data as [|r data IH]; intros st1 st2 Hsim.
  - simpl. split; [done | lia].
  - rewrite !process_rows_cons.
    destruct (process_row_same_store st1 st2 r Hsim) as [Hs Hk].
    destruct (IH _ _ Hs) as [Hs' Hk']. split; [done | lia].
Qed.

Lemma process_rows_keeps_messages (data : list (list str)) (st : state) (msg : list N) :
  msg ∈ error_lines st -> msg ∈ error_lines (process_rows' data st).
Proof.
  revert st. induction data as [|r data IH]; intros st Hin; [done|].
  rewrite process_rows_cons. apply IH.
  destruct (process_row_keeps st r) as (_ & _ & _ & [l ->] & _).
  apply elem_of_app. now left.
Qed.

Lemma stream_and_commit_same_store (data : list (list str)) (st1 st2 x2 : state)
    (r : result unit) :
  same_store st1 st2 ->
  stream_and_commit py_float E depth n_headers target_map data st2 = (r, x2) ->
  exists x1,
    stream_and_commit py_float E depth n_headers target_map data st1 = (r, x1)
    /\ same_store x1 x2
    /\ (skipped x1 + skipped st2 = skipped x2 + skipped st1)%nat
    /\ forall msg, msg ∈ error_lines st1 -> msg ∈ error_lines x1.
Proof.
  intros Hsim. unfold stream_and_commit, bind.
  destruct (process_rows_same_store data st1 st2 Hsim) as [Hs Hk].
  pose proof (process_rows_keeps_messages data st1) as Hm.
  set (A1 := process_rows' data st1) in *. set (A2 := process_rows' data st2) in *.
  clearbody A1 A2. unfold same_store in Hs.
  destruct A1 as [d1 t1 c1 l1 h1 b1 k1 m1 n1]. simpl in Hs, Hk, Hm.
  rewrite Hs, frames_flush_batch.
  destruct (flush_batch E depth A2) as [[[]|e] x] eqn:Hf;
    destruct (flush_batch_keeps _ _ _ _ _ Hf) as (_ & H2 & _).
  - rewrite frames_commit. unfold commit.
    destruct (faults E (clock x)); intros [= <- <-]; eexists;
      (split; [reflexivity|]); (split; [reflexivity|]); simpl;
      (split; [lia | exact Hm]).
  - intros [= <- <-]. eexists. split; [reflexivity|]. split; [reflexivity|].
    simpl. split; [lia | exact Hm].
Qed.

Lemma stream_and_commit_failed_keeps_db (data : list (list str)) (st st' : state)
    (e : exn) :
  stream_and_commit py_float E depth n_headers target_map data st = (Raise e, st') ->
  db st' = db st.
Proof.
  unfold stream_and_commit, bind. intros Hrun.
  destruct (flush_batch E depth (process_rows' data st)) as [[[]|e'] st1] eqn:Hf;
    destruct (flush_batch_keeps _ _ _ _ _ Hf) as (H1 & _);
    destruct (process_rows_keeps data st) as [G1 _].
  - unfold commit in Hrun.
    destruct (faults E (clock st1)); [|discriminate].
    injection Hrun as _ <-. simpl. congruence.
  - injection Hrun as _ <-. congruence.
Qed.
End Rows.

(** ** Rejected rows and failed runs, for any store *)

Lemma missing_msg_text (n : nat) : missing_msg n = missing_text n.
Proof.
  unfold missing_msg, line_tag, missing_text, PyStr.of_nat.
  now rewrite <- !app_assoc.
Qed.

Lemma line_tag_text (n : nat) : line_tag n = py "[Line " ++ py (pretty n) ++ py "] ".
Proof. reflexivity. Qed.

Lemma stream_and_commit_split (py_float : str -> option float) (E : store_env)
    (depth n : nat) (tm : gmap string nat) (pre post : list (list str)) (st : state) :
  stream_and_commit py_float E depth n tm (pre ++ post) st
  = stream_and_commit py_float E depth n tm post (process_rows py_float E depth n tm pre st).
Proof. unfold stream_and_commit, bind. now rewrite process_rows_app. Qed.

(** A run that ends in [Failed] has committed nothing. *)
Lemma worker_failed_keeps_db (py_float : str -> option float) (py_lower : str -> str)
    (E : store_env) (depth : nat) (file_rows : list (list str)) (db0 : table)
    (msg : list N) (st : state) :
  worker py_float py_lower E depth file_rows db0 = (Failed msg, st) -> db st = db0.
Proof.
  unfold worker.
  destruct (import_body py_float py_lower E depth file_rows (connect db0))
    as [[[]|e] st1] eqn:Hb;
    [discriminate|].
  intros [= _ <-]. simpl. unfold import_body in Hb.
  destruct file_rows as [|[|h hs] data]; try (injection Hb as _ <-; reflexivity).
  unfold bind, execute_begin in Hb. simpl in Hb.
  destruct (faults E 0); [injection Hb as _ <-; reflexivity|].
  now rewrite (stream_and_commit_failed_keeps_db _ _ _ _ _ _ _ _ _ Hb).
Qed.

(** C6: a data row whose resolved sku cell or name cell is empty after
    cleaning adds nothing to the batch and issues no call; it raises
    [skipped] by one and appends the diagnostic that names its line and
    the missing SKU or Name, the k-th data row being line k+1; the rows
    after it are processed as if it were not there: the run ends the same
    way with the same committed table, one more skipped row, and the
    diagnostic among the recorded ones. *)
Theorem rejected_row_is_skipped (py_float : str -> option float)
    (py_lower : str -> str) (E : store_env)
    (depth : nat) (raw_headers : list str) (pre post : list (list str))
    (r : list str) (db0 : table) :
  raw_headers <> [] ->
  cell_under (_build_header_map (headers_of py_lower raw_headers)) r "sku" = []
  \/ cell_under (_build_header_map (headers_of py_lower raw_headers)) r "name" = [] ->
  (forall st,
     process_row py_float E depth (length (headers_of py_lower raw_headers))
       (_build_header_map (headers_of py_lower raw_headers)) st r
     = skip_with
         (py "[Line " ++ py (pretty (S (line_no st)))
          ++ py "] Missing SKU or Name; row skipped.")
         (set_line_no (S (line_no st)) st))
  /\ let without := worker py_float py_lower E depth (raw_headers :: pre ++ post) db0 in
     let with_row :=
       worker py_float py_lower E depth (raw_headers :: pre ++ r :: post) db0 in
     db with_row.2 = db without.2
     /\ match without.1, with_row.1 with
        | Done k msgs, Done k' msgs' =>
            k' = S k
            /\ (py "[Line " ++ py (pretty (length pre + 2))
                ++ py "] Missing SKU or Name; row skipped.") ∈ msgs'
        | Failed m, Failed m' => m' = m
        | _, _ => False
        end.
Proof.
  intros Hhdr Hmissing.
  assert (Hnone : row_product py_float (length (headers_of py_lower raw_headers))
                    (_build_header_map (headers_of py_lower raw_headers)) r = None).
  { rewrite row_product_tuple. unfold acceptable.
    destruct Hmissing as [-> | ->]; [done|]. now rewrite andb_false_r. }
  set (n := length (headers_of py_lower raw_headers)) in *.
  set (tm := _build_header_map (headers_of py_lower raw_headers)) in *.
  fold (missing_text (length pre + 2)).
  split.
  { intros st. fold (missing_text (S (line_no st))). rewrite <- missing_msg_text.
    now apply process_row_rejected. }
  destruct raw_headers as [|h hs]; [done|].
  unfold worker, import_body. fold (headers_of py_lower (h :: hs)). fold n. fold tm.
  unfold bind, execute_begin. cbn [connect clock txn].
  destruct (faults E 0); [simpl; done|].
  set (s0 := set_txn _ _).
  rewrite !(stream_and_commit_split _ _ _ _ _ pre).
  set (A := process_rows py_float E depth n tm pre s0).
  change (r :: post) with ([r] ++ post).
  rewrite (stream_and_commit_split _ _ _ _ _ [r]).
  change (process_rows py_float E depth n tm [r] A)
    with (process_row py_float E depth n tm A r).
  rewrite (process_row_rejected _ _ _ _ _ _ _ Hnone).
  assert (Hline : S (line_no A) = (length pre + 2)%nat).
  { unfold A. rewrite (proj2 (process_rows_keeps _ _ _ _ _ _ _)). simpl. lia. }
  rewrite Hline, missing_msg_text.
  set (B := skip_with _ _).
  assert (Hsim : same_store B A) by reflexivity.
  destruct (stream_and_commit py_float E depth n tm post A) as [res x2] eqn:Hrun.
  destruct (stream_and_commit_same_store _ _ _ _ _ post B A x2 res Hsim Hrun)
    as (x1 & -> & Hx & Hk & Hm).
  assert (Hdb : db x1 = db x2) by now rewrite Hx.
  assert (Hin : missing_text (length pre + 2) ∈ error_lines x1).
  { apply Hm. unfold B. simpl. apply elem_of_app. right. left. }
  destruct res as [[]|e]; simpl.
  - split; [done|]. split; [|done]. unfold B in Hk. simpl in Hk. lia.
  - split; done.
Qed.

Lemma rejected_row_is_skipped_witness :
  let without :=
    worker short_decimal PyStr.lower (sound_store true) 10
      ([py "SKU"; py "Title"] :: [[py "A1"; py "Widget"]] ++ [[py "B2"; py "Gadget"]])
      no_rows in
  let with_row :=
    worker short_decimal PyStr.lower (sound_store true) 10
      ([py "SKU"; py "Title"]
       :: [[py "A1"; py "Widget"]] ++ [py " "; py "NoSku"] :: [[py "B2"; py "Gadget"]])
      no_rows in
  without.1 = Done 0 []
  /\ with_row.1 = Done 1 [py "[Line 3] Missing SKU or Name; row skipped."]
  /\ db with_row.2 = db without.2
  /\ match without.1, with_row.1 with
     | Done k msgs, Done k' msgs' =>
         k' = S k
         /\ (py "[Line " ++ py (pretty (1 + 2)%nat)
             ++ py "] Missing SKU or Name; row skipped.") ∈ msgs'
     | Failed m, Failed m' => m' = m
     | _, _ => False
     end.
Proof.
  intros without with_row.
  split; [vm_compute; reflexivity|]. split; [vm_compute; reflexivity|].
  refine (proj2 (rejected_row_is_skipped short_decimal PyStr.lower (sound_store true) 10
                   [py "SKU"; py "Title"] [[py "A1"; py "Widget"]]
                   [[py "B2"; py "Gadget"]] [py " "; py "NoSku"] no_rows _ _)).
  - discriminate.
  - left. vm_compute. reflexivity.
Defined.

(** ** What the statements keep of a table, whatever the store does *)

Lemma store_ok_same (P : table -> Prop) (st st' : state) :
  db st' = db st -> txn st' = txn st -> store_ok P st -> store_ok P st'.
Proof. unfold store_ok, cur_table. now intros -> ->. Qed.

Lemma keeps_ret (P : table -> Prop) {A} (a : A) : keeps P (ret a).
Proof. now intros st r st' [= _ <-]. Qed.

Lemma keeps_bind (P : table -> Prop) {A B} (m : M A) (f : A -> M B) :
  keeps P m -> (forall a, keeps P (f a)) -> keeps P (bind m f).
Proof.
  intros Hm Hf st r st' Hrun Hok. unfold bind in Hrun.
  destruct (m st) as [[a|e] st1] eqn:Hmst.
  - exact (Hf a _ _ _ Hrun (Hm _ _ _ Hmst Hok)).
  - injection Hrun as _ <-. exact (Hm _ _ _ Hmst Hok).
Qed.

Lemma keeps_bound (P : table -> Prop) {A} (p : product) (s : option stmt) (m : M A) :
  keeps P m -> keeps P (bound p s m).
Proof.
  intros Hm st r st' Hrun Hok. unfold bound in Hrun.
  destruct (fits_int64 (p_stock p)); [exact (Hm _ _ _ Hrun Hok)|].
  injection Hrun as _ <-. now destruct s.
Qed.

Section Keeps.
Variable py_float : str -> option float.
Variable py_lower : str -> str.
Variable E : store_env.
Variable P : table -> Prop.
Hypothesis P_closed : closed_under_writes P.

Lemma keeps_execute {A} (s : stmt) (act : table -> exn + (A * table)) :
  (forall t a t', act t = inr (a, t') -> P t -> P t') ->
  keeps P (execute E s act).
Proof.
  intros Hact st r st' Hrun [Hdb Hcur]. unfold execute in Hrun.
  destruct (faults E (clock st));
    [injection Hrun as _ <-; now split|].
  destruct (act (cur_table st)) as [e|[a t']] eqn:Ha;
    injection Hrun as _ <-; [now split|].
  split; [exact Hdb|]. exact (Hact _ _ _ Ha Hcur).
Qed.

Lemma keeps_upsert_each (b : list product) : keeps P (upsert_each E b).
Proof using P_closed.
  induction b as [|p b IH]; [apply keeps_ret|].
  cbn [upsert_each]. apply keeps_bind; [|intros _; exact IH].
  unfold upsert_step. apply keeps_bound.
  intros st r st' Hrun [Hdb Hcur].
  destruct (faults E (clock st)); injection Hrun as _ <-; [now split|].
  split; [exact Hdb|]. now apply P_closed.
Qed.

Lemma keeps_executemany_upsert (b : list product) :
  keeps P (executemany_upsert E b).
Proof using P_closed.
  intros st r st' Hrun Hok. unfold executemany_upsert in Hrun.
  destruct (upsert_supported E).
  - exact (keeps_upsert_each b _ _ _ Hrun Hok).
  - now injection Hrun as _ <-.
Qed.

Lemma keeps_per_record_each (b : list product) :
  keeps P (per_record_each E b).
Proof using P_closed.
  induction b as [|p b IH]; [apply keeps_ret|].
  cbn [per_record_each]. apply keeps_bind; [|intros _; exact IH].
  unfold per_record. apply keeps_bind.
  - apply keeps_execute. now intros t a t' [= _ <-].
  - intros [i|]; apply keeps_bound, keeps_execute.
    + intros t a t' [= _ <-]. now apply P_closed.
    + intros t a t' Hins. destruct (insert p t) as [e|t1] eqn:Hi; [discriminate|].
      injection Hins as _ <-. exact (proj2 (proj2 P_closed) p t t1 Hi).
Qed.

Lemma keeps_flush_batch (depth : nat) : keeps P (flush_batch E depth).
Proof using P_closed.
  induction depth as [|d IH]; intros st r st' Hrun Hok.
  { now injection Hrun as _ <-. }
  cbn [flush_batch] in Hrun.
  destruct (batch st) as [|p b]; [now injection Hrun as _ <-|].
  set (step := if have_upsert st then executemany_upsert E (p :: b)
               else per_record_each E (p :: b)) in Hrun.
  assert (Hstep : keeps P step).
  { unfold step. destruct (have_upsert st);
      [apply keeps_executemany_upsert | apply keeps_per_record_each]. }
  destruct (step st) as [[u|e] st1] eqn:Hs; pose proof (Hstep _ _ _ Hs Hok) as Hok1.
  - now injection Hrun as _ <-.
  - destruct e; try (now injection Hrun as _ <-).
    destruct (flush_batch E d (set_have_upsert false st1)) as [[u|e] st2] eqn:Hrec;
      pose proof (IH _ _ _ Hrec Hok1) as Hok2; now injection Hrun as _ <-.
Qed.

Lemma process_rows_keeps_tables (depth n_headers : nat) (target_map : gmap string nat)
    (data : list (list str)) (st : state) :
  store_ok P st ->
  store_ok P (process_rows py_float E depth n_headers target_map data st).
Proof using P_closed.
  revert st. induction data as [|r data IH]; intros st Hok; [exact Hok|].
  rewrite process_rows_cons. apply IH. clear IH. unfold process_row.
  destruct (row_product py_float n_headers target_map r) as [p|]; [|exact Hok].
  set (st1 := set_batch _ _).
  destruct (BATCH_SIZE <=? length (batch st1))%nat; [|exact Hok].
  destruct (flush_batch E depth st1) as [[u|e] st2] eqn:Hrun;
    exact (keeps_flush_batch depth _ _ _ Hrun Hok).
Qed.

Lemma keeps_stream_and_commit (depth n_headers : nat) (target_map : gmap string nat)
    (data : list (list str)) :
  keeps P (stream_and_commit py_float E depth n_headers target_map data).
Proof using P_closed.
  unfold stream_and_commit. apply keeps_bind.
  - intros st r st' Hrun Hok.
    exact (keeps_flush_batch depth _ _ _ Hrun
             (process_rows_keeps_tables depth n_headers target_map data st Hok)).
  - intros _ st r st' Hrun [Hdb Hcur]. unfold commit in Hrun.
    destruct (faults E (clock st)); injection Hrun as _ <-; now split.
Qed.

(** Whatever a run does, the table it leaves satisfies what the table it
    found satisfied. *)
Lemma worker_keeps (depth : nat) (file_rows : list (list str)) (db0 : table) :
  P db0 -> P (db (worker py_float py_lower E depth file_rows db0).2).
Proof using P_closed.
  intros H0.
  assert (Hok0 : store_ok P (connect db0)) by (split; assumption).
  assert (Hbody : keeps P (import_body py_float py_lower E depth file_rows)).
  { unfold import_body. destruct file_rows as [|[|h hs] data];
      try (now intros st r st' [= _ <-]).
    apply keeps_bind; [|intros _; apply keeps_stream_and_commit].
    intros st r st' Hrun [Hdb Hcur]. unfold execute_begin in Hrun.
    destruct (faults E (clock st)); [injection Hrun as _ <-; now split|].
    destruct (txn st); injection Hrun as _ <-; now split. }
  unfold worker.
  destruct (import_body py_float py_lower E depth file_rows (connect db0))
    as [[u|e] st] eqn:Hrun;
    destruct (Hbody _ _ _ Hrun Hok0) as [Hdb _]; exact Hdb.
Qed.
End Keeps.

Lemma keys_closed : closed_under_writes keys_ok.
Proof.
  split; [|split].
  - intros p t [Hs Hi]. split; [now apply upsert_NoDup | now apply ids_upsert_NoDup].
  - intros p t [Hs Hi]. split;
      [now rewrite skus_update_where_sku | now rewrite ids_update_where_sku].
  - intros p t t' Hins Hk.
    assert (Hup : upsert p t = t') by (unfold upsert; now rewrite Hins).
    rewrite <- Hup. destruct Hk as [Hs Hi].
    split; [now apply upsert_NoDup | now apply ids_upsert_NoDup].
Qed.

Lemma extends_closed (t0 : table) : closed_under_writes (extends t0).
Proof.
  assert (Hup : forall p t, extends t0 t -> extends t0 (upsert p t)).
  { intros p t [Hi Hs]. split.
    - etransitivity; [exact Hi|]. rewrite ids_upsert.
      destruct (existsb _ (rows t)); [done | now apply prefix_app_r].
    - etransitivity; [exact Hs|]. rewrite skus_upsert.
      destruct (existsb _ (rows t)); [done | now apply prefix_app_r]. }
  split; [exact Hup|]. split.
  - intros p t [Hi Hs]. split;
      [now rewrite ids_update_where_sku | now rewrite skus_update_where_sku].
  - intros p t t' Hins Hk.
    assert (Heq : upsert p t = t') by (unfold upsert; now rewrite Hins).
    rewrite <- Heq. now apply Hup.
Qed.

(** X23: whatever the store does (calls that fail, a library without the
    upsert form, a recursion limit that is hit) and whatever the file
    holds, a run leaves a table in which no sku and no id occurs twice,
    when it found one. *)
Theorem import_keeps_keys_unique (py_float : str -> option float)
    (py_lower : str -> str) (E : store_env) (depth : nat)
    (file_rows : list (list str)) (db0 : table) :
  NoDup (skus db0) -> NoDup (ids db0) ->
  NoDup (skus (db (worker py_float py_lower E depth file_rows db0).2))
  /\ NoDup (ids (db (worker py_float py_lower E depth file_rows db0).2)).
Proof.
  intros Hs Hi.
  exact (worker_keeps py_float py_lower E keys_ok keys_closed depth file_rows db0
           (conj Hs Hi)).
Qed.

Lemma import_keeps_keys_unique_witness :
  let E := failing_once 2 (IntegrityError (py "constraint failed")) in
  let old := mkRow 7 (mkProduct (py "A1") (py "Ink") 2%float 5 [] [] [] []) in
  let run := worker short_decimal PyStr.lower E 2
               [[py "sku"; py "name"]; [py "A1"; py "Pen"]; [py "B2"; py "Nib"]]
               (mkTable [old] 7) in
  NoDup (skus (db run.2)) /\ NoDup (ids (db run.2)).
Proof.
  intros E old run.
  apply (import_keeps_keys_unique short_decimal PyStr.lower E 2 _ (mkTable [old] 7)).
  - apply (bool_decide_unpack _). vm_compute. exact I.
  - apply (bool_decide_unpack _). vm_compute. exact I.
Defined.

(** ** C1: a store failure in a mid-stream flush *)

(** C1, on a file of 1000 rows with a store whose call 501 (the first
    tuple of the second batch) fails with a [DatabaseError]: the handler
    of the row catches the error of [flush_batch], counts line 1001 as
    skipped and the loop goes on; the flush at the end of the stream sends
    the batch again and the run commits all 1000 rows instead of rolling
    back and failing. *)
Theorem midstream_store_failure_is_swallowed :
  let E := failing_once 501 (DatabaseError (py "database disk image is malformed")) in
  let run := worker short_decimal PyStr.lower E 1000 (bulk_file 1000) no_rows in
  (run.1, length (rows (db run.2)))
  = (Done 1 [py "[Line 1001] database disk image is malformed"], 1000%nat).
Proof. vm_compute. reflexivity. Qed.

(** ** Runs on a store where no call fails *)

Lemma stocks_fit_forallb (py_float : str -> option float) (tm : gmap string nat)
    (data : list (list str)) :
  forallb (fun r => fits_int64 (_to_int py_float (cell_under tm r "stock"))) data = true ->
  stocks_fit py_float tm data.
Proof.
  intros H r Hr _. rewrite forallb_forall in H. apply H. now apply list_elem_of_In.
Qed.

Lemma rev_fallback_calls_cons (p : product) (b : list product) (present : list str) :
  rev (fallback_calls (p :: b) present)
  = rev (fallback_calls b (if bool_decide (p_sku p ∈ present) then present
                           else present ++ [p_sku p]))
    ++ [(if bool_decide (p_sku p ∈ present) then SUpdate p else SInsert p);
        SSelect (p_sku p)].
Proof.
  cbn [fallback_calls]. destruct (bool_decide (p_sku p ∈ present));
    cbn [rev]; now rewrite <- app_assoc.
Qed.

Section SoundStore.
Variable py_float : str -> option float.
Variable E : store_env.
Hypothesis no_faults : forall n, faults E n = None.

Lemma upsert_each_ok (b : list product) (st : state) :
  bindable b ->
  exists st', upsert_each E b st = (Ok tt, st')
              /\ cur_table st' = apply_batch b (cur_table st)
              /\ log st' = log st.
Proof using no_faults.
  revert st. induction b as [|p b IH]; intros st Hb; [now exists st|].
  apply Forall_cons in Hb as [Hp Hb].
  cbn [upsert_each]. unfold bind, upsert_step, bound. rewrite Hp, no_faults.
  destruct (IH (set_txn (Some (upsert p (cur_table st))) (tick st)) Hb)
    as (st' & -> & Hc & Hl).
  now exists st'.
Qed.

(** The three statements of the per-record path for one tuple. *)
Lemma per_record_ok (p : product) (st : state) :
  NoDup (skus (cur_table st)) -> fits_int64 (p_stock p) = true ->
  exists st', per_record E p st = (Ok tt, st')
              /\ records (cur_table st') = put p (records (cur_table st))
              /\ log st' = (if bool_decide (p_sku p ∈ skus (cur_table st))
                            then SUpdate p else SInsert p)
                           :: SSelect (p_sku p) :: log st.
Proof using no_faults.
  intros Hnd Hfit. unfold per_record, bind, execute_select, execute.
  rewrite no_faults.
  set (st1 := set_txn (Some (cur_table st)) (tick (issue (SSelect (p_sku p)) st))).
  assert (Hc1 : cur_table st1 = cur_table st) by reflexivity.
  destruct (select_id (p_sku p) (cur_table st)) as [i|] eqn:Hsel.
  - assert (Hin : p_sku p ∈ skus (cur_table st)).
    { apply select_id_is_Some. rewrite Hsel. now exists i. }
    unfold execute_update, bound, execute. rewrite Hfit, no_faults, Hc1.
    eexists. split; [reflexivity|]. split.
    + change (records (update_where_sku p (cur_table st)) = put p (records (cur_table st))).
      now apply records_update_where_sku.
    + now rewrite bool_decide_eq_true_2 by exact Hin.
  - assert (Hnot : p_sku p ∉ skus (cur_table st)).
    { intros Hin. apply select_id_is_Some in Hin as [i Hi]. congruence. }
    unfold execute_insert, bound, execute. rewrite Hfit, no_faults, Hc1.
    destruct (insert p (cur_table st)) as [e|t'] eqn:Hins.
    { exfalso. unfold insert in Hins.
      destruct (existsb _ _) eqn:Hex; [|discriminate].
      apply existsb_has_sku in Hex. done. }
    eexists. split; [reflexivity|]. split.
    + change (records t' = put p (records (cur_table st))).
      exact (proj1 (records_insert _ _ _ Hins)).
    + now rewrite bool_decide_eq_false_2 by exact Hnot.
Qed.

Lemma per_record_each_ok (b : list product) (st : state) :
  NoDup (skus (cur_table st)) -> bindable b ->
  exists st', per_record_each E b st = (Ok tt, st')
              /\ records (cur_table st') = put_all b (records (cur_table st))
              /\ log st' = rev (fallback_calls b (skus (cur_table st))) ++ log st.
Proof using no_faults.
  revert st. induction b as [|p b IH]; intros st Hnd Hb; [now exists st|].
  apply Forall_cons in Hb as [Hp Hb].
  cbn [per_record_each]. unfold bind.
  destruct (per_record_ok p st Hnd Hp) as (st1 & -> & Hr1 & Hl1).
  assert (Hs1 : skus (cur_table st1)
                = if bool_decide (p_sku p ∈ skus (cur_table st))
                  then skus (cur_table st) else skus (cur_table st) ++ [p_sku p]).
  { rewrite (skus_records (cur_table st1)), Hr1, skus_put.
    now rewrite <- (skus_records (cur_table st)). }
  destruct (IH st1) as (st' & -> & Hr & Hl); [|exact Hb|].
  { rewrite (skus_records (cur_table st1)), Hr1. apply put_NoDup.
    now rewrite <- skus_records. }
  exists st'. split; [done|]. split.
  - cbn [put_all fold_left]. now rewrite Hr, Hr1.
  - rewrite Hl, Hl1, rev_fallback_calls_cons, Hs1, <- app_assoc.
    now destruct (bool_decide (p_sku p ∈ skus (cur_table st))).
Qed.

Lemma flush_batch_S (d : nat) (st : state) :
  flush_batch E (S d) st
  = match batch st with
    | [] => (Ok tt, st)
    | _ :: _ =>
        match (if have_upsert st then executemany_upsert E (batch st)
               else per_record_each E (batch st)) st with
        | (Ok _, st1) => (Ok tt, set_batch [] st1)
        | (Raise (OperationalError _), st1) =>
            match flush_batch E d (set_have_upsert false st1) with
            | (Ok _, st2) => (Ok tt, set_batch [] st2)
            | (Raise e, st2) => (Raise e, st2)
            end
        | (Raise e, st1) => (Raise e, st1)
        end
    end.
Proof. reflexivity. Qed.

(** A flush that goes straight to the per-record path. *)
Lemma flush_batch_per_record_ok (depth : nat) (st : state) :
  have_upsert st = false -> NoDup (skus (cur_table st)) -> bindable (batch st) ->
  exists st', flush_batch E (S depth) st = (Ok tt, st')
              /\ records (cur_table st') = put_all (batch st) (records (cur_table st))
              /\ batch st' = [] /\ have_upsert st' = false
              /\ log st' = rev (fallback_calls (batch st) (skus (cur_table st))) ++ log st.
Proof using no_faults.
  intros Hflag Hnd Hbind. rewrite flush_batch_S, Hflag.
  destruct (batch st) as [|p b] eqn:Hb.
  { exists st. rewrite Hb. repeat split; done. }
  destruct (per_record_each_ok (p :: b) st Hnd Hbind) as (st1 & Hrun & Hr & Hl).
  rewrite Hrun.
  destruct (issues_only_per_record_each E _ _ _ _ Hrun) as (_ & H2 & _).
  exists (set_batch [] st1). repeat split; try done.
  simpl. congruence.
Qed.

(** A flush on a store where no call fails: the batch is applied and
    emptied, through [executemany] or, when the library rejects the
    upsert form or the flag is already false, record by record. *)
Lemma flush_batch_ok (depth : nat) (st : state) :
  (2 <= depth)%nat -> NoDup (skus (cur_table st)) -> bindable (batch st) ->
  exists st', flush_batch E depth st = (Ok tt, st')
              /\ records (cur_table st') = put_all (batch st) (records (cur_table st))
              /\ batch st' = []
              /\ (batch st <> [] -> upsert_supported E = false -> have_upsert st' = false).
Proof using no_faults.
  intros Hdepth Hnd Hbind. destruct depth as [|[|d]]; try lia.
  destruct (have_upsert st) eqn:Hflag.
  2:{ destruct (flush_batch_per_record_ok (S d) st Hflag Hnd Hbind)
        as (st' & Hrun & Hc & Hb & Hf & _).
      exists st'. repeat split; done. }
  rewrite flush_batch_S, Hflag.
  destruct (batch st) as [|p b] eqn:Hb.
  { exists st. rewrite Hb. repeat split; done. }
  unfold executemany_upsert. destruct (upsert_supported E) eqn:Hsup.
  - destruct (upsert_each_ok (p :: b) (issue (SUpsertMany (p :: b)) st) Hbind)
      as (st1 & -> & Hc & _).
    exists (set_batch [] st1). repeat split; try done.
    change (records (cur_table st1) = put_all (p :: b) (records (cur_table st))).
    rewrite Hc. now apply records_apply_batch.
  - cbn [upsert_rejected].
    set (st1 := set_have_upsert false (issue (SUpsertMany (p :: b)) st)).
    assert (Hbind1 : bindable (batch st1)) by (unfold st1; simpl; now rewrite Hb).
    destruct (flush_batch_per_record_ok d st1 eq_refl Hnd Hbind1)
      as (st' & Hrun & Hc & Hb' & Hf & _).
    rewrite Hrun. exists (set_batch [] st'). unfold st1 in Hc. simpl in Hc.
    rewrite Hb in Hc. repeat split; try done.
Qed.

Lemma NoDup_after_flush (st st' : state) :
  NoDup (skus (cur_table st)) ->
  records (cur_table st') = put_all (batch st) (records (cur_table st)) ->
  NoDup (skus (cur_table st')).
Proof.
  intros Hnd Hr. rewrite skus_records, Hr. apply put_all_NoDup.
  now rewrite <- skus_records.
Qed.

Variables (depth n_headers : nat) (target_map : gmap string nat).
Hypothesis depth_ok : (2 <= depth)%nat.

Lemma process_row_pending (d0 : list product) (acc : list product) (st : state)
    (r : list str) :
  bindable (accepted py_float n_headers target_map [r]) ->
  pending_ok d0 acc st ->
  pending_ok d0 (acc ++ accepted py_float n_headers target_map [r])
    (process_row py_float E depth n_headers target_map st r).
Proof using no_faults depth_ok.
  intros Hfit (Hnd & Hbind & Heq).
  assert (Hacc : accepted py_float n_headers target_map [r]
                 = match row_product py_float n_headers target_map r with
                   | Some p => [p]
                   | None => []
                   end) by reflexivity.
  rewrite Hacc in *. clear Hacc. unfold process_row.
  destruct (row_product py_float n_headers target_map r) as [p|].
  - set (st1 := set_batch (batch _ ++ [p]) _).
    assert (Hc1 : cur_table st1 = cur_table st) by reflexivity.
    assert (Hb1 : batch st1 = batch st ++ [p]) by reflexivity.
    assert (Hbind1 : bindable (batch st1)).
    { rewrite Hb1. apply Forall_app. now split. }
    assert (Heq1 : put_all (batch st1) (records (cur_table st1)) = put_all (acc ++ [p]) d0).
    { now rewrite Hb1, Hc1, !put_all_snoc, Heq. }
    destruct (BATCH_SIZE <=? length (batch st1))%nat.
    + destruct (flush_batch_ok depth st1 depth_ok) as (st' & -> & Hc & Hb & _);
        [now rewrite Hc1 | exact Hbind1 |].
      split; [|split].
      * apply (NoDup_after_flush st1); [now rewrite Hc1 | exact Hc].
      * rewrite Hb. apply Forall_nil_2.
      * now rewrite Hb, Hc.
    + split; [now rewrite Hc1 | split; [exact Hbind1 | exact Heq1]].
  - rewrite app_nil_r. split; [exact Hnd | split; [exact Hbind | exact Heq]].
Qed.

Lemma accepted_cons (r : list str) (data : list (list str)) :
  accepted py_float n_headers target_map (r :: data)
  = accepted py_float n_headers target_map [r]
    ++ accepted py_float n_headers target_map data.
Proof.
  unfold accepted. cbn [omap list_omap app].
  now destruct (row_product py_float n_headers target_map r).
Qed.

Lemma process_rows_pending (d0 : list product) (data : list (list str))
    (acc : list product) (st : state) :
  bindable (accepted py_float n_headers target_map data) ->
  pending_ok d0 acc st ->
  pending_ok d0 (acc ++ accepted py_float n_headers target_map data)
    (process_rows py_float E depth n_headers target_map data st).
Proof using no_faults depth_ok.
  revert acc st. induction data as [|r data IH]; intros acc st Hfit Hinv.
  - simpl. now rewrite app_nil_r.
  - rewrite process_rows_cons. rewrite accepted_cons in Hfit |- *.
    apply Forall_app in Hfit as [Hr Hfit].
    pose proof (IH _ _ Hfit (process_row_pending d0 acc st r Hr Hinv)) as H.
    now rewrite <- app_assoc in H.
Qed.

(** From an open transaction to the commit. *)
Lemma stream_and_commit_ok (data : list (list str)) (st : state) :
  batch st = [] -> NoDup (skus (cur_table st)) ->
  bindable (accepted py_float n_headers target_map data) ->
  exists st', stream_and_commit py_float E depth n_headers target_map data st = (Ok tt, st')
              /\ records (db st')
                 = put_all (accepted py_float n_headers target_map data)
                     (records (cur_table st))
              /\ NoDup (skus (db st')).
Proof using no_faults depth_ok.
  intros Hb Hnd Hfit. unfold stream_and_commit, bind.
  assert (Hinv : pending_ok (records (cur_table st)) [] st).
  { split; [exact Hnd|]. rewrite Hb. split; [apply Forall_nil_2 | reflexivity]. }
  destruct (process_rows_pending _ data _ _ Hfit Hinv) as (Hnd1 & Hbind1 & Heq1).
  destruct (flush_batch_ok depth _ depth_ok Hnd1 Hbind1) as (st1 & -> & Hc & _).
  unfold commit. rewrite no_faults. eexists. split; [reflexivity|].
  split.
  - change (records (cur_table st1)
            = put_all (accepted py_float n_headers target_map data) (records (cur_table st))).
    now rewrite Hc, Heq1.
  - change (NoDup (skus (cur_table st1))). exact (NoDup_after_flush _ st1 Hnd1 Hc).
Qed.
End SoundStore.

(** A whole run on a store where no call fails, with or without the
    upsert form: it commits, and the records of the table are those it
    found with the tuples of the acceptable rows put into them in file
    order. *)
Lemma worker_ok (py_float : str -> option float) (py_lower : str -> str)
    (E : store_env) (depth : nat)
    (raw_headers : list str) (data : list (list str)) (db0 : table) :
  (forall n, faults E n = None) -> (2 <= depth)%nat ->
  raw_headers <> [] -> NoDup (skus db0) ->
  stocks_fit py_float (_build_header_map (headers_of py_lower raw_headers)) data ->
  exists k msgs st,
    worker py_float py_lower E depth (raw_headers :: data) db0 = (Done k msgs, st)
    /\ records (db st)
       = put_all (tuples_of py_float (_build_header_map (headers_of py_lower raw_headers)) data)
           (records db0)
    /\ NoDup (skus (db st)).
Proof.
  intros Hnf Hdepth Hhdr Hnd Hfit. destruct raw_headers as [|h hs]; [done|].
  unfold worker, import_body. fold (headers_of py_lower (h :: hs)).
  unfold bind at 1. unfold execute_begin. rewrite Hnf. cbn [connect txn db].
  set (s0 := set_txn _ _).
  destruct (stream_and_commit_ok py_float E Hnf depth
              (length (headers_of py_lower (h :: hs)))
              (_build_header_map (headers_of py_lower (h :: hs)))
              Hdepth data s0 eq_refl Hnd) as (st & -> & Hdb & Hnd').
  { rewrite accepted_tuples. now apply tuples_bindable. }
  exists (skipped st), (error_lines st), (close st).
  split; [reflexivity|]. split; [|exact Hnd'].
  rewrite accepted_tuples in Hdb. exact Hdb.
Qed.

(** What the table holds, after the tuples of the acceptable rows have
    been put, for the sku of a row that is the last acceptable one with
    its sku. *)
Lemma last_row_is_stored (py_float : str -> option float) (hdrs : list str)
    (data : list (list str)) (t t0 : table) (r : list str) :
  NoDup (skus t) ->
  records t = put_all (tuples_of py_float (_build_header_map hdrs) data) (records t0) ->
  last_of_its_sku (_build_header_map hdrs) data r ->
  exists x, filter (fun x => r_sku x = cell_under (_build_header_map hdrs) r "sku") (rows t)
            = [x]
            /\ r_product x = tuple_of py_float (_build_header_map hdrs) r.
Proof.
  intros Hnd Hrec Hlast. apply row_of_record; [exact Hnd|].
  rewrite Hrec, find_put_all.
  now rewrite (last_with_sku_tuples py_float hdrs data r Hlast).
Qed.

(** ** Last write wins, idempotence, and the sticky fallback *)

(** C10: on a store where no call fails, with or without the upsert form,
    and a file whose stocks fit 64 bits, a run commits and the table then
    holds, for a row of the file that is the last acceptable one with its
    sku, exactly one row with that sku, and its columns are the cleaned
    cells of that row, price and stock coerced; the earlier rows with the
    sku and the position of the duplicates relative to the batches of 500
    play no part. *)
Theorem duplicate_sku_last_row_wins (py_float : str -> option float)
    (py_lower : str -> str) (E : store_env)
    (depth : nat) (raw_headers : list str) (data : list (list str)) (db0 : table)
    (r : list str) :
  (forall n, faults E n = None) -> (2 <= depth)%nat ->
  raw_headers <> [] -> NoDup (skus db0) ->
  stocks_fit py_float (_build_header_map (headers_of py_lower raw_headers)) data ->
  last_of_its_sku (_build_header_map (headers_of py_lower raw_headers)) data r ->
  exists n msgs st x,
    worker py_float py_lower E depth (raw_headers :: data) db0 = (Done n msgs, st)
    /\ filter (fun x => r_sku x
                        = cell_under (_build_header_map (headers_of py_lower raw_headers))
                            r "sku") (rows (db st)) = [x]
    /\ r_product x
       = let cell := cell_under (_build_header_map (headers_of py_lower raw_headers)) r in
         mkProduct (cell "sku") (cell "name") (_to_float py_float (cell "price"))
           (_to_int py_float (cell "stock")) (cell "category") (cell "status")
           (cell "image_path") (cell "description").
Proof.
  intros Hnf Hdepth Hhdr Hnd Hfit Hlast.
  destruct (worker_ok py_float py_lower E depth raw_headers data db0
              Hnf Hdepth Hhdr Hnd Hfit) as (n & msgs & st & Hrun & Hrec & Hnd').
  destruct (last_row_is_stored py_float _ data (db st) db0 r Hnd' Hrec Hlast)
    as (x & Hf & Hx).
  exists n, msgs, st, x. split; [exact Hrun|]. split; [exact Hf | exact Hx].
Qed.

Lemma duplicate_sku_last_row_wins_witness :
  exists n msgs st x,
    worker short_decimal PyStr.lower (sound_store false) 2
      ([py "SKU"; py "Name"; py "Qty"]
       :: [[py "A1"; py "Widget"; py "1"]; [py "B2"; py "Gadget"; py "2"];
           [py "A1"; py " Widget v2 "; py "7"]]) no_rows
    = (Done n msgs, st)
    /\ filter (fun x => r_sku x = py "A1") (rows (db st)) = [x]
    /\ r_product x = mkProduct (py "A1") (py "Widget v2") 0 7 [] [] [] [].
Proof.
  apply (duplicate_sku_last_row_wins short_decimal PyStr.lower (sound_store false) 2
           [py "SKU"; py "Name"; py "Qty"]
           [[py "A1"; py "Widget"; py "1"]; [py "B2"; py "Gadget"; py "2"];
            [py "A1"; py " Widget v2 "; py "7"]]
           no_rows [py "A1"; py " Widget v2 "; py "7"]).
  - reflexivity.
  - lia.
  - discriminate.
  - apply NoDup_nil_2.
  - apply stocks_fit_forallb. vm_compute. reflexivity.
  - split; [vm_compute; reflexivity|].
    exists [[py "A1"; py "Widget"; py "1"]; [py "B2"; py "Gadget"; py "2"]], [].
    split; [reflexivity|]. intros r' Hr'. inversion Hr'.
Defined.

Example duplicate_sku_same_batch :
  rows (db (worker short_decimal PyStr.lower (sound_store true) 2
              ([py "sku"; py "name"; py "qty"]
               :: [[py "A1"; py "Widget"; py "1"]; [py "B2"; py "Gadget"; py "2"];
                   [py "A1"; py "Widget v2"; py "7"]]) no_rows).2)
  = [mkRow 1 (mkProduct (py "A1") (py "Widget v2") 0 7 [] [] [] []);
     mkRow 2 (mkProduct (py "B2") (py "Gadget") 0 2 [] [] [] [])].
Proof. vm_compute. reflexivity. Qed.

(** The same sku in the first and in the second batch of a file of 501
    rows, with and without the upsert form. *)
Example duplicate_sku_across_batches :
  let file := bulk_file 500 ++ [[py "item1"; py "Again"]] in
  (fun ok => r_product <$> find (has_sku (py "item1"))
               (rows (db (worker short_decimal PyStr.lower (sound_store ok) 2 file no_rows).2)))
  <$> [true; false]
  = [Some (mkProduct (py "item1") (py "Again") 0 0 [] [] [] []);
     Some (mkProduct (py "item1") (py "Again") 0 0 [] [] [] [])].
Proof. vm_compute. reflexivity. Qed.

(** The two write paths give the same records and not the same ids: with
    [AUTOINCREMENT] an upsert that meets its sku uses up the id it was
    given, so the next new sku skips one; the per-record path inserts
    only new skus. *)
Example upsert_conflict_consumes_an_id :
  let file := [py "sku"; py "name"]
              :: [[py "A1"; py "Widget"]; [py "A1"; py "Widget v2"]; [py "B2"; py "Gadget"]] in
  (fun ok => let t := db (worker short_decimal PyStr.lower (sound_store ok) 2 file no_rows).2 in
             (ids t, sequence t, p_name <$> records t))
  <$> [true; false]
  = [([1; 3], 3, [py "Widget v2"; py "Gadget"]);
     ([1; 2], 2, [py "Widget v2"; py "Gadget"])]%Z.
Proof. vm_compute. reflexivity. Qed.

Lemma prefix_same_length {A} (l1 l2 : list A) :
  l1 `prefix_of` l2 -> length l1 = length l2 -> l1 = l2.
Proof.
  intros [k ->] Hlen. rewrite length_app in Hlen.
  destruct k; [now rewrite app_nil_r | simpl in Hlen; lia].
Qed.

(** C2: on stores where no call fails, importing a file whose stocks fit
    64 bits and importing it again on the table the first run committed
    leaves the rows of that table as they are, ids included (the counter
    of [AUTOINCREMENT] may have advanced): no sku occurs twice, and
    every row of the file that is the last acceptable one with its sku
    has exactly one row in the table, whose columns are the cleaned cells
    of that row, price and stock coerced.  The two runs may use the upsert
    form or the per-record path, in any combination. *)
Theorem import_twice_is_import_once (py_float : str -> option float)
    (py_lower : str -> str)
    (E1 E2 : store_env) (depth : nat) (raw_headers : list str)
    (data : list (list str)) (db0 : table) :
  (forall n, faults E1 n = None) -> (forall n, faults E2 n = None) ->
  (2 <= depth)%nat -> raw_headers <> [] -> NoDup (skus db0) ->
  stocks_fit py_float (_build_header_map (headers_of py_lower raw_headers)) data ->
  exists n1 msgs1 st1 n2 msgs2 st2,
    worker py_float py_lower E1 depth (raw_headers :: data) db0 = (Done n1 msgs1, st1)
    /\ worker py_float py_lower E2 depth (raw_headers :: data) (db st1) = (Done n2 msgs2, st2)
    /\ rows (db st2) = rows (db st1)
    /\ NoDup (skus (db st2))
    /\ forall r,
         last_of_its_sku (_build_header_map (headers_of py_lower raw_headers)) data r ->
         exists x,
           filter (fun x => r_sku x
                            = cell_under (_build_header_map (headers_of py_lower raw_headers))
                                r "sku") (rows (db st2)) = [x]
           /\ r_product x
              = let cell := cell_under (_build_header_map (headers_of py_lower raw_headers)) r in
                mkProduct (cell "sku") (cell "name") (_to_float py_float (cell "price"))
                  (_to_int py_float (cell "stock")) (cell "category") (cell "status")
                  (cell "image_path") (cell "description").
Proof.
  intros Hnf1 Hnf2 Hdepth Hhdr Hnd Hfit.
  destruct (worker_ok py_float py_lower E1 depth raw_headers data db0
              Hnf1 Hdepth Hhdr Hnd Hfit) as (n1 & msgs1 & st1 & Hrun1 & Hrec1 & Hnd1).
  destruct (worker_ok py_float py_lower E2 depth raw_headers data (db st1)
              Hnf2 Hdepth Hhdr Hnd1 Hfit) as (n2 & msgs2 & st2 & Hrun2 & Hrec2 & Hnd2).
  assert (Hrec : records (db st2) = records (db st1)).
  { rewrite Hrec2, Hrec1. apply put_all_idempotent. now rewrite <- skus_records. }
  assert (Hext : extends (db st1) (db st2)).
  { pose proof (worker_keeps py_float py_lower E2 (extends (db st1))
                  (extends_closed (db st1)) depth (raw_headers :: data) (db st1)) as H.
    rewrite Hrun2 in H. apply H. split; reflexivity. }
  assert (Hids : ids (db st1) = ids (db st2)).
  { apply prefix_same_length; [exact (proj1 Hext)|].
    unfold ids. rewrite !length_fmap.
    apply (f_equal length) in Hrec. unfold records in Hrec.
    rewrite !length_fmap in Hrec. congruence. }
  exists n1, msgs1, st1, n2, msgs2, st2.
  split; [exact Hrun1|]. split; [exact Hrun2|].
  split; [now apply rows_by_ids_and_records|].
  split; [exact Hnd2|].
  intros r Hlast.
  apply (last_row_is_stored py_float _ data (db st2) db0 r Hnd2); [|exact Hlast].
  now rewrite Hrec.
Qed.

Lemma import_twice_is_import_once_witness :
  exists n1 msgs1 st1 n2 msgs2 st2,
    worker short_decimal PyStr.lower (sound_store true) 2
      ([py "sku"; py "name"] :: [[py "A1"; py "Widget"]; [py "A1"; py "Widget v2"]])
      no_rows
    = (Done n1 msgs1, st1)
    /\ worker short_decimal PyStr.lower (sound_store false) 2
         ([py "sku"; py "name"] :: [[py "A1"; py "Widget"]; [py "A1"; py "Widget v2"]])
         (db st1)
       = (Done n2 msgs2, st2)
    /\ rows (db st2) = rows (db st1)
    /\ NoDup (skus (db st2))
    /\ exists x, filter (fun x => r_sku x = py "A1") (rows (db st2)) = [x]
                 /\ r_product x = mkProduct (py "A1") (py "Widget v2") 0 0 [] [] [] [].
Proof.
  destruct (import_twice_is_import_once short_decimal PyStr.lower
              (sound_store true) (sound_store false)
              2 [py "sku"; py "name"] [[py "A1"; py "Widget"]; [py "A1"; py "Widget v2"]]
              no_rows)
    as (n1 & m1 & st1 & n2 & m2 & st2 & H1 & H2 & H3 & H4 & H5).
  - reflexivity.
  - reflexivity.
  - lia.
  - discriminate.
  - apply NoDup_nil_2.
  - apply stocks_fit_forallb. vm_compute. reflexivity.
  - exists n1, m1, st1, n2, m2, st2. split; [exact H1|]. split; [exact H2|].
    split; [exact H3|]. split; [exact H4|].
    apply (H5 [py "A1"; py "Widget v2"]).
    split; [vm_compute; reflexivity|].
    exists [[py "A1"; py "Widget"]], []. split; [reflexivity|].
    intros r' Hr'. inversion Hr'.
Defined.

(** The second import changes no row and, through the upsert form, uses
    up one id per row of the file. *)
Example second_import_advances_the_counter :
  let file := [py "sku"; py "name"] :: [[py "A1"; py "Widget"]; [py "B2"; py "Gadget"]] in
  let t1 := db (worker short_decimal PyStr.lower (sound_store true) 2 file no_rows).2 in
  let t2 := db (worker short_decimal PyStr.lower (sound_store true) 2 file t1).2 in
  (ids t1, sequence t1, ids t2, sequence t2) = ([1; 2], 2, [1; 2], 4)%Z
  /\ rows t2 = rows t1.
Proof. vm_compute. split; reflexivity. Qed.

(** C5: when the library rejects the upsert form and no other call
    fails, the flush that meets the rejection issues the [executemany]
    once and then, for each tuple of the batch in order, the [SELECT] of
    its sku followed by the [UPDATE] of the row when the sku is stored and
    by the [INSERT] when it is not, and nothing else; the records of the
    table are then those before with the tuples of the batch put into
    them, and [have_upsert] is false.  From there on, whatever the rest of
    the file and whichever calls fail later, the flag is false at the end
    of the run and no further [executemany] of the upsert statement is
    issued. *)
Theorem fallback_is_sticky (py_float : str -> option float) (E : store_env)
    (depth : nat) (st : state) :
  (forall n, faults E n = None) -> upsert_supported E = false ->
  (2 <= depth)%nat ->
  have_upsert st = true -> batch st <> [] -> NoDup (skus (cur_table st)) ->
  bindable (batch st) ->
  exists st',
    flush_batch E depth st = (Ok tt, st')
    /\ have_upsert st' = false /\ batch st' = []
    /\ log st' = rev (fallback_calls (batch st) (skus (cur_table st)))
                 ++ SUpsertMany (batch st) :: log st
    /\ records (cur_table st') = put_all (batch st) (records (cur_table st))
    /\ (forall p, p ∈ batch st ->
          r_product <$> find (has_sku (p_sku p)) (rows (cur_table st'))
          = last_with_sku (p_sku p) (batch st))
    /\ forall E' depth' n_headers target_map data r st'',
         stream_and_commit py_float E' depth' n_headers target_map data st' = (r, st'') ->
         have_upsert st'' = false
         /\ exists l', log st'' = l' ++ log st' /\ Forall not_upsert_many l'.
Proof.
  intros Hnf Hrej Hdepth Hflag Hne Hnd Hbind.
  destruct depth as [|[|d]]; try lia.
  rewrite (flush_batch_S E (S d)), Hflag.
  destruct (batch st) as [|p0 b] eqn:Hb; [done|].
  unfold executemany_upsert. rewrite Hrej. cbn [upsert_rejected].
  set (st1 := set_have_upsert false (issue (SUpsertMany (p0 :: b)) st)).
  assert (Hbind1 : bindable (batch st1)) by (unfold st1; simpl; now rewrite Hb).
  destruct (flush_batch_per_record_ok E Hnf d st1 eq_refl Hnd Hbind1)
    as (st2 & -> & Hc & Hb2 & Hf2 & Hl).
  unfold st1 in Hc, Hl. simpl in Hc, Hl. rewrite Hb in Hc, Hl.
  exists (set_batch [] st2).
  assert (Hcur : records (cur_table (set_batch [] st2))
                 = put_all (p0 :: b) (records (cur_table st))) by exact Hc.
  split; [reflexivity|]. split; [exact Hf2|]. split; [reflexivity|].
  split; [exact Hl|]. split; [exact Hcur|]. split.
  - intros p Hp. rewrite find_rows_records, Hcur, find_put_all.
    destruct (last_with_sku_is_Some (p_sku p) (p0 :: b)) as [q ->]; [|done].
    apply list_elem_of_fmap. now exists p.
  - intros E' depth' n tm data r st'' Hrun.
    exact (stream_and_commit_sticky py_float E' depth' n tm data (set_batch [] st2) st'' r
             Hf2 Hrun).
Qed.

Lemma fallback_is_sticky_witness :
  let old := mkRow 4 (mkProduct (py "B2") (py "Gizmo") 9 9 [] [] [] []) in
  let a := mkProduct (py "A1") (py "Widget") 5 10 [] [] [] [] in
  let b := mkProduct (py "B2") (py "Gadget") 1 3 [] [] [] [] in
  let st := mkState (mkTable [old] 4) (Some (mkTable [old] 4)) 1 [SBegin] true [a; b] 0 [] 3 in
  exists st',
    flush_batch (sound_store false) 2 st = (Ok tt, st')
    /\ have_upsert st' = false /\ batch st' = []
    /\ log st' = [SUpdate b; SSelect (py "B2"); SInsert a; SSelect (py "A1");
                  SUpsertMany [a; b]; SBegin]
    /\ records (cur_table st') = [b; a].
Proof.
  intros old a b st.
  destruct (fallback_is_sticky short_decimal (sound_store false) 2 st)
    as (st' & H1 & H2 & H3 & H4 & H5 & _).
  - reflexivity.
  - reflexivity.
  - lia.
  - reflexivity.
  - discriminate.
  - apply (bool_decide_unpack _). vm_compute. exact I.
  - apply (bool_decide_unpack _). vm_compute. exact I.
  - exists st'. split; [exact H1|]. split; [exact H2|]. split; [exact H3|].
    split; [exact H4 | exact H5].
Defined.

(** The scenario of the specification: 500 rows and one more on a library
    without the upsert form.  The first flush tries [executemany] once,
    and the whole run issues no second one; all 501 rows are committed. *)
Example rejected_upsert_run :
  let run := worker short_decimal PyStr.lower (sound_store false) 2
               (bulk_file 501) no_rows in
  (run.1, length (rows (db run.2)),
   length (filter (fun s => is_upsert_many s = true) (log run.2)))
  = (Done 0 [], 501%nat, 1%nat).
Proof. vm_compute. reflexivity. Qed.

(** ** What every run keeps, whatever the store does *)

Section Accounting.
Variable py_float : str -> option float.
Variable E : store_env.
Variables (depth n_headers : nat) (target_map : gmap string nat).

Lemma counted_step (st st1 : state) (x : str) :
  counted st -> skipped st1 = skipped st -> error_lines st1 = error_lines st ->
  line_no st1 = S (line_no st) ->
  counted st1 /\ counted (skip_with (line_tag (line_no st1) ++ x) st1).
Proof.
  intros (Hk & Hn & Hall) Hs He Hl.
  assert (Hall1 : Forall (fun m => exists n, (2 <= n <= line_no st1)%nat
                                             /\ (py "[Line " ++ py (pretty n) ++ py "] ")
                                                `prefix_of` m)
                    (error_lines st1)).
  { rewrite He. eapply Forall_impl; [exact Hall|].
    intros m (n & Hn' & Hp). exists n. split; [lia | exact Hp]. }
  split; [split; [congruence | split; [lia | exact Hall1]]|].
  unfold counted, skip_with. cbn [skipped error_lines line_no].
  split; [rewrite length_app, Hs, He; simpl; lia|]. split; [lia|].
  apply Forall_app. split; [exact Hall1|].
  constructor; [|constructor].
  exists (line_no st1). split; [lia|]. rewrite <- line_tag_text. now exists x.
Qed.

Lemma process_row_counted (st : state) (r : list str) :
  counted st -> counted (process_row py_float E depth n_headers target_map st r).
Proof.
  intros Hc. unfold process_row.
  set (st0 := set_line_no (S (line_no st)) st).
  destruct (row_product py_float n_headers target_map r) as [p|].
  - set (st1 := set_batch (batch st0 ++ [p]) st0).
    destruct (BATCH_SIZE <=? length (batch st1))%nat.
    + destruct (flush_batch E depth st1) as [[u|e] st'] eqn:Hrun;
        destruct (flush_batch_keeps E _ _ _ _ Hrun) as (_ & Hs & He & Hl & _).
      * now apply (counted_step st st' []).
      * now apply (counted_step st st' (exn_str e)).
    + now apply (counted_step st st1 []).
  - now apply (counted_step st st0 (py "Missing SKU or Name; row skipped.")).
Qed.

Lemma process_rows_counted (data : list (list str)) (st : state) :
  counted st -> counted (process_rows py_float E depth n_headers target_map data st).
Proof.
  revert st. induction data as [|r data IH]; intros st Hc; [exact Hc|].
  rewrite process_rows_cons. apply IH, process_row_counted, Hc.
Qed.
End Accounting.

(** X9: whatever the store does, a run that reaches the commit reports as
    many diagnostics as it counts skipped rows, at most one per data row,
    and each diagnostic opens with [[Line n] ], n the line of a data row
    of the file (the header is line 1). *)
Theorem skipped_counts_diagnostics (py_float : str -> option float)
    (py_lower : str -> str)
    (E : store_env) (depth : nat) (file_rows : list (list str)) (db0 : table)
    (k : nat) (msgs : list str) (st : state) :
  worker py_float py_lower E depth file_rows db0 = (Done k msgs, st) ->
  k = length msgs /\ (k < length file_rows)%nat
  /\ Forall (fun m => exists n, (2 <= n <= length file_rows)%nat
                                /\ (py "[Line " ++ py (pretty n) ++ py "] ") `prefix_of` m)
       msgs.
Proof.
  unfold worker. intros Hrun.
  destruct (import_body py_float py_lower E depth file_rows (connect db0))
    as [[u|e] st1] eqn:Hbody; [|discriminate].
  injection Hrun as <- <- _.
  destruct file_rows as [|[|h hs] data]; [discriminate..|].
  cbn [import_body] in Hbody. unfold bind in Hbody.
  destruct (execute_begin E (connect db0)) as [[u0|e0] st0] eqn:Hbegin;
    [|discriminate].
  assert (H0 : counted st0 /\ line_no st0 = 1%nat).
  { unfold execute_begin in Hbegin. cbn in Hbegin.
    destruct (faults E 0); [discriminate|]. injection Hbegin as _ <-.
    split; [|reflexivity]. split; [reflexivity|]. split; [simpl; lia|constructor]. }
  destruct H0 as [Hc0 Hl0].
  unfold stream_and_commit, bind in Hbody.
  set (n := length _) in Hbody. set (tm := _build_header_map _) in Hbody.
  pose proof (process_rows_counted py_float E depth n tm data st0 Hc0) as Hc.
  pose proof (proj2 (process_rows_keeps py_float E depth n tm data st0)) as Hl.
  destruct (flush_batch E depth (process_rows py_float E depth n tm data st0))
    as [[u1|e1] st2] eqn:Hflush; [|discriminate].
  destruct (flush_batch_keeps E _ _ _ _ Hflush) as (_ & Hs2 & He2 & Hl2 & _).
  unfold commit in Hbody. destruct (faults E (clock st2)); [discriminate|].
  injection Hbody as _ <-. cbn [skipped error_lines set_txn set_db tick issue].
  destruct Hc as (Hk & Hn & Hall). rewrite Hs2, He2.
  split; [exact Hk|]. split; [simpl; lia|].
  eapply Forall_impl; [exact Hall|].
  intros m (i & Hi & Hp). exists i. split; [simpl; lia | exact Hp].
Qed.

Lemma skipped_counts_diagnostics_witness :
  let E := failing_once 1 (DatabaseError (py "disk I/O error")) in
  let file := [py "sku"; py "name"] :: [py "A0"; py ""] :: tail (bulk_file 500) in
  let run := worker short_decimal PyStr.lower E 2 file no_rows in
  run.1 = Done 2 [py "[Line 2] Missing SKU or Name; row skipped.";
                  py "[Line 502] disk I/O error"]
  /\ 2%nat = length [py "[Line 2] Missing SKU or Name; row skipped.";
                     py "[Line 502] disk I/O error"]
  /\ (2 < length file)%nat
  /\ Forall (fun m => exists n, (2 <= n <= length file)%nat
                                /\ (py "[Line " ++ py (pretty n) ++ py "] ") `prefix_of` m)
       [py "[Line 2] Missing SKU or Name; row skipped."; py "[Line 502] disk I/O error"].
Proof.
  intros E file run.
  assert (H : run = (Done 2 [py "[Line 2] Missing SKU or Name; row skipped.";
                             py "[Line 502] disk I/O error"], run.2))
    by (vm_compute; reflexivity).
  split; [now rewrite H|].
  exact (skipped_counts_diagnostics short_decimal PyStr.lower E 2 file no_rows _ _ _ H).
Defined.

(** X10: a run that ends in the handler of the import has committed
    nothing: the table is the one the run found, no transaction is left
    open, and the last call on the connection is the rollback. *)
Theorem failed_import_commits_nothing (py_float : str -> option float)
    (py_lower : str -> str)
    (E : store_env) (depth : nat) (file_rows : list (list str)) (db0 : table)
    (msg : str) (st : state) :
  worker py_float py_lower E depth file_rows db0 = (Failed msg, st) ->
  db st = db0 /\ txn st = None /\ head (log st) = Some SRollback.
Proof.
  unfold worker.
  destruct (import_body py_float py_lower E depth file_rows (connect db0))
    as [[u|e] st1] eqn:Hb; [discriminate|].
  intros [= _ <-]. split; [|split; reflexivity].
  cbn [close rollback set_txn tick issue db].
  unfold import_body in Hb.
  destruct file_rows as [|[|h hs] data]; try (injection Hb as _ <-; reflexivity).
  unfold bind, execute_begin in Hb. cbn [connect clock txn db] in Hb.
  destruct (faults E 0); [injection Hb as _ <-; reflexivity|].
  now rewrite (stream_and_commit_failed_keeps_db _ _ _ _ _ _ _ _ _ Hb).
Qed.

Lemma failed_import_commits_nothing_witness :
  let E := failing_once 2 (DatabaseError (py "disk I/O error")) in
  let old := mkTable [mkRow 3 (mkProduct (py "Z9") (py "Ink") 0%float 1 [] [] [] [])] 3 in
  let run := worker short_decimal PyStr.lower E 2
               [[py "sku"; py "name"]; [py "A1"; py "Pen"]] old in
  run.1 = Failed (py "disk I/O error")
  /\ db run.2 = old /\ txn run.2 = None /\ head (log run.2) = Some SRollback.
Proof.
  intros E old run.
  assert (H : run = (Failed (py "disk I/O error"), run.2)) by (vm_compute; reflexivity).
  split; [now rewrite H|].
  exact (failed_import_commits_nothing short_decimal PyStr.lower E 2 _ old _ _ H).
Defined.

(** ** A store that keeps raising [OperationalError] *)

Section Locked.
Variable py_float : str -> option float.
Variable E : store_env.

Lemma flush_batch_locked (depth : nat) (st : state) :
  (forall n, (clock st <= n)%nat -> exists m, faults E n = Some (OperationalError m)) ->
  batch st <> [] -> bindable (batch st) ->
  exists st', flush_batch E depth st = (Raise (RecursionError (recursion_text E)), st')
              /\ batch st' = batch st /\ db st' = db st /\ txn st' = txn st
              /\ (clock st <= clock st')%nat.
Proof.
  revert st. induction depth as [|d IH]; intros st Hlocked Hb Hbind.
  { exists st. now repeat split. }
  rewrite flush_batch_S. destruct (batch st) as [|p b] eqn:Hbatch; [done|].
  pose proof (Forall_inv Hbind) as Hp. cbv beta in Hp.
  destruct (Hlocked (clock st) (le_n _)) as [m Hm].
  assert (Hstep : exists m1 st1,
            (if have_upsert st then executemany_upsert E (p :: b)
             else per_record_each E (p :: b)) st = (Raise (OperationalError m1), st1)
            /\ batch st1 = batch st /\ db st1 = db st /\ txn st1 = txn st
            /\ (clock st <= clock st1)%nat).
  { destruct (have_upsert st).
    - unfold executemany_upsert. destruct (upsert_supported E).
      + cbn [upsert_each]. unfold bind, upsert_step, bound. rewrite Hp.
        cbn [issue clock]. rewrite Hm. eexists _, _. split; [reflexivity|].
        repeat split; simpl; lia.
      + eexists _, _. split; [reflexivity|]. repeat split; simpl; lia.
    - cbn [per_record_each]. unfold bind, per_record, bind, execute_select, execute.
      rewrite Hm. eexists _, _. split; [reflexivity|].
      repeat split; simpl; lia. }
  destruct Hstep as (m1 & st1 & -> & Hb1 & Hd1 & Ht1 & Hc1).
  destruct (IH (set_have_upsert false st1)) as (st' & -> & Hb' & Hd' & Ht' & Hc').
  { intros n Hn. apply Hlocked. simpl in Hn. lia. }
  { simpl. rewrite Hb1, Hbatch. done. }
  { simpl. now rewrite Hb1, Hbatch. }
  exists st'. simpl in *. repeat split; try congruence. lia.
Qed.

Variables (depth n_headers : nat) (target_map : gmap string nat).

Lemma process_rows_locked (data : list (list str)) (st : state) :
  (forall n, (clock st <= n)%nat -> exists m, faults E n = Some (OperationalError m)) ->
  bindable (batch st) -> bindable (accepted py_float n_headers target_map data) ->
  let st' := process_rows py_float E depth n_headers target_map data st in
  batch st' = batch st ++ accepted py_float n_headers target_map data
  /\ (clock st <= clock st')%nat.
Proof.
  revert st. induction data as [|r data IH]; intros st Hlocked Hbind Hfit.
  { simpl. rewrite app_nil_r. split; [done | lia]. }
  cbn zeta. rewrite process_rows_cons.
  rewrite (accepted_cons py_float n_headers target_map r data) in Hfit.
  apply Forall_app in Hfit as [Hr Hfit].
  assert (Hrow : batch (process_row py_float E depth n_headers target_map st r)
                 = batch st ++ accepted py_float n_headers target_map [r]
                 /\ (clock st <= clock (process_row py_float E depth n_headers target_map st r))%nat).
  { unfold process_row, accepted in *. cbn [omap list_omap] in *.
    destruct (row_product py_float n_headers target_map r) as [p|].
    - set (st1 := set_batch _ _).
      destruct (BATCH_SIZE <=? length (batch st1))%nat; [|split; [done | simpl; lia]].
      destruct (flush_batch_locked depth st1) as (st2 & -> & Hb2 & _ & _ & Hc2).
      { exact Hlocked. }
      { unfold st1. simpl. now destruct (batch st). }
      { unfold st1. simpl. apply Forall_app. now split. }
      split; [exact Hb2 | simpl in *; lia].
    - simpl. rewrite app_nil_r. split; [done | lia]. }
  destruct Hrow as [Hb Hc].
  destruct (IH (process_row py_float E depth n_headers target_map st r)) as [Hb' Hc'].
  { intros n Hn. apply Hlocked. lia. }
  { rewrite Hb. apply Forall_app. now split. }
  { exact Hfit. }
  split; [|lia].
  now rewrite Hb', Hb, <- app_assoc, (accepted_cons py_float n_headers target_map r data).
Qed.
End Locked.

(** X11: when [BEGIN] succeeds and every later call raises
    [OperationalError] (a locked database, say), a file with at least one
    acceptable row and stocks that fit 64 bits ends in the handler of the
    import with the interpreter's recursion error, not with the store's
    message, whatever the recursion limit; nothing is committed. *)
Theorem locked_store_ends_in_recursion_error (py_float : str -> option float)
    (py_lower : str -> str)
    (E : store_env) (depth : nat) (raw_headers : list str)
    (data : list (list str)) (db0 : table) (r : list str) :
  faults E 0 = None ->
  (forall n, (1 <= n)%nat -> exists m, faults E n = Some (OperationalError m)) ->
  raw_headers <> [] ->
  r ∈ data ->
  acceptable (_build_header_map (headers_of py_lower raw_headers)) r = true ->
  stocks_fit py_float (_build_header_map (headers_of py_lower raw_headers)) data ->
  exists st,
    worker py_float py_lower E depth (raw_headers :: data) db0
    = (Failed (recursion_text E), st)
    /\ db st = db0 /\ txn st = None.
Proof.
  intros H0 Hlocked Hhdr Hin Hacc Hfit. destruct raw_headers as [|h hs]; [done|].
  unfold worker, import_body. fold (headers_of py_lower (h :: hs)).
  unfold bind at 1. unfold execute_begin. cbn [connect txn db clock]. rewrite H0.
  set (s0 := set_txn _ _).
  set (hdrs := headers_of py_lower (h :: hs)) in *.
  unfold stream_and_commit, bind.
  assert (Hs0 : forall i, (clock s0 <= i)%nat ->
                          exists m, faults E i = Some (OperationalError m)).
  { intros i Hi. apply Hlocked. exact Hi. }
  assert (Hbind : bindable (accepted py_float (length hdrs) (_build_header_map hdrs) data)).
  { rewrite accepted_tuples. now apply tuples_bindable. }
  destruct (process_rows_locked py_float E depth (length hdrs) (_build_header_map hdrs)
              data s0 Hs0 (Forall_nil_2 _) Hbind) as [Hb Hc].
  destruct (flush_batch_locked E depth
              (process_rows py_float E depth (length hdrs) (_build_header_map hdrs) data s0))
    as (st' & -> & _ & Hd & _).
  { intros i Hi. apply Hlocked. simpl in Hc. lia. }
  { rewrite Hb, accepted_tuples.
    change (tuples_of py_float (_build_header_map hdrs) data <> []).
    intros Hnil.
    assert (Hp : tuple_of py_float (_build_header_map hdrs) r
                 ∈ tuples_of py_float (_build_header_map hdrs) data).
    { apply elem_of_tuples. now exists r. }
    rewrite Hnil in Hp. inversion Hp. }
  { now rewrite Hb. }
  eexists. split; [reflexivity|]. split; [|reflexivity].
  cbn [close rollback set_txn tick issue db].
  rewrite Hd.
  now rewrite (proj1 (process_rows_keeps py_float E depth (length hdrs)
                        (_build_header_map hdrs) data s0)).
Qed.

Lemma locked_store_ends_in_recursion_error_witness :
  let E := failing_after_begin (OperationalError (py "database is locked")) in
  exists st,
    worker short_decimal PyStr.lower E 3 [[py "sku"; py "name"]; [py "A1"; py "Pen"]] no_rows
    = (Failed (py "maximum recursion depth exceeded while calling a Python object"), st)
    /\ db st = no_rows /\ txn st = None.
Proof.
  intros E.
  apply (locked_store_ends_in_recursion_error short_decimal PyStr.lower E 3
           [py "sku"; py "name"] [[py "A1"; py "Pen"]] no_rows [py "A1"; py "Pen"]).
  - reflexivity.
  - intros [|n] Hn; [lia|]. now eexists.
  - discriminate.
  - left.
  - vm_compute. reflexivity.
  - apply stocks_fit_forallb. vm_compute. reflexivity.
Defined.

(** ** Runs on a store where no call fails: what is reported *)

Lemma missing_report_length (tm : gmap string nat) (line : nat) (data : list (list str)) :
  (length (missing_report tm line data)
   + length (filter (fun r => acceptable tm r = true) data) = length data)%nat.
Proof.
  revert line. induction data as [|r data IH]; intros line; [reflexivity|].
  cbn [missing_report]. rewrite filter_cons. specialize (IH (S line)).
  destruct (decide (acceptable tm r = true)) as [Ha|Ha].
  - rewrite Ha. simpl. lia.
  - apply not_true_is_false in Ha. rewrite Ha. simpl. lia.
Qed.

(** The counters at the end of the loop survive the last flush and the
    commit. *)
Lemma stream_and_commit_counters (py_float : str -> option float) (E : store_env)
    (depth n_headers : nat) (target_map : gmap string nat)
    (data : list (list str)) (st st' : state) (r : result unit) :
  stream_and_commit py_float E depth n_headers target_map data st = (r, st') ->
  skipped st' = skipped (process_rows py_float E depth n_headers target_map data st)
  /\ error_lines st'
     = error_lines (process_rows py_float E depth n_headers target_map data st).
Proof.
  unfold stream_and_commit, bind. intros Hrun.
  destruct (flush_batch E depth _) as [[u|e] st1] eqn:Hflush;
    destruct (flush_batch_keeps E _ _ _ _ Hflush) as (_ & Hs & He & _).
  - unfold commit in Hrun. destruct (faults E (clock st1));
      injection Hrun as _ <-; now split.
  - injection Hrun as _ <-. now split.
Qed.

Section SoundReport.
Variable py_float : str -> option float.
Variable E : store_env.
Hypothesis no_faults : forall n, faults E n = None.
Variable depth : nat.
Variable hdrs : list str.
Hypothesis depth_ok : (2 <= depth)%nat.

Lemma process_rows_sound_lines (d0 : list product) (data : list (list str))
    (acc : list product) (st : state) :
  bindable (accepted py_float (length hdrs) (_build_header_map hdrs) data) ->
  pending_ok d0 acc st ->
  error_lines (process_rows py_float E depth (length hdrs) (_build_header_map hdrs) data st)
  = error_lines st ++ missing_report (_build_header_map hdrs) (line_no st) data.
Proof using no_faults depth_ok.
  revert acc st. induction data as [|r data IH]; intros acc st Hfit Hinv.
  { simpl. now rewrite app_nil_r. }
  rewrite process_rows_cons.
  rewrite (accepted_cons py_float (length hdrs) (_build_header_map hdrs) r data) in Hfit.
  apply Forall_app in Hfit as [Hr Hfit].
  pose proof (process_row_pending py_float E no_faults depth (length hdrs)
                (_build_header_map hdrs) depth_ok d0 acc st r Hr Hinv) as Hinv'.
  rewrite (IH _ _ Hfit Hinv'). clear IH Hinv'.
  destruct (process_row_keeps py_float E depth (length hdrs) (_build_header_map hdrs) st r)
    as (_ & -> & _).
  unfold accepted in Hr. cbn [omap list_omap] in Hr. rewrite row_product_tuple in Hr.
  cbn [missing_report]. unfold process_row. rewrite row_product_tuple.
  destruct (acceptable (_build_header_map hdrs) r).
  - set (st1 := set_batch _ _).
    destruct (BATCH_SIZE <=? length (batch st1))%nat; [|reflexivity].
    destruct (flush_batch_ok E no_faults depth st1 depth_ok) as (st' & Hrun & _).
    { exact (proj1 Hinv). }
    { unfold st1. cbn [batch set_batch set_line_no]. apply Forall_app.
      split; [exact (proj1 (proj2 Hinv)) | exact Hr]. }
    rewrite Hrun.
    destruct (flush_batch_keeps E _ _ _ _ Hrun) as (_ & _ & -> & _). reflexivity.
  - cbn [skip_with error_lines set_line_no line_no].
    now rewrite missing_msg_text, <- app_assoc.
Qed.
End SoundReport.

(** A whole run on a store where no call fails: the outcome and the
    committed records. *)
Lemma worker_sound_run (py_float : str -> option float) (py_lower : str -> str)
    (E : store_env) (depth : nat) (raw_headers : list str)
    (data : list (list str)) (db0 : table) :
  (forall n, faults E n = None) -> (2 <= depth)%nat ->
  raw_headers <> [] -> NoDup (skus db0) ->
  stocks_fit py_float (_build_header_map (headers_of py_lower raw_headers)) data ->
  let tm := _build_header_map (headers_of py_lower raw_headers) in
  let msgs := missing_report tm 1 data in
  exists st,
    worker py_float py_lower E depth (raw_headers :: data) db0
    = (Done (length msgs) msgs, st)
    /\ records (db st) = put_all (tuples_of py_float tm data) (records db0)
    /\ NoDup (skus (db st)).
Proof.
  intros Hnf Hdepth Hhdr Hnd Hfit tm msgs.
  destruct raw_headers as [|h hs]; [done|].
  unfold worker, import_body. fold (headers_of py_lower (h :: hs)).
  set (hdrs := headers_of py_lower (h :: hs)) in *. fold tm.
  unfold bind at 1. unfold execute_begin. rewrite Hnf. cbn [connect txn db].
  set (s0 := set_txn _ _).
  assert (Hbind : bindable (accepted py_float (length hdrs) tm data)).
  { unfold tm. rewrite accepted_tuples. now apply tuples_bindable. }
  destruct (stream_and_commit_ok py_float E Hnf depth (length hdrs) tm Hdepth data s0
              eq_refl Hnd Hbind) as (st & Hrun & Hdb & Hnd').
  rewrite Hrun. exists (close st). split; [|split; [|exact Hnd']].
  2:{ unfold tm in Hdb. rewrite accepted_tuples in Hdb. exact Hdb. }
  destruct (stream_and_commit_counters _ _ _ _ _ _ _ _ _ Hrun) as [Hs He].
  assert (Hc0 : counted s0).
  { split; [reflexivity|]. split; [simpl; lia | constructor]. }
  pose proof (process_rows_counted py_float E depth (length hdrs) tm data s0 Hc0)
    as (Hk & _).
  assert (Hp0 : pending_ok (records db0) [] s0).
  { split; [exact Hnd|]. split; [apply Forall_nil_2 | reflexivity]. }
  pose proof (process_rows_sound_lines py_float E Hnf depth hdrs Hdepth (records db0)
                data [] s0 Hbind Hp0) as Hlines.
  change (error_lines s0) with (@nil str) in Hlines.
  change (line_no s0) with 1%nat in Hlines. rewrite app_nil_l in Hlines.
  fold tm in Hlines. rewrite Hs, He, Hk, Hlines. reflexivity.
Qed.

(** X12: on a store where no call fails and a file whose stocks fit 64
    bits, the run reaches the commit and its diagnostics are exactly,
    for each row whose sku cell or name cell is empty, in file order,
    the text [[Line n] Missing SKU or Name; row skipped.] with the line
    of the row; their number is the skipped count, and every data row is
    either reported or acceptable. *)
Theorem sound_import_reports_rejected_rows (py_float : str -> option float)
    (py_lower : str -> str)
    (E : store_env) (depth : nat) (raw_headers : list str)
    (data : list (list str)) (db0 : table) :
  (forall n, faults E n = None) -> (2 <= depth)%nat ->
  raw_headers <> [] -> NoDup (skus db0) ->
  stocks_fit py_float (_build_header_map (headers_of py_lower raw_headers)) data ->
  let tm := _build_header_map (headers_of py_lower raw_headers) in
  let msgs := missing_report tm 1 data in
  exists st,
    worker py_float py_lower E depth (raw_headers :: data) db0
    = (Done (length msgs) msgs, st)
    /\ (length msgs + length (filter (fun r => acceptable tm r = true) data)
        = length data)%nat.
Proof.
  intros Hnf Hdepth Hhdr Hnd Hfit tm msgs.
  destruct (worker_sound_run py_float py_lower E depth raw_headers data db0
              Hnf Hdepth Hhdr Hnd Hfit) as (st & Hrun & _).
  exists st. split; [exact Hrun | apply missing_report_length].
Qed.

Lemma sound_import_reports_rejected_rows_witness :
  exists st,
    worker short_decimal PyStr.lower (sound_store false) 2
      [[py "SKU"; py "Name"]; [py "A1"; py "  "]; [py "A2"; py "Pen"]; [py ""; py "Ink"]]
      no_rows
    = (Done 2 [py "[Line 2] Missing SKU or Name; row skipped.";
               py "[Line 4] Missing SKU or Name; row skipped."], st)
    /\ (2 + 1 = 3)%nat.
Proof.
  apply (sound_import_reports_rejected_rows short_decimal PyStr.lower (sound_store false) 2
           [py "SKU"; py "Name"]
           [[py "A1"; py "  "]; [py "A2"; py "Pen"]; [py ""; py "Ink"]] no_rows).
  - reflexivity.
  - lia.
  - discriminate.
  - constructor.
  - apply stocks_fit_forallb. vm_compute. reflexivity.
Defined.

(** ** What an import leaves of the rows it finds *)

Lemma untouched_row_stays (t0 t : table) (b : list product) (x : row) :
  ids t0 `prefix_of` ids t -> records t = put_all b (records t0) ->
  x ∈ rows t0 -> r_sku x ∉ p_sku <$> b -> x ∈ rows t.
Proof.
  intros Hpre Hrec Hx Hnot.
  apply list_elem_of_lookup_1 in Hx as [i Hi].
  assert (Hr : records t !! i = Some (r_product x)).
  { rewrite Hrec. apply put_all_lookup_other; [|exact Hnot].
    unfold records. now rewrite list_lookup_fmap, Hi. }
  assert (Hid : ids t !! i = Some (r_id x)).
  { apply (prefix_lookup_Some (ids t0)); [|exact Hpre].
    unfold ids. now rewrite list_lookup_fmap, Hi. }
  unfold records in Hr. unfold ids in Hid.
  rewrite list_lookup_fmap in Hr. rewrite list_lookup_fmap in Hid.
  destruct (rows t !! i) as [y|] eqn:Hy; [|discriminate].
  apply (list_elem_of_lookup_2 _ i).
  rewrite Hy. f_equal. destruct x, y. simpl in *. congruence.
Qed.

(** X13: on a store where no call fails and a file whose stocks fit 64
    bits, an import never deletes or reorders the rows it finds and never
    changes their id or sku: the ids and the skus of the old table are a
    prefix of those of the new one, ids stay unique, and a row whose sku
    is the sku cell of no acceptable row of the file is in the new table
    as it was. *)
Theorem import_keeps_existing_rows (py_float : str -> option float)
    (py_lower : str -> str)
    (E : store_env) (depth : nat) (raw_headers : list str)
    (data : list (list str)) (db0 : table) :
  (forall n, faults E n = None) -> (2 <= depth)%nat ->
  raw_headers <> [] -> NoDup (skus db0) ->
  stocks_fit py_float (_build_header_map (headers_of py_lower raw_headers)) data ->
  exists k msgs st,
    worker py_float py_lower E depth (raw_headers :: data) db0 = (Done k msgs, st)
    /\ ids db0 `prefix_of` ids (db st)
    /\ skus db0 `prefix_of` skus (db st)
    /\ (NoDup (ids db0) -> NoDup (ids (db st)))
    /\ forall x,
         x ∈ rows db0 ->
         (forall r, r ∈ data ->
                    acceptable (_build_header_map (headers_of py_lower raw_headers)) r = true ->
                    cell_under (_build_header_map (headers_of py_lower raw_headers)) r "sku"
                    <> r_sku x) ->
         x ∈ rows (db st).
Proof.
  intros Hnf Hdepth Hhdr Hnd Hfit.
  destruct (worker_ok py_float py_lower E depth raw_headers data db0
              Hnf Hdepth Hhdr Hnd Hfit) as (k & msgs & st & Hrun & Hrec & Hnd').
  assert (Hext : extends db0 (db st)).
  { pose proof (worker_keeps py_float py_lower E (extends db0) (extends_closed db0)
                  depth (raw_headers :: data) db0) as H.
    rewrite Hrun in H. apply H. split; reflexivity. }
  exists k, msgs, st. split; [exact Hrun|].
  split; [exact (proj1 Hext)|]. split; [exact (proj2 Hext)|]. split.
  - intros Hids.
    pose proof (worker_keeps py_float py_lower E keys_ok keys_closed
                  depth (raw_headers :: data) db0 (conj Hnd Hids)) as H.
    rewrite Hrun in H. exact (proj2 H).
  - intros x Hx Hother.
    apply (untouched_row_stays db0 (db st) _ x (proj1 Hext) Hrec Hx).
    intros Hin. apply list_elem_of_fmap in Hin as (p & Hp & Hin).
    apply elem_of_tuples in Hin as (r & Hr & Ha & ->).
    exact (Hother r Hr Ha (eq_sym Hp)).
Qed.

Lemma import_keeps_existing_rows_witness :
  let old := mkRow 7 (mkProduct (py "B9") (py "Ink") 2%float 5 [] [] [] []) in
  exists k msgs st,
    worker short_decimal PyStr.lower (sound_store true) 2
      [[py "sku"; py "name"]; [py "A1"; py "Pen"]] (mkTable [old] 9)
    = (Done k msgs, st)
    /\ ids (db st) = [7; 10]%Z
    /\ old ∈ rows (db st).
Proof.
  intros old.
  destruct (import_keeps_existing_rows short_decimal PyStr.lower (sound_store true) 2
              [py "sku"; py "name"] [[py "A1"; py "Pen"]] (mkTable [old] 9))
    as (k & msgs & st & Hrun & _ & _ & _ & Hkeep).
  - reflexivity.
  - lia.
  - discriminate.
  - apply (bool_decide_unpack _). vm_compute. exact I.
  - apply stocks_fit_forallb. vm_compute. reflexivity.
  - exists k, msgs, st. split; [exact Hrun|]. split.
    + vm_compute in Hrun. injection Hrun as _ _ <-. reflexivity.
    + apply Hkeep.
      * apply elem_of_cons. now left.
      * intros r Hr _. apply list_elem_of_singleton in Hr as ->.
        vm_compute. discriminate.
Defined.

(** ** The calls of a run on a store that takes the upsert form *)

Lemma BATCH_SIZE_pos : (0 < BATCH_SIZE)%nat.
Proof. apply Nat.ltb_lt. vm_compute. reflexivity. Qed.

Section Chunks.
Variable py_float : str -> option float.
Variable E : store_env.
Hypothesis no_faults : forall n, faults E n = None.
Hypothesis upsert_ok : upsert_supported E = true.

Lemma flush_batch_upsert_ok (d : nat) (st : state) :
  have_upsert st = true -> batch st <> [] -> bindable (batch st) ->
  exists st', flush_batch E (S d) st = (Ok tt, st')
              /\ log st' = SUpsertMany (batch st) :: log st
              /\ have_upsert st' = true /\ batch st' = [].
Proof using no_faults upsert_ok.
  intros Hflag Hb Hbind. rewrite flush_batch_S, Hflag.
  destruct (batch st) as [|p b] eqn:Hbatch; [done|].
  unfold executemany_upsert. rewrite upsert_ok.
  destruct (upsert_each_ok E no_faults (p :: b) (issue (SUpsertMany (p :: b)) st) Hbind)
    as (st1 & Hrun & _ & Hl).
  rewrite Hrun.
  destruct (issues_only_upsert_each E (fun _ => False) _ _ _ _ Hrun)
    as (_ & Hf & _).
  exists (set_batch [] st1). repeat split; try done.
  cbn [have_upsert set_batch]. now rewrite Hf.
Qed.

Variables (depth n_headers : nat) (target_map : gmap string nat).
Hypothesis depth_ok : (1 <= depth)%nat.

Lemma process_rows_chunked (data : list (list str)) (acc : list product)
    (st : state) :
  bindable (accepted py_float n_headers target_map data) ->
  chunked acc st ->
  chunked (acc ++ accepted py_float n_headers target_map data)
    (process_rows py_float E depth n_headers target_map data st).
Proof using no_faults upsert_ok depth_ok.
  revert acc st. induction data as [|r data IH]; intros acc st Hfit Hinv.
  { simpl. now rewrite app_nil_r. }
  rewrite process_rows_cons.
  rewrite (accepted_cons py_float n_headers target_map r data) in Hfit |- *.
  apply Forall_app in Hfit as [Hr Hfit].
  rewrite app_assoc. apply IH; [exact Hfit|]. clear IH.
  destruct Hinv as (Hflag & Hlen & Hbind & bs & Hlog & Hacc & Hfull).
  unfold process_row, accepted in *. cbn [omap list_omap] in *.
  destruct (row_product py_float n_headers target_map r) as [p|].
  - set (st1 := set_batch _ _).
    assert (Hb1 : batch st1 = batch st ++ [p]) by reflexivity.
    assert (Hl1 : length (batch st1) = S (length (batch st)))
      by (rewrite Hb1, length_app; simpl; lia).
    assert (Hbind1 : bindable (batch st1)).
    { rewrite Hb1. apply Forall_app. now split. }
    destruct (Nat.leb_spec BATCH_SIZE (length (batch st1))) as [Hge|Hlt].
    + destruct depth as [|d]; [lia|].
      destruct (flush_batch_upsert_ok d st1 Hflag) as (st' & -> & Hlog' & Hflag' & Hb').
      { rewrite Hb1. now destruct (batch st). }
      { exact Hbind1. }
      split; [exact Hflag'|]. split; [rewrite Hb'; simpl; lia|].
      split; [rewrite Hb'; apply Forall_nil_2|].
      exists (bs ++ [batch st1]). split; [|split].
      * rewrite Hlog'. cbn [rev]. change (log st1) with (log st).
        now rewrite Hlog, fmap_app.
      * rewrite Hb', app_nil_r, concat_app, Hb1. cbn [concat].
        now rewrite app_nil_r, app_assoc, Hacc.
      * apply Forall_app. split; [exact Hfull|]. constructor; [lia | constructor].
    + split; [exact Hflag|]. split; [exact Hlt|]. split; [exact Hbind1|].
      exists bs. split; [exact Hlog|]. split; [|exact Hfull].
      now rewrite Hb1, app_assoc, Hacc.
  - rewrite app_nil_r. split; [exact Hflag|]. split; [exact Hlen|].
    split; [exact Hbind|]. now exists bs.
Qed.
End Chunks.

(** X14: on a store that takes the upsert form and never fails, and a
    file whose stocks fit 64 bits, the calls of a run from its [BEGIN] on
    are [BEGIN], then [executemany] calls that carry the tuples of the
    acceptable rows in file order, every one but the last with exactly
    [BATCH_SIZE] tuples and none empty or longer, then the commit; no
    per-record statement is issued. *)
Theorem executemany_in_chunks (py_float : str -> option float)
    (py_lower : str -> str)
    (E : store_env) (depth : nat) (raw_headers : list str)
    (data : list (list str)) (db0 : table) :
  (forall n, faults E n = None) -> upsert_supported E = true ->
  (1 <= depth)%nat -> raw_headers <> [] ->
  stocks_fit py_float (_build_header_map (headers_of py_lower raw_headers)) data ->
  exists k msgs st bs,
    worker py_float py_lower E depth (raw_headers :: data) db0 = (Done k msgs, st)
    /\ rev (log st) = SBegin :: (SUpsertMany <$> bs) ++ [SCommit]
    /\ concat bs
       = tuples_of py_float (_build_header_map (headers_of py_lower raw_headers)) data
    /\ Forall (fun b => b <> [] /\ (length b <= BATCH_SIZE)%nat) bs
    /\ forall i b, bs !! i = Some b -> (S i < length bs)%nat ->
                   length b = BATCH_SIZE.
Proof.
  intros Hnf Hup Hdepth Hhdr Hfit. destruct raw_headers as [|h hs]; [done|].
  unfold worker, import_body. fold (headers_of py_lower (h :: hs)).
  unfold bind at 1. unfold execute_begin. rewrite Hnf. cbn [connect txn db].
  set (s0 := set_txn _ _).
  set (hdrs := headers_of py_lower (h :: hs)) in *.
  set (n := length hdrs).
  set (tm := _build_header_map hdrs) in *.
  assert (Hbind : bindable (accepted py_float n tm data)).
  { unfold n, tm. rewrite accepted_tuples. now apply tuples_bindable. }
  assert (H0 : chunked [] s0).
  { split; [reflexivity|]. split; [exact BATCH_SIZE_pos|].
    split; [apply Forall_nil_2|].
    exists []. repeat split; constructor. }
  destruct (process_rows_chunked py_float E Hnf Hup depth n tm Hdepth data [] s0 Hbind H0)
    as (Hflag & Hlen & Hbind1 & bs & Hlog & Hacc & Hfull).
  rewrite app_nil_l in Hacc.
  change (accepted py_float n tm data)
    with (accepted py_float (length hdrs) (_build_header_map hdrs) data) in Hacc.
  rewrite accepted_tuples in Hacc. fold tm in Hacc.
  unfold stream_and_commit, bind.
  set (st1 := process_rows py_float E depth n tm data s0) in *.
  assert (Hnz : Forall (fun b => b <> [] /\ (length b <= BATCH_SIZE)%nat) bs).
  { eapply Forall_impl; [exact Hfull|]. intros b Hb. cbv beta in Hb. split; [|lia].
    intros ->. pose proof BATCH_SIZE_pos. cbn [length] in Hb. lia. }
  destruct (batch st1) as [|p b] eqn:Hb.
  - destruct depth as [|d]; [lia|]. rewrite flush_batch_S, Hb.
    unfold commit. rewrite Hnf.
    eexists _, _, _, bs. split; [reflexivity|].
    cbn [close log set_txn set_db tick issue rev].
    rewrite Hlog. split; [reflexivity|].
    rewrite app_nil_r in Hacc. split; [exact Hacc|]. split; [exact Hnz|].
    intros i c Hi _. exact (proj1 (Forall_lookup _ _) Hfull i c Hi).
  - destruct depth as [|d]; [lia|].
    destruct (flush_batch_upsert_ok E Hnf Hup d st1 Hflag) as (st2 & -> & Hlog2 & _).
    { now rewrite Hb. }
    { now rewrite Hb. }
    unfold commit. rewrite Hnf.
    eexists _, _, _, (bs ++ [p :: b]). split; [reflexivity|].
    cbn [close log set_txn set_db tick issue rev].
    rewrite Hlog2. cbn [rev]. rewrite Hlog, Hb, fmap_app.
    split; [now rewrite <- !app_assoc|].
    split; [now rewrite concat_app; simpl; rewrite app_nil_r|].
    split.
    + apply Forall_app. split; [exact Hnz|]. constructor; [|constructor].
      split; [done|]. lia.
    + intros i c Hi Hlast. rewrite length_app in Hlast. simpl in Hlast.
      rewrite lookup_app_l in Hi by lia.
      exact (proj1 (Forall_lookup _ _) Hfull i c Hi).
Qed.

Lemma executemany_in_chunks_witness :
  exists k msgs st bs,
    worker short_decimal PyStr.lower (sound_store true) 1
      [[py "sku"; py "name"]; [py "A1"; py "Pen"]; [py ""; py "Ink"]; [py "A1"; py "Pencil"]]
      no_rows
    = (Done k msgs, st)
    /\ rev (log st) = SBegin :: (SUpsertMany <$> bs) ++ [SCommit]
    /\ concat bs = [mkProduct (py "A1") (py "Pen") 0%float 0 [] [] [] [];
                    mkProduct (py "A1") (py "Pencil") 0%float 0 [] [] [] []].
Proof.
  destruct (executemany_in_chunks short_decimal PyStr.lower (sound_store true) 1
              [py "sku"; py "name"]
              [[py "A1"; py "Pen"]; [py ""; py "Ink"]; [py "A1"; py "Pencil"]] no_rows)
    as (k & msgs & st & bs & Hrun & Hlog & Hacc & _).
  - reflexivity.
  - reflexivity.
  - lia.
  - discriminate.
  - apply stocks_fit_forallb. vm_compute. reflexivity.
  - exists k, msgs, st, bs. split; [exact Hrun|]. split; [exact Hlog|].
    rewrite Hacc. vm_compute. reflexivity.
Defined.

(** X21: the two write paths agree on what is stored.  On stores where
    no call fails, a library that takes the upsert form and one that
    rejects it (so that the run falls back to SELECT, then UPDATE or
    INSERT) end with the same outcome and commit the same records in the
    same order; the ids may differ, since an upsert that meets its sku
    uses up an id. *)
Theorem fallback_commits_the_same (py_float : str -> option float)
    (py_lower : str -> str)
    (E1 E2 : store_env) (depth : nat) (raw_headers : list str)
    (data : list (list str)) (db0 : table) :
  (forall n, faults E1 n = None) -> (forall n, faults E2 n = None) ->
  (2 <= depth)%nat -> raw_headers <> [] -> NoDup (skus db0) ->
  stocks_fit py_float (_build_header_map (headers_of py_lower raw_headers)) data ->
  (worker py_float py_lower E1 depth (raw_headers :: data) db0).1
  = (worker py_float py_lower E2 depth (raw_headers :: data) db0).1
  /\ records (db (worker py_float py_lower E1 depth (raw_headers :: data) db0).2)
     = records (db (worker py_float py_lower E2 depth (raw_headers :: data) db0).2).
Proof.
  intros Hnf1 Hnf2 Hdepth Hhdr Hnd Hfit.
  destruct (worker_sound_run py_float py_lower E1 depth raw_headers data db0
              Hnf1 Hdepth Hhdr Hnd Hfit) as (st1 & -> & Hdb1 & _).
  destruct (worker_sound_run py_float py_lower E2 depth raw_headers data db0
              Hnf2 Hdepth Hhdr Hnd Hfit) as (st2 & -> & Hdb2 & _).
  split; [reflexivity|]. cbn [snd]. congruence.
Qed.

Lemma fallback_commits_the_same_witness :
  let file := [[py "sku"; py "name"]; [py "A1"; py "Pen"]; [py "A1"; py "Pencil"];
               [py "B2"; py "Nib"]] in
  (worker short_decimal PyStr.lower (sound_store true) 2 file no_rows).1
  = (worker short_decimal PyStr.lower (sound_store false) 2 file no_rows).1
  /\ records (db (worker short_decimal PyStr.lower (sound_store true) 2 file no_rows).2)
     = records (db (worker short_decimal PyStr.lower (sound_store false) 2 file no_rows).2).
Proof.
  intros file.
  apply (fallback_commits_the_same short_decimal PyStr.lower
           (sound_store true) (sound_store false) 2
           [py "sku"; py "name"]
           [[py "A1"; py "Pen"]; [py "A1"; py "Pencil"]; [py "B2"; py "Nib"]] no_rows).
  - reflexivity.
  - reflexivity.
  - lia.
  - discriminate.
  - constructor.
  - apply stocks_fit_forallb. vm_compute. reflexivity.
Defined.

(** ** The pager *)

Lemma py_slice_inside {A} (a b : Z) (l : list A) :
  (0 <= a)%Z -> (0 <= b <= Z.of_nat (length l))%Z ->
  py_slice a b l = take (Z.to_nat (b - a)) (drop (Z.to_nat a) l).
Proof.
  intros Ha Hb. unfold py_slice, slice_index.
  destruct (Z.ltb_spec a 0); [lia|]. destruct (Z.ltb_spec b 0); [lia|].
  rewrite (Z.min_l b) by lia.
  destruct (Z.le_gt_cases a (Z.of_nat (length l))).
  - now rewrite Z.min_l by lia.
  - rewrite Z.min_r by lia.
    replace (Z.to_nat (b - Z.of_nat (length l))) with 0%nat by lia.
    now replace (Z.to_nat (b - a)) with 0%nat by lia.
Qed.

(** X15: the page shown holds, at position [j], the filtered row number
    [current_page * page_size + j], for the positions below the page size,
    and nothing else: consecutive pages cut the filtered rows into
    consecutive runs of [page_size] rows. *)
Theorem page_rows_lookup (v : view) (j : nat) :
  (0 < page_size v)%Z -> (0 <= current_page v)%Z ->
  page_rows v !! j
  = if decide (Z.of_nat j < page_size v)%Z
    then filtered_data v !! Z.to_nat (current_page v * page_size v + Z.of_nat j)
    else None.
Proof.
  intros Hps Hcp. unfold page_rows, _page_slice.
  set (l := filtered_data v). set (a := (current_page v * page_size v)%Z).
  assert (Ha : (0 <= a)%Z) by (unfold a; nia).
  rewrite py_slice_inside by lia.
  destruct (decide (Z.of_nat j < page_size v)%Z) as [Hj|Hj].
  - destruct (decide (Z.to_nat (a + Z.of_nat j) < length l)%nat) as [Hin|Hout].
    + rewrite lookup_take_lt by lia. rewrite lookup_drop. f_equal. lia.
    + rewrite (lookup_ge_None_2 l) by lia.
      apply lookup_ge_None_2. rewrite length_take, length_drop. lia.
  - apply lookup_ge_None_2. rewrite length_take, length_drop. lia.
Qed.

Lemma page_rows_lookup_witness :
  let r i := mkRow i (mkProduct (py "A") (py "Pen") 0%float 0 [] [] [] []) in
  let v := mkView [] [r 1; r 2; r 3; r 4; r 5]%Z 1 2 [] in
  page_rows v !! 1%nat = Some (r 4%Z).
Proof.
  intros r v. rewrite (page_rows_lookup v 1); [reflexivity | reflexivity | discriminate].
Defined.

Lemma page_rows_length (v : view) :
  (0 < page_size v)%Z -> (0 <= current_page v)%Z ->
  Z.of_nat (length (page_rows v))
  = Z.max 0 (Z.min (page_size v)
               (Z.of_nat (length (filtered_data v)) - current_page v * page_size v)).
Proof.
  intros Hps Hcp. unfold page_rows, _page_slice.
  assert (0 <= current_page v * page_size v)%Z by nia.
  rewrite py_slice_inside by lia.
  rewrite length_take, length_drop. lia.
Qed.

(** X16: the pager keeps its invariant: stepping back or forward, a new
    search and a new (positive) page size all leave a positive page size
    and a page that is the first one or starts inside the filtered rows. *)
Theorem pager_invariant (py_lower : str -> str) (v : view) (n : Z) :
  page_ok v -> (0 < n)%Z ->
  page_ok (prev_page v) /\ page_ok (next_page v)
  /\ page_ok (_apply_search py_lower v) /\ page_ok (_change_page_size n v).
Proof.
  intros (Hps & Hcp & Hin) Hn. unfold page_ok, prev_page, next_page.
  split; [|split; [|split]].
  - destruct (Z.ltb_spec 0 (current_page v)); cbn [page_size current_page filtered_data];
      [|now repeat split].
    split; [done|]. split; [lia|]. right. nia.
  - destruct (Z.ltb_spec ((current_page v + 1) * page_size v)
                (Z.of_nat (length (filtered_data v))));
      cbn [page_size current_page filtered_data]; [|now repeat split].
    split; [done|]. split; [lia|]. now right.
  - cbn [_apply_search page_size current_page]. split; [done|]. split; [done|]. now left.
  - cbn [_change_page_size page_size current_page]. split; [done|]. split; [done|]. now left.
Qed.

Lemma pager_invariant_witness :
  let r i := mkRow i (mkProduct (py "A") (py "Pen") 0%float 0 [] [] [] []) in
  let v := mkView [r 1; r 2; r 3]%Z [r 1; r 2; r 3]%Z 1 2 [] in
  page_ok v
  /\ page_ok (prev_page v) /\ page_ok (next_page v)
  /\ page_ok (_apply_search PyStr.lower v) /\ page_ok (_change_page_size 6 v).
Proof.
  intros r v.
  assert (H : page_ok v).
  { split; [reflexivity|]. split; [discriminate|]. right. reflexivity. }
  split; [exact H|]. apply (pager_invariant PyStr.lower v 6 H). reflexivity.
Defined.

(** X17: under the pager's invariant the label never shows a page beyond
    the last one, the page holds at most [page_size] rows, and it is empty
    only when no row passes the filter. *)
Theorem page_label_in_range (v : view) :
  page_ok v ->
  exists tp, total_pages v = Some tp
             /\ (1 <= current_page v + 1 <= tp)%Z
             /\ (Z.of_nat (length (page_rows v)) <= page_size v)%Z
             /\ (filtered_data v <> [] -> page_rows v <> []).
Proof.
  intros (Hps & Hcp & Hin). unfold total_pages.
  destruct (Z.eqb_spec (page_size v) 0); [lia|]. eexists. split; [reflexivity|].
  pose proof (page_rows_length v Hps Hcp) as Hlen.
  set (len := Z.of_nat (length (filtered_data v))) in *.
  assert (Hlen0 : (0 <= len)%Z) by (unfold len; lia).
  split; [|split].
  - split; [lia|]. destruct Hin as [->|Hin]; [lia|].
    assert (current_page v <= (len - 1) / page_size v)%Z; [|lia].
    apply Z.div_le_lower_bound; [lia|]. nia.
  - lia.
  - intros Hne Hnil. rewrite Hnil in Hlen. cbn [length] in Hlen.
    assert (0 < len)%Z.
    { unfold len. destruct (filtered_data v); [done | simpl; lia]. }
    destruct Hin as [H0|Hin]; [rewrite H0 in Hlen|]; lia.
Qed.

Lemma page_label_in_range_witness :
  let r i := mkRow i (mkProduct (py "A") (py "Pen") 0%float 0 [] [] [] []) in
  let v := mkView [] [r 1; r 2; r 3]%Z 1 2 [] in
  exists tp, total_pages v = Some tp
             /\ (1 <= current_page v + 1 <= tp)%Z
             /\ (Z.of_nat (length (page_rows v)) <= page_size v)%Z
             /\ (filtered_data v <> [] -> page_rows v <> []).
Proof.
  intros r v. apply (page_label_in_range v).
  split; [reflexivity|]. split; [discriminate|]. right. reflexivity.
Defined.

(** X18: [next_page] moves exactly when the page shown is not the last
    one of the label, and then [prev_page] leads back; from a page after
    the first, [prev_page] followed by [next_page] leads back as well. *)
Theorem next_page_iff_not_last (v : view) :
  page_ok v ->
  exists tp, total_pages v = Some tp
    /\ current_page (next_page v)
       = (if (current_page v + 1 <? tp)%Z then current_page v + 1 else current_page v)%Z
    /\ prev_page (next_page v) = (if (current_page v + 1 <? tp)%Z then v else prev_page v)
    /\ ((0 < current_page v)%Z -> next_page (prev_page v) = v).
Proof.
  intros (Hps & Hcp & Hin). unfold total_pages.
  destruct (Z.eqb_spec (page_size v) 0); [lia|]. eexists. split; [reflexivity|].
  set (len := Z.of_nat (length (filtered_data v))) in *.
  assert (Hlen0 : (0 <= len)%Z) by (unfold len; lia).
  assert (Hguard : ((current_page v + 1) * page_size v <? len)%Z
                   = (current_page v + 1 <? Z.max 1 ((len - 1) / page_size v + 1))%Z).
  { destruct (Z.ltb_spec ((current_page v + 1) * page_size v) len) as [Hlt|Hge];
      symmetry; [apply Z.ltb_lt | apply Z.ltb_ge].
    - assert (current_page v + 1 <= (len - 1) / page_size v)%Z; [|lia].
      apply Z.div_le_lower_bound; [lia|]. nia.
    - apply Z.max_lub; [lia|].
      assert ((len - 1) / page_size v < current_page v + 1)%Z; [|lia].
      apply Z.div_lt_upper_bound; [lia|]. nia. }
  rewrite <- Hguard. unfold next_page. fold len.
  destruct v as [ad fd cp ps txt]. cbn [current_page page_size filtered_data] in *.
  split; [|split].
  - now destruct ((cp + 1) * ps <? len)%Z.
  - destruct ((cp + 1) * ps <? len)%Z; [|reflexivity].
    unfold prev_page. cbn [current_page page_size filtered_data all_data search_text].
    destruct (Z.ltb_spec 0 (cp + 1)); [|lia]. f_equal. lia.
  - intros Hpos. unfold prev_page. cbn [current_page].
    destruct (Z.ltb_spec 0 cp); [|lia].
    unfold next_page. cbn [current_page page_size filtered_data all_data search_text].
    replace (cp - 1 + 1)%Z with cp by lia. fold len.
    destruct (Z.ltb_spec (cp * ps) len); [reflexivity | lia].
Qed.

Lemma next_page_iff_not_last_witness :
  let r i := mkRow i (mkProduct (py "A") (py "Pen") 0%float 0 [] [] [] []) in
  let v := mkView [] [r 1; r 2; r 3; r 4; r 5]%Z 1 2 [] in
  total_pages v = Some 3%Z
  /\ current_page (next_page v) = 2%Z
  /\ prev_page (next_page v) = v /\ next_page (prev_page v) = v.
Proof.
  intros r v.
  destruct (next_page_iff_not_last v) as (tp & Htp & Hnext & Hback & Hforth).
  { split; [reflexivity|]. split; [discriminate|]. right. reflexivity. }
  injection Htp as <-.
  split; [reflexivity|]. split; [exact Hnext|]. split; [exact Hback|].
  apply Hforth. reflexivity.
Defined.

(** ** The search *)

Lemma startswith_prefix (q s : str) :
  PyStr.startswith q s = true <-> exists b, s = q ++ b.
Proof.
  revert s. induction q as [|c q IH]; intros s.
  { split; [now exists s | done]. }
  destruct s as [|d s]; cbn [PyStr.startswith].
  { split; [done | now intros [b Hb]]. }
  destruct (N.eqb_spec c d) as [->|Hne].
  - rewrite IH. split; intros [b Hb]; exists b; simpl in *; congruence.
  - split; [done|]. intros [b Hb]. simpl in Hb. congruence.
Qed.

Lemma contains_infix (q s : str) :
  contains q s = true <-> exists a b, s = a ++ q ++ b.
Proof.
  induction s as [|d s IH]; cbn [contains]; rewrite orb_true_iff, startswith_prefix.
  - split.
    + intros [[b Hb]|]; [|done]. now exists [], b.
    + intros ([|x a] & b & Hab); [left; now exists b | discriminate].
  - rewrite IH. split.
    + intros [[b Hb]|(a & b & Hab)]; [now exists [], b|].
      exists (d :: a), b. simpl. congruence.
    + intros ([|x a] & b & Hab); [left; now exists b|].
      right. exists a, b. simpl in Hab. congruence.
Qed.

Lemma matches_infix (py_lower : str -> str) (q : str) (r : row) :
  matches py_lower q r = true
  <-> exists a b, py_lower (r_sku r) = a ++ q ++ b
                  \/ py_lower (p_name (r_product r)) = a ++ q ++ b
                  \/ py_lower (p_category (r_product r)) = a ++ q ++ b.
Proof.
  unfold matches. rewrite !orb_true_iff, !contains_infix. split.
  - intros [[(a & b & H)|(a & b & H)]|(a & b & H)]; exists a, b; tauto.
  - intros (a & b & [H|[H|H]]); [left; left | left; right | right]; now exists a, b.
Qed.

(** X19: a search keeps exactly the rows in whose lowered sku, name or
    category the lowered, stripped search text occurs, in the order of the
    loaded rows (all of them for a blank text); it shows the first page,
    leaves the loaded rows and the page size alone, and applying it again
    changes nothing. *)
Theorem apply_search_filters (py_lower : str -> str) (v : view) :
  let q := py_lower (PyStr.strip (search_text v)) in
  let v' := _apply_search py_lower v in
  filtered_data v' `sublist_of` all_data v
  /\ (forall r,
        r ∈ filtered_data v'
        <-> r ∈ all_data v
            /\ exists a b, py_lower (r_sku r) = a ++ q ++ b
                           \/ py_lower (p_name (r_product r)) = a ++ q ++ b
                           \/ py_lower (p_category (r_product r)) = a ++ q ++ b)
  /\ (q = [] -> filtered_data v' = all_data v)
  /\ current_page v' = 0%Z /\ all_data v' = all_data v
  /\ page_size v' = page_size v
  /\ _apply_search py_lower v' = v'.
Proof.
  intros q v'. unfold v', _apply_search. fold q.
  cbn [filtered_data all_data current_page page_size search_text]. fold q.
  split; [|split; [|split; [|now repeat split]]].
  - destruct q; [done | apply sublist_filter].
  - intros r. destruct q as [|c q'] eqn:Hq.
    + split; [|tauto]. intros Hr. split; [exact Hr|].
      now exists [], (py_lower (r_sku r)); left.
    + rewrite list_elem_of_filter, matches_infix. tauto.
  - now intros ->.
Qed.

(** X20: a search text whose query contains the query of another one
    finds a part of what the other finds, in the same order. *)
Theorem longer_query_narrows (py_lower : str -> str) (v1 v2 : view) :
  all_data v1 = all_data v2 ->
  (exists a b, py_lower (PyStr.strip (search_text v2))
               = a ++ py_lower (PyStr.strip (search_text v1)) ++ b) ->
  filtered_data (_apply_search py_lower v2)
    `sublist_of` filtered_data (_apply_search py_lower v1).
Proof.
  intros Hall (a & b & Hq). unfold _apply_search.
  cbn [filtered_data]. rewrite Hall.
  set (q1 := py_lower (PyStr.strip (search_text v1))) in *.
  set (q2 := py_lower (PyStr.strip (search_text v2))) in *.
  destruct q1 as [|c1 q1'] eqn:H1.
  { destruct q2; [done | apply sublist_filter]. }
  destruct q2 as [|c2 q2'] eqn:H2.
  { now destruct a. }
  rewrite <- (list_filter_filter_l (fun r => matches py_lower (c2 :: q2') r = true)
                (fun r => matches py_lower (c1 :: q1') r = true)).
  - apply sublist_filter.
  - intros r. rewrite !matches_infix. intros (x & y & Hr).
    exists (x ++ a), (b ++ y). rewrite Hq in Hr.
    rewrite <- !app_assoc in *. exact Hr.
Qed.

Lemma longer_query_narrows_witness :
  let pen := mkRow 1 (mkProduct (py "A1") (py "Red Pen") 0%float 0 [] [] [] []) in
  let ink := mkRow 2 (mkProduct (py "B2") (py "Penholder") 0%float 0 [] [] [] []) in
  let v1 := mkView [pen; ink] [] 0 12 (py " PEN ") in
  let v2 := mkView [pen; ink] [] 0 12 (py "penh") in
  filtered_data (_apply_search PyStr.lower v2) = [ink]
  /\ filtered_data (_apply_search PyStr.lower v1) = [pen; ink]
  /\ filtered_data (_apply_search PyStr.lower v2)
       `sublist_of` filtered_data (_apply_search PyStr.lower v1).
Proof.
  intros pen ink v1 v2.
  split; [vm_compute; reflexivity|]. split; [vm_compute; reflexivity|].
  apply (longer_query_narrows PyStr.lower v1 v2); [reflexivity|].
  exists [], (py "h"). vm_compute. reflexivity.
Defined.
